(** * PF2e AI Combat Assistant: the suggestion-resolution core

    A shallow embedding of the resolution pipeline of [scripts/main.js]
    (cost vocabulary, reply parser, action resolver, cost arbiter,
    prerequisite checks and the turn state kept in the actor's flags),
    followed by the predicates and the sample data of the properties, and
    by the properties of the specification that were checked against it.

    Conventions of the embedding.
    - A JavaScript string is a [string] of ASCII code units; [toLowerCase]
      maps [A-Z] to [a-z] and leaves everything else alone, [\s] is the ASCII
      white space.
    - A JavaScript number that the code only ever obtains from [parseInt],
      from a literal or from a PF2e condition value is a [Z].
    - [null]/[undefined] fields are [option]s; a value that is a number, a
      string or [null] at run time is a small tagged union.
    - Regular expressions are terms of [regex], run by a backtracking matcher
      that follows the ECMAScript semantics (leftmost match, greedy and lazy
      quantifiers, look-ahead, captures).
    - A pattern that the code builds from a string with [new RegExp] is
      read from that string by the grammar of ECMAScript 2023 (no [u] or [v]
      flag, Annex B included) and run by the matchers of its section 22.2.2;
      the wording of the [SyntaxError] for a refused source is the
      engine's and is read from the environment. *)

From Stdlib Require Import ZArith QArith Ascii String List Bool Lia.
From stdpp Require Import gmap strings list.

Import ListNotations.
Open Scope string_scope.
Open Scope list_scope.
Open Scope Z_scope.

(* ===================================================================== *)
(** ** JavaScript strings *)
(* ===================================================================== *)

Module Js.

Definition chars (s : string) : list ascii := list_ascii_of_string s.
Definition str (l : list ascii) : string := string_of_list_ascii l.

Definition code (c : ascii) : nat := nat_of_ascii c.

Definition in_range (lo hi : nat) (c : ascii) : bool :=
  (Nat.leb lo (code c)) && (Nat.leb (code c) hi).

Definition is_digit (c : ascii) : bool := in_range 48 57 c.
Definition is_upper (c : ascii) : bool := in_range 65 90 c.
Definition is_lower (c : ascii) : bool := in_range 97 122 c.

(** [\w] : letters, digits and the underscore. *)
Definition is_word (c : ascii) : bool :=
  is_digit c || is_upper c || is_lower c || Nat.eqb (code c) 95.

(** [\s] : tab, line feed, vertical tab, form feed, carriage return, space. *)
Definition is_space (c : ascii) : bool :=
  in_range 9 13 c || Nat.eqb (code c) 32.

Definition newline : ascii := ascii_of_nat 10.
Definition is_newline (c : ascii) : bool :=
  Nat.eqb (code c) 10 || Nat.eqb (code c) 13.

Definition lower_char (c : ascii) : ascii :=
  if is_upper c then ascii_of_nat (code c + 32) else c.
Definition upper_char (c : ascii) : ascii :=
  if is_lower c then ascii_of_nat (code c - 32) else c.

Definition char_eqb (a b : ascii) : bool := Ascii.eqb a b.
Definition char_eqb_ci (a b : ascii) : bool :=
  Ascii.eqb (lower_char a) (lower_char b).

Definition toLowerCase (s : string) : string := str (map lower_char (chars s)).
Definition toUpperCase (s : string) : string := str (map upper_char (chars s)).

Definition jslength (s : string) : nat := String.length s.

(** [s.trim()] *)
Fixpoint drop_space (l : list ascii) : list ascii :=
  match l with
  | c :: l' => if is_space c then drop_space l' else l
  | [] => []
  end.

Definition trim (s : string) : string :=
  str (rev (drop_space (rev (drop_space (chars s))))).

Fixpoint is_prefix (p l : list ascii) : bool :=
  match p, l with
  | [], _ => true
  | a :: p', b :: l' => char_eqb a b && is_prefix p' l'
  | _ :: _, [] => false
  end.

Definition startsWith (s p : string) : bool := is_prefix (chars p) (chars s).
Definition endsWith (s p : string) : bool :=
  is_prefix (rev (chars p)) (rev (chars s)).

(** [hay.indexOf(needle, from)]: the first index [>= from] at which
    [needle] occurs.  For an empty needle the answer is
    [min from (length hay)], as in ECMAScript. *)
Fixpoint index_from (needle : list ascii) (pos : nat) (l : list ascii)
  : option nat :=
  if is_prefix needle l then Some pos
  else match l with
       | [] => None
       | _ :: l' => index_from needle (S pos) l'
       end.

Definition indexOf (hay needle : string) (from : nat) : option nat :=
  let h := chars hay in
  let from' := Nat.min from (List.length h) in
  index_from (chars needle) from' (List.skipn from' h).

Definition includes (hay needle : string) : bool :=
  match indexOf hay needle 0 with Some _ => true | None => false end.

(** [s.substring(a, b)]: the arguments are swapped when [a > b], and
    indices past the end are clamped. *)
Definition substring (s : string) (a b : nat) : string :=
  let lo := Nat.min a b in
  let hi := Nat.max a b in
  str (List.firstn (hi - lo) (List.skipn lo (chars s))).
Definition substring_from (s : string) (a : nat) : string :=
  str (List.skipn a (chars s)).

(** [s[i]] *)
Definition charAt (s : string) (i : nat) : option ascii :=
  nth_error (chars s) i.

(** [s.split(sep)] for a one-character separator. *)
Fixpoint split_chars (sep : ascii) (cur : list ascii) (l : list ascii)
  : list (list ascii) :=
  match l with
  | [] => [rev cur]
  | c :: l' =>
      if char_eqb c sep then rev cur :: split_chars sep [] l'
      else split_chars sep (c :: cur) l'
  end.

Definition split (s : string) (sep : ascii) : list string :=
  map str (split_chars sep [] (chars s)).

Definition truthy (s : string) : bool := negb (String.eqb s "").

(** A string field that may be [null]/[undefined]: [x || y]. *)
Definition or_else (x y : option string) : option string :=
  match x with
  | Some s => if truthy s then x else y
  | None => y
  end.

(** ** [parseInt(s, 10)] *)

Fixpoint digits_value (acc : Z) (l : list ascii) : Z :=
  match l with
  | c :: l' =>
      if is_digit c then digits_value (10 * acc + Z.of_nat (code c - 48)) l'
      else acc
  | [] => acc
  end.

(** White space is skipped, an optional sign is read, then the longest run
    of decimal digits; [None] is [NaN]. *)
Definition parseInt (s : string) : option Z :=
  match drop_space (chars s) with
  | [] => None
  | c :: l =>
      let signed (sg : Z) (ds : list ascii) :=
        match ds with
        | d :: _ => if is_digit d then Some (sg * digits_value 0 ds) else None
        | [] => None
        end in
      if Nat.eqb (code c) 45 then signed (-1) l
      else if Nat.eqb (code c) 43 then signed 1 l
      else signed 1 (c :: l)
  end.

(** [String(n)] for an integer. *)
Fixpoint nat_digits (fuel n : nat) (acc : list ascii) : list ascii :=
  match fuel with
  | O => acc
  | S fuel' =>
      let d := ascii_of_nat (48 + Nat.modulo n 10) in
      if Nat.ltb n 10 then d :: acc
      else nat_digits fuel' (Nat.div n 10) (d :: acc)
  end.

Definition string_of_nat (n : nat) : string := str (nat_digits (S n) n []).

Definition string_of_Z (z : Z) : string :=
  if z <? 0 then "-" +:+ string_of_nat (Z.to_nat (- z))
  else string_of_nat (Z.to_nat z).

End Js.

(* ===================================================================== *)
(** ** Regular expressions *)
(* ===================================================================== *)

(** The fragment of ECMAScript regular expressions used by the module.
    The [i] flag is folded into the character predicates of a pattern
    ([liti], [seti]); the [s] flag into the choice between [dot] and
    [any]; [RStart]/[REnd] are [^] and [$] without the [m] flag and
    [RLineStart]/[RLineEnd] are the same anchors with it. *)
Module Re.

Inductive regex : Type :=
| REmpty
| RSet (p : ascii -> bool)
| RCat (r1 r2 : regex)
| RAlt (r1 r2 : regex)
| RStar (greedy : bool) (r : regex)
| RCap (n : nat) (r : regex)
| RStart
| REnd
| RLineStart
| RLineEnd
| RLook (positive : bool) (r : regex)
| RBack (ci : bool) (n : nat)
| RWordBoundary.

(** The state of a match attempt: the index of the next code unit, the
    code unit before it, the rest of the input and the captures closed so
    far (most recent first). *)
Record mstate : Type := MState {
  ms_pos : nat;
  ms_prev : option ascii;
  ms_rest : list ascii;
  ms_caps : list (nat * (nat * nat))
}.

Definition capture (caps : list (nat * (nat * nat))) (n : nat)
  : option (nat * nat) :=
  snd <$> List.find (fun c => Nat.eqb (fst c) n) caps.

Definition slice (inp : list ascii) (a b : nat) : list ascii :=
  List.firstn (b - a) (List.skipn a inp).

(** Consume the literal [w] from the state, comparing with [eqb]. *)
Fixpoint eat (eqb : ascii -> ascii -> bool) (w : list ascii) (s : mstate)
  : option mstate :=
  match w with
  | [] => Some s
  | a :: w' =>
      match ms_rest s with
      | b :: rest =>
          if eqb a b
          then eat eqb w' (MState (S (ms_pos s)) (Some b) rest (ms_caps s))
          else None
      | [] => None
      end
  end.

Definition word_before (s : mstate) : bool :=
  match ms_prev s with Some c => Js.is_word c | None => false end.
Definition word_after (s : mstate) : bool :=
  match ms_rest s with c :: _ => Js.is_word c | [] => false end.

(** The backtracking matcher, in continuation-passing style: [k] is what
    remains to be matched after [r].  An iteration of a star that consumes
    nothing is refused, so that [length rest] iterations always suffice. *)
Fixpoint mtch (inp : list ascii) (r : regex) (s : mstate)
  (k : mstate -> option mstate) {struct r} : option mstate :=
  match r with
  | REmpty => k s
  | RSet p =>
      match ms_rest s with
      | c :: rest =>
          if p c then k (MState (S (ms_pos s)) (Some c) rest (ms_caps s))
          else None
      | [] => None
      end
  | RCat r1 r2 => mtch inp r1 s (fun s1 => mtch inp r2 s1 k)
  | RAlt r1 r2 =>
      match mtch inp r1 s k with
      | Some s' => Some s'
      | None => mtch inp r2 s k
      end
  | RStar greedy r1 =>
      (fix loop (n : nat) (s0 : mstate) {struct n} : option mstate :=
         match n with
         | O => k s0
         | S n' =>
             let again :=
               mtch inp r1 s0
                 (fun s1 => if Nat.eqb (ms_pos s1) (ms_pos s0) then None
                            else loop n' s1) in
             if greedy
             then match again with Some s' => Some s' | None => k s0 end
             else match k s0 with Some s' => Some s' | None => again end
         end) (S (List.length (ms_rest s))) s
  | RCap n r1 =>
      mtch inp r1 s
        (fun s1 => k (MState (ms_pos s1) (ms_prev s1) (ms_rest s1)
                        ((n, (ms_pos s, ms_pos s1)) :: ms_caps s1)))
  | RStart => if Nat.eqb (ms_pos s) 0 then k s else None
  | REnd => match ms_rest s with [] => k s | _ :: _ => None end
  | RLineStart =>
      match ms_prev s with
      | None => k s
      | Some c => if Js.is_newline c then k s else None
      end
  | RLineEnd =>
      match ms_rest s with
      | [] => k s
      | c :: _ => if Js.is_newline c then k s else None
      end
  | RLook positive r1 =>
      match mtch inp r1 s Some with
      | Some s1 =>
          if positive
          then k (MState (ms_pos s) (ms_prev s) (ms_rest s) (ms_caps s1))
          else None
      | None => if positive then None else k s
      end
  | RBack ci n =>
      match capture (ms_caps s) n with
      | Some (a, b) =>
          match eat (if ci then Js.char_eqb_ci else Js.char_eqb)
                  (slice inp a b) s with
          | Some s1 => k s1
          | None => None
          end
      | None => k s
      end
  | RWordBoundary =>
      if xorb (word_before s) (word_after s) then k s else None
  end.

(** The result of [RegExp.prototype.exec]: where the match starts and
    ends, and the captures. *)
Record found : Type := Found {
  f_start : nat;
  f_end : nat;
  f_caps : list (nat * (nat * nat))
}.

(** Try every start position from the current one, left to right. *)
Fixpoint search (inp : list ascii) (r : regex) (pos : nat)
  (prev : option ascii) (rest : list ascii) : option found :=
  match mtch inp r (MState pos prev rest []) Some with
  | Some s' => Some (Found pos (ms_pos s') (ms_caps s'))
  | None =>
      match rest with
      | [] => None
      | c :: rest' => search inp r (S pos) (Some c) rest'
      end
  end.

Definition exec_from (r : regex) (inp : list ascii) (from : nat)
  : option found :=
  if Nat.ltb (List.length inp) from then None
  else search inp r from
         (match from with O => None | S p => nth_error inp p end)
         (List.skipn from inp).

Definition exec (r : regex) (s : string) : option found :=
  exec_from r (Js.chars s) 0.

(** [re.test(s)] *)
Definition test (r : regex) (s : string) : bool :=
  match exec r s with Some _ => true | None => false end.

(** [m[n]] for [m = s.match(re)]: [None] when the group took no part. *)
Definition group (s : string) (m : found) (n : nat) : option string :=
  match capture (f_caps m) n with
  | Some (a, b) => Some (Js.str (slice (Js.chars s) a b))
  | None => None
  end.

Definition matched (s : string) (m : found) : string :=
  Js.str (slice (Js.chars s) (f_start m) (f_end m)).

(** [s.match(re)?.[n]] *)
Definition match_group (r : regex) (s : string) (n : nat) : option string :=
  match exec r s with
  | Some m => group s m n
  | None => None
  end.

(** [s.replace(re, by)] without the [g] flag: the first match only. *)
Definition replace (r : regex) (s by_ : string) : string :=
  match exec r s with
  | Some m =>
      Js.str (List.firstn (f_start m) (Js.chars s) ++ Js.chars by_
              ++ List.skipn (f_end m) (Js.chars s))
  | None => s
  end.

(** All the matches of a [g] regular expression, left to right; after an
    empty match the search resumes one code unit further. *)
Fixpoint all_from (fuel : nat) (r : regex) (inp : list ascii) (from : nat)
  : list found :=
  match fuel with
  | O => []
  | S fuel' =>
      match exec_from r inp from with
      | Some m =>
          let next := if Nat.eqb (f_end m) (f_start m) then S (f_end m)
                      else f_end m in
          m :: all_from fuel' r inp next
      | None => []
      end
  end.

Definition exec_all (r : regex) (s : string) : list found :=
  all_from (S (String.length s)) r (Js.chars s) 0.

(** [s.replace(re, by)] with the [g] flag; [by_] computes the replacement
    of a match (a constant, [$1], or a callback). *)
Fixpoint splice (inp : list ascii) (pos : nat) (ms : list found)
  (by_ : found -> list ascii) : list ascii :=
  match ms with
  | [] => List.skipn pos inp
  | m :: ms' =>
      slice inp pos (f_start m) ++ by_ m ++ splice inp (f_end m) ms' by_
  end.

Definition replace_all_by (r : regex) (s : string) (by_ : found -> string)
  : string :=
  Js.str (splice (Js.chars s) 0 (exec_all r s) (fun m => Js.chars (by_ m))).

Definition replace_all (r : regex) (s by_ : string) : string :=
  replace_all_by r s (fun _ => by_).

(** The replacement [$n]. *)
Definition dollar (s : string) (n : nat) (m : found) : string :=
  match group s m n with
  | Some g => g
  | None => ""
  end.

(** *** Pattern combinators *)

Fixpoint cat (rs : list regex) : regex :=
  match rs with
  | [] => REmpty
  | [r] => r
  | r :: rs' => RCat r (cat rs')
  end.

Fixpoint alt (rs : list regex) : regex :=
  match rs with
  | [] => RSet (fun _ => false)
  | [r] => r
  | r :: rs' => RAlt r (alt rs')
  end.

Definition chr (c : ascii) : regex := RSet (Js.char_eqb c).
Definition chri (c : ascii) : regex := RSet (Js.char_eqb_ci c).
Definition lit (w : string) : regex := cat (map chr (Js.chars w)).
Definition liti (w : string) : regex := cat (map chri (Js.chars w)).

(** [[abc]] and [[^abc]] *)
Definition one_of (w : string) : regex :=
  RSet (fun c => existsb (Js.char_eqb c) (Js.chars w)).
Definition none_of (w : string) : regex :=
  RSet (fun c => negb (existsb (Js.char_eqb c) (Js.chars w))).

Definition space : regex := RSet Js.is_space.
Definition digit : regex := RSet Js.is_digit.
(** [.] without and with the [s] flag *)
Definition dot : regex := RSet (fun c => negb (Js.is_newline c)).
Definition any : regex := RSet (fun _ => true).

Definition star (r : regex) : regex := RStar true r.
Definition lazy_star (r : regex) : regex := RStar false r.
Definition plus (r : regex) : regex := RCat r (RStar true r).
Definition lazy_plus (r : regex) : regex := RCat r (RStar false r).
Definition opt (r : regex) : regex := RAlt r REmpty.

End Re.

(* ===================================================================== *)
(** ** [new RegExp(source, flags)] *)
(* ===================================================================== *)

(** Patterns that the module builds at run time from a string.  The
    source is read by the grammar of ECMAScript 2023 without the [u] and
    [v] flags, with the additions of its Annex B, and matched as its
    section 22.2.2 describes; a source that the grammar refuses makes the
    constructor throw a [SyntaxError]. *)
Module RegExp.

Inductive ClassEscape : Type := Digit | Space | Word.

(** A member of a character class: the code units from [lo] to [hi], or
    one of [\d \s \w] and their complements. *)
Inductive ClassItem : Type :=
| Range (lo hi : N)
| Escaped (invert : bool) (e : ClassEscape).

Inductive Node : Type :=
| Empty
| Char (c : N)
| Dot
| Class (invert : bool) (items : list ClassItem)
| Seq (a b : Node)
| Alt (a b : Node)
| Repeat (min : nat) (max : option nat) (greedy : bool)
    (parenIndex parenCount : nat) (r : Node)
| Group (n : nat) (r : Node)
| BackReference (n : nat)
| NamedReference (name : list N)
| AssertStart
| AssertEnd
| WordBoundary (invert : bool)
| Look (behind invert : bool) (r : Node).

(** *** Matching *)

Record State : Type := mkState {
  endIndex : nat;
  captures : list (nat * (nat * nat))
}.

Definition capture (caps : list (nat * (nat * nat))) (n : nat)
  : option (nat * nat) :=
  snd <$> List.find (fun c => Nat.eqb (fst c) n) caps.

(** The captures of the groups [parenIndex + 1 .. parenIndex + parenCount]
    are forgotten. *)
Definition resetCaptures (parenIndex parenCount : nat)
  (caps : list (nat * (nat * nat))) : list (nat * (nat * nat)) :=
  List.filter
    (fun c => negb (Nat.ltb parenIndex (fst c)
                    && Nat.leb (fst c) (parenIndex + parenCount)))
    caps.

Definition between (lo hi c : N) : bool := N.leb lo c && N.leb c hi.

(** [Canonicalize(ch)] without the [u] flag: the upper case of a letter
    under the [i] flag. *)
Definition canonicalize (ignoreCase : bool) (c : N) : N :=
  if ignoreCase && between 97 122 c then (c - 32)%N else c.

Definition isDigit (c : N) : bool := between 48 57 c.
Definition isWordChar (c : N) : bool :=
  between 97 122 c || between 65 90 c || between 48 57 c || N.eqb c 95.
Definition isLineTerminator (c : N) : bool :=
  N.eqb c 10 || N.eqb c 13 || N.eqb c 8232 || N.eqb c 8233.
Definition isWhiteSpace (c : N) : bool :=
  between 9 13 c || N.eqb c 32 || N.eqb c 160 || N.eqb c 5760
  || between 8192 8202 c || N.eqb c 8232 || N.eqb c 8233
  || N.eqb c 8239 || N.eqb c 8287 || N.eqb c 12288 || N.eqb c 65279.

Definition escapeTest (e : ClassEscape) (c : N) : bool :=
  match e with
  | Digit => isDigit c
  | Space => isWhiteSpace c
  | Word => isWordChar c
  end.

(** The other case of a letter. *)
Definition otherCase (c : N) : N :=
  if between 97 122 c then (c - 32)%N
  else if between 65 90 c then (c + 32)%N
  else c.

(** Whether the class item has a member with the canonical form of [c]. *)
Definition itemTest (ignoreCase : bool) (c : N) (item : ClassItem) : bool :=
  match item with
  | Range lo hi =>
      between lo hi c || (ignoreCase && between lo hi (otherCase c))
  | Escaped invert e => xorb invert (escapeTest e c)
  end.

Definition classTest (ignoreCase invert : bool) (items : list ClassItem)
  (c : N) : bool :=
  xorb invert (existsb (itemTest ignoreCase c) items).

Definition codeAt (input : list ascii) (i : nat) : option N :=
  N_of_ascii <$> nth_error input i.

(** [IsWordChar(e)] *)
Definition wordAt (input : list ascii) (i : option nat) : bool :=
  match i with
  | Some i => match codeAt input i with
              | Some c => isWordChar c
              | None => false
              end
  | None => false
  end.

(** [CharacterSetMatcher]: one code unit, read in the direction of the
    match. *)
Definition characterSetMatcher (input : list ascii) (backward : bool)
  (accepts : N -> bool) (x : State) (c : State -> option State)
  : option State :=
  let e := endIndex x in
  if backward then
    match e with
    | O => None
    | S f =>
        match codeAt input f with
        | Some ch => if accepts ch then c (mkState f (captures x)) else None
        | None => None
        end
    end
  else
    match codeAt input e with
    | Some ch => if accepts ch then c (mkState (S e) (captures x)) else None
    | None => None
    end.

(** [BackreferenceMatcher]: the captured text once more. *)
Definition backreferenceMatcher (input : list ascii) (ignoreCase backward : bool)
  (n : nat) (x : State) (c : State -> option State) : option State :=
  match capture (captures x) n with
  | None => c x
  | Some (s, e') =>
      let e := endIndex x in
      let len := (e' - s)%nat in
      if backward && Nat.ltb e len then None
      else
        let f := if backward then (e - len)%nat else (e + len)%nat in
        if Nat.ltb (List.length input) f then None
        else
          let g := Nat.min e f in
          if forallb
               (fun i =>
                  match codeAt input (s + i), codeAt input (g + i) with
                  | Some a, Some b =>
                      N.eqb (canonicalize ignoreCase a)
                        (canonicalize ignoreCase b)
                  | _, _ => false
                  end)
               (seq 0 len)
          then c (mkState f (captures x))
          else None
  end.

(** The matcher of a node, in continuation-passing style.  In
    [RepeatMatcher] an iteration that is not required and consumes nothing
    is refused, so that the iterations are at most [min] and the length of
    the input. *)
Fixpoint matcher (input : list ascii) (ignoreCase backward : bool)
  (r : Node) (x : State) (c : State -> option State) {struct r}
  : option State :=
  match r with
  | Empty => c x
  | Char ch =>
      characterSetMatcher input backward
        (fun cc => N.eqb (canonicalize ignoreCase ch)
                      (canonicalize ignoreCase cc)) x c
  | Dot =>
      characterSetMatcher input backward
        (fun cc => negb (isLineTerminator cc)) x c
  | Class invert items =>
      characterSetMatcher input backward (classTest ignoreCase invert items)
        x c
  | Seq a b =>
      if backward
      then matcher input ignoreCase backward b x
             (fun y => matcher input ignoreCase backward a y c)
      else matcher input ignoreCase backward a x
             (fun y => matcher input ignoreCase backward b y c)
  | Alt a b =>
      match matcher input ignoreCase backward a x c with
      | Some z => Some z
      | None => matcher input ignoreCase backward b x c
      end
  | Repeat min max greedy parenIndex parenCount r1 =>
      (fix repeatMatcher (fuel min : nat) (max : option nat) (x : State)
         {struct fuel} : option State :=
         match fuel with
         | O => None
         | S fuel' =>
             if bool_decide (max = Some O) then c x
             else
               let d (y : State) : option State :=
                 if Nat.eqb min 0 && Nat.eqb (endIndex y) (endIndex x)
                 then None
                 else repeatMatcher fuel' (Nat.pred min) (Nat.pred <$> max) y in
               let xr :=
                 mkState (endIndex x)
                   (resetCaptures parenIndex parenCount (captures x)) in
               if negb (Nat.eqb min 0)
               then matcher input ignoreCase backward r1 xr d
               else if greedy then
                 match matcher input ignoreCase backward r1 xr d with
                 | Some z => Some z
                 | None => c x
                 end
               else
                 match c x with
                 | Some z => Some z
                 | None => matcher input ignoreCase backward r1 xr d
                 end
         end) (min + List.length input + 2)%nat min max x
  | Group n r1 =>
      matcher input ignoreCase backward r1 x
        (fun y =>
           let range := if backward then (endIndex y, endIndex x)
                        else (endIndex x, endIndex y) in
           c (mkState (endIndex y) ((n, range) :: captures y)))
  | BackReference n => backreferenceMatcher input ignoreCase backward n x c
  | NamedReference _ => c x
  | AssertStart => if Nat.eqb (endIndex x) 0 then c x else None
  | AssertEnd =>
      if Nat.eqb (endIndex x) (List.length input) then c x else None
  | WordBoundary invert =>
      let e := endIndex x in
      let a := wordAt input (match e with O => None | S f => Some f end) in
      let b := wordAt input (Some e) in
      if xorb invert (xorb a b) then c x else None
  | Look behind invert r1 =>
      match matcher input ignoreCase behind r1 x Some with
      | Some y =>
          if invert then None else c (mkState (endIndex x) (captures y))
      | None => if invert then c x else None
      end
  end.

(** *** Reading the source *)

Inductive Parsed (A : Type) : Type :=
| Ok (a : A)
| SyntaxError (reason : string).
Arguments Ok {A} a.
Arguments SyntaxError {A} reason.

Definition bind {A B : Type} (p : Parsed A) (f : A -> Parsed B) : Parsed B :=
  match p with
  | Ok a => f a
  | SyntaxError reason => SyntaxError reason
  end.

Definition code (c : ascii) : N := N_of_ascii c.
Definition among (c : ascii) (w : string) : bool :=
  existsb (Ascii.eqb c) (list_ascii_of_string w).

Definition hexValue (c : ascii) : option N :=
  let n := code c in
  if between 48 57 n then Some (n - 48)%N
  else if between 97 102 n then Some (n - 87)%N
  else if between 65 70 n then Some (n - 55)%N
  else None.

Definition octalValue (c : ascii) : option N :=
  let n := code c in
  if between 48 55 n then Some (n - 48)%N else None.

(** The decimal digits at the head of [l], their value and what follows;
    [None] when [l] does not start with a digit. *)
Fixpoint decimalDigits (acc : N) (l : list ascii) : N * list ascii :=
  match l with
  | c :: l' =>
      if isDigit (code c)
      then decimalDigits (10 * acc + (code c - 48))%N l'
      else (acc, l)
  | [] => (acc, l)
  end.

Definition decimal (l : list ascii) : option (N * list ascii) :=
  match l with
  | c :: _ => if isDigit (code c) then Some (decimalDigits 0%N l) else None
  | [] => None
  end.

(** A quantifier in braces, after its [{]: [n}], [n,}] or [n,m}]. *)
Definition bracedQuantifier (l : list ascii)
  : option (N * option N * list ascii) :=
  match decimal l with
  | Some (min, rest) =>
      match rest with
      | "}"%char :: rest' => Some (min, Some min, rest')
      | ","%char :: "}"%char :: rest' => Some (min, None, rest')
      | ","%char :: rest' =>
          match decimal rest' with
          | Some (max, "}"%char :: rest'') => Some (min, Some max, rest'')
          | _ => None
          end
      | _ => None
      end
  | None => None
  end.

(** What a backslash and the characters after it stand for. *)
Inductive Escape : Type :=
| EChar (c : N)
| EClass (invert : bool) (e : ClassEscape)
| EBackReference (n : nat)
| ENamedReference (name : list N)
| EWordBoundary (invert : bool).

(** [LegacyOctalEscapeSequence] and the identity escapes [\8] and [\9]. *)
Definition legacyOctal (l : list ascii) : N * list ascii :=
  match l with
  | d1 :: rest1 =>
      match octalValue d1 with
      | Some v1 =>
          match rest1 with
          | d2 :: rest2 =>
              match octalValue d2 with
              | Some v2 =>
                  match rest2 with
                  | d3 :: rest3 =>
                      match octalValue d3 with
                      | Some v3 =>
                          if N.leb v1 3
                          then ((64 * v1 + 8 * v2 + v3)%N, rest3)
                          else ((8 * v1 + v2)%N, rest2)
                      | None => ((8 * v1 + v2)%N, rest2)
                      end
                  | [] => ((8 * v1 + v2)%N, rest2)
                  end
              | None => (v1, rest1)
              end
          | [] => (v1, rest1)
          end
      | None => (code d1, rest1)
      end
  | [] => (0%N, [])
  end.

Definition isIdentifierStart (c : N) : bool :=
  between 97 122 c || between 65 90 c || N.eqb c 36 || N.eqb c 95
  || N.leb 128 c.
Definition isIdentifierPart (c : N) : bool :=
  isIdentifierStart c || between 48 57 c.

(** Four hexadecimal digits. *)
Definition hex4 (l : list ascii) : option (N * list ascii) :=
  match l with
  | a :: b :: c :: d :: rest =>
      match hexValue a, hexValue b, hexValue c, hexValue d with
      | Some a, Some b, Some c, Some d =>
          Some ((4096 * a + 256 * b + 16 * c + d)%N, rest)
      | _, _, _, _ => None
      end
  | _ => None
  end.

(** The hexadecimal digits at the head of [l], their value and what
    follows. *)
Fixpoint hexDigits (acc : N) (l : list ascii) : N * list ascii :=
  match l with
  | c :: l' =>
      match hexValue c with
      | Some v => hexDigits (16 * acc + v)%N l'
      | None => (acc, l)
      end
  | [] => (acc, l)
  end.

(** A group name after its [<], up to the closing [>]. *)
Fixpoint readName (fuel : nat) (first : bool) (acc : list N) (l : list ascii)
  : option (list N * list ascii) :=
  match fuel with
  | O => None
  | S fuel' =>
      match l with
      | [] => None
      | c :: rest =>
          let accepted (v : N) :=
            if first then isIdentifierStart v else isIdentifierPart v in
          if Ascii.eqb c ">" then
            if first then None else Some (rev acc, rest)
          else if Ascii.eqb c "\" then
            match rest with
            | "u"%char :: "{"%char :: rest' =>
                match hexDigits 0%N rest' with
                | (v, "}"%char :: rest'') =>
                    if negb (Ascii.eqb (hd "}"%char rest') "}")
                       && N.leb v 1114111 && accepted v
                    then readName fuel' false (v :: acc) rest''
                    else None
                | _ => None
                end
            | "u"%char :: rest' =>
                match hex4 rest' with
                | Some (v, rest'') =>
                    if accepted v then readName fuel' false (v :: acc) rest''
                    else None
                | None => None
                end
            | _ => None
            end
          else if accepted (code c)
          then readName fuel' false (code c :: acc) rest
          else None
      end
  end.

Definition groupName (l : list ascii) : option (list N * list ascii) :=
  readName (List.length l) true [] l.

(** The escape after a backslash; [l] is what follows the backslash.
    [None] in the result stands for a backslash that is taken literally
    before a [c] that is read again. *)
Definition escape (inClass : bool) (groups : nat) (named : bool)
  (l : list ascii) : Parsed (option Escape * list ascii) :=
  match l with
  | [] => SyntaxError "\ at end of pattern"
  | c :: rest =>
      let char (n : N) := Ok (Some (EChar n), rest) in
      if Ascii.eqb c "b"
      then Ok (Some (if inClass then EChar 8%N else EWordBoundary false), rest)
      else if Ascii.eqb c "B"
      then Ok (Some (if inClass then EChar 66%N else EWordBoundary true), rest)
      else if Ascii.eqb c "d" then Ok (Some (EClass false Digit), rest)
      else if Ascii.eqb c "D" then Ok (Some (EClass true Digit), rest)
      else if Ascii.eqb c "s" then Ok (Some (EClass false Space), rest)
      else if Ascii.eqb c "S" then Ok (Some (EClass true Space), rest)
      else if Ascii.eqb c "w" then Ok (Some (EClass false Word), rest)
      else if Ascii.eqb c "W" then Ok (Some (EClass true Word), rest)
      else if Ascii.eqb c "f" then char 12%N
      else if Ascii.eqb c "n" then char 10%N
      else if Ascii.eqb c "r" then char 13%N
      else if Ascii.eqb c "t" then char 9%N
      else if Ascii.eqb c "v" then char 11%N
      else if Ascii.eqb c "c" then
        match rest with
        | x :: rest' =>
            let n := code x in
            if between 97 122 n || between 65 90 n
               || (inClass && (isDigit n || N.eqb n 95))
            then Ok (Some (EChar (n mod 32)%N), rest')
            else Ok (None, l)
        | [] => Ok (None, l)
        end
      else if isDigit (code c) then
        if inClass || Ascii.eqb c "0" then
          let '(v, rest') := legacyOctal l in Ok (Some (EChar v), rest')
        else
          let '(n, rest') := decimalDigits 0%N l in
          if N.leb n (N.of_nat groups)
          then Ok (Some (EBackReference (N.to_nat n)), rest')
          else
            let '(v, rest'') := legacyOctal l in Ok (Some (EChar v), rest'')
      else if Ascii.eqb c "x" then
        match rest with
        | a :: b :: rest' =>
            match hexValue a, hexValue b with
            | Some a, Some b => Ok (Some (EChar (16 * a + b)%N), rest')
            | _, _ => char (code c)
            end
        | _ => char (code c)
        end
      else if Ascii.eqb c "u" then
        match hex4 rest with
        | Some (v, rest') => Ok (Some (EChar v), rest')
        | None => char (code c)
        end
      else if Ascii.eqb c "k" then
        if named then
          if inClass then SyntaxError "Invalid escape"
          else
            match rest with
            | "<"%char :: rest' =>
                match groupName rest' with
                | Some (name, rest'') => Ok (Some (ENamedReference name), rest'')
                | None => SyntaxError "Invalid named reference"
                end
            | _ => SyntaxError "Invalid named reference"
            end
        else char (code c)
      else char (code c)
  end.

(** One atom of a class, after which a range may start. *)
Definition classAtom (groups : nat) (named : bool) (l : list ascii)
  : Parsed (ClassItem * list ascii) :=
  match l with
  | [] => SyntaxError "Unterminated character class"
  | c :: rest =>
      if Ascii.eqb c "\" then
        bind (escape true groups named rest)
          (fun '(e, rest') =>
             match e with
             | Some (EChar n) => Ok (Range n n, rest')
             | Some (EClass invert e) => Ok (Escaped invert e, rest')
             | Some _ => SyntaxError "Invalid escape"
             | None => Ok (Range 92%N 92%N, rest')
             end)
      else Ok (Range (code c) (code c), rest)
  end.

(** The members of a class up to its closing bracket. *)
Fixpoint classRanges (fuel : nat) (groups : nat) (named : bool)
  (acc : list ClassItem) (l : list ascii)
  : Parsed (list ClassItem * list ascii) :=
  match fuel with
  | O => SyntaxError "Unterminated character class"
  | S fuel' =>
      match l with
      | [] => SyntaxError "Unterminated character class"
      | "]"%char :: rest => Ok (rev acc, rest)
      | _ =>
          bind (classAtom groups named l)
            (fun '(a, rest) =>
               match rest with
               | "-"%char :: (c :: _) as rest1 =>
                   if Ascii.eqb c "]"
                   then classRanges fuel' groups named (a :: acc) rest
                   else
                     bind (classAtom groups named rest1)
                       (fun '(b, rest2) =>
                          match a, b with
                          | Range lo lo', Range hi hi' =>
                              if N.ltb hi lo'
                              then SyntaxError
                                     "Range out of order in character class"
                              else classRanges fuel' groups named
                                     (Range lo' hi :: acc) rest2
                          | _, _ =>
                              classRanges fuel' groups named
                                (b :: Range 45%N 45%N :: a :: acc) rest2
                          end)
               | _ => classRanges fuel' groups named (a :: acc) rest
               end)
      end
  end.

(** The groups opened so far and the names given to them. *)
Record Groups : Type := mkGroups {
  opened : nat;
  names : list (list N * nat)
}.

Definition knownName (names : list (list N * nat)) (name : list N)
  : option nat :=
  snd <$> List.find (fun p => bool_decide (fst p = name)) names.

(** The quantifier that follows an atom, if any. *)
Definition quantifier (l : list ascii)
  : Parsed (option (nat * option nat * bool) * list ascii) :=
  let lazy (min : N) (max : option N) (rest : list ascii) :=
    let min := N.to_nat min in
    let max := N.to_nat <$> max in
    match rest with
    | "?"%char :: rest' => Ok (Some (min, max, false), rest')
    | _ => Ok (Some (min, max, true), rest)
    end in
  match l with
  | "*"%char :: rest => lazy 0%N None rest
  | "+"%char :: rest => lazy 1%N None rest
  | "?"%char :: rest => lazy 0%N (Some 1%N) rest
  | "{"%char :: rest =>
      match bracedQuantifier rest with
      | Some (min, max, rest') =>
          match max with
          | Some m =>
              if N.ltb m min
              then SyntaxError "numbers out of order in {} quantifier"
              else lazy min max rest'
          | None => lazy min max rest'
          end
      | None => Ok (None, l)
      end
  | _ => Ok (None, l)
  end.

(** An atom with the quantifier that follows it. *)
Definition quantified (before : nat) (atom : Node) (rest : list ascii)
  (gs : Groups) : Parsed (Node * list ascii * Groups) :=
  bind (quantifier rest)
    (fun '(q, rest') =>
       match q with
       | Some (min, max, greedy) =>
           Ok (Repeat min max greedy before (opened gs - before) atom,
               rest', gs)
       | None => Ok (atom, rest', gs)
       end).

Definition closeGroup {A : Type} (rest : list ascii)
  (f : list ascii -> Parsed A) : Parsed A :=
  match rest with
  | ")"%char :: rest' => f rest'
  | _ => SyntaxError "Unterminated group"
  end.

(** [Disjunction], [Alternative] and [Term].  [groups] is the number of
    capturing groups of the whole source and [named] whether one of them
    has a name; the fuel is never used up. *)
Fixpoint disjunction (fuel : nat) (groups : nat) (named : bool)
  (l : list ascii) (gs : Groups) {struct fuel}
  : Parsed (Node * list ascii * Groups) :=
  match fuel with
  | O => SyntaxError "Regular expression too large"
  | S fuel' =>
      bind (alternative fuel' groups named l gs)
        (fun '(a, rest, gs) =>
           match rest with
           | "|"%char :: rest' =>
               bind (disjunction fuel' groups named rest' gs)
                 (fun '(b, rest'', gs) => Ok (Alt a b, rest'', gs))
           | _ => Ok (a, rest, gs)
           end)
  end
with alternative (fuel : nat) (groups : nat) (named : bool)
  (l : list ascii) (gs : Groups) {struct fuel}
  : Parsed (Node * list ascii * Groups) :=
  match fuel with
  | O => SyntaxError "Regular expression too large"
  | S fuel' =>
      match l with
      | [] => Ok (Empty, l, gs)
      | c :: _ =>
          if among c "|)" then Ok (Empty, l, gs)
          else
            bind (term fuel' groups named l gs)
              (fun '(t, rest, gs) =>
                 bind (alternative fuel' groups named rest gs)
                   (fun '(more, rest', gs) => Ok (Seq t more, rest', gs)))
      end
  end
with term (fuel : nat) (groups : nat) (named : bool)
  (l : list ascii) (gs : Groups) {struct fuel}
  : Parsed (Node * list ascii * Groups) :=
  match fuel with
  | O => SyntaxError "Regular expression too large"
  | S fuel' =>
      let before := opened gs in
      match l with
      | [] => Ok (Empty, l, gs)
      | c :: rest =>
          if Ascii.eqb c "^" then Ok (AssertStart, rest, gs)
          else if Ascii.eqb c "$" then Ok (AssertEnd, rest, gs)
          else if among c "*+?" then SyntaxError "Nothing to repeat"
          else if Ascii.eqb c "{" then
            match bracedQuantifier rest with
            | Some _ => SyntaxError "Nothing to repeat"
            | None => quantified before (Char (code c)) rest gs
            end
          else if Ascii.eqb c "." then quantified before Dot rest gs
          else if Ascii.eqb c "[" then
            let '(invert, rest) :=
              match rest with
              | "^"%char :: rest' => (true, rest')
              | _ => (false, rest)
              end in
            bind (classRanges (S (List.length rest)) groups named [] rest)
              (fun '(items, rest') =>
                 quantified before (Class invert items) rest' gs)
          else if Ascii.eqb c "\" then
            bind (escape false groups named rest)
              (fun '(e, rest') =>
                 match e with
                 | Some (EChar n) => quantified before (Char n) rest' gs
                 | Some (EClass invert e) =>
                     quantified before (Class false [Escaped invert e]) rest' gs
                 | Some (EBackReference n) =>
                     quantified before (BackReference n) rest' gs
                 | Some (ENamedReference name) =>
                     quantified before (NamedReference name) rest' gs
                 | Some (EWordBoundary invert) =>
                     Ok (WordBoundary invert, rest', gs)
                 | None => quantified before (Char 92%N) rest' gs
                 end)
          else if Ascii.eqb c "(" then
            let inside (rest : list ascii) (gs : Groups)
              (f : Node -> list ascii -> Groups
                   -> Parsed (Node * list ascii * Groups)) :=
              bind (disjunction fuel' groups named rest gs)
                (fun '(r, rest', gs) =>
                   closeGroup rest' (fun rest'' => f r rest'' gs)) in
            let capturing (name : option (list N)) (rest : list ascii) :=
              let n := S before in
              let gs :=
                mkGroups n
                  (match name with
                   | Some name => names gs ++ [(name, n)]
                   | None => names gs
                   end) in
              inside rest gs
                (fun r rest' gs => quantified before (Group n r) rest' gs) in
            match rest with
            | "?"%char :: ":"%char :: rest' =>
                inside rest' gs (fun r rest'' gs => quantified before r rest'' gs)
            | "?"%char :: "="%char :: rest' =>
                inside rest' gs
                  (fun r rest'' gs =>
                     quantified before (Look false false r) rest'' gs)
            | "?"%char :: "!"%char :: rest' =>
                inside rest' gs
                  (fun r rest'' gs =>
                     quantified before (Look false true r) rest'' gs)
            | "?"%char :: "<"%char :: "="%char :: rest' =>
                inside rest' gs
                  (fun r rest'' gs => Ok (Look true false r, rest'', gs))
            | "?"%char :: "<"%char :: "!"%char :: rest' =>
                inside rest' gs
                  (fun r rest'' gs => Ok (Look true true r, rest'', gs))
            | "?"%char :: "<"%char :: rest' =>
                match groupName rest' with
                | Some (name, rest'') =>
                    match knownName (names gs) name with
                    | Some _ => SyntaxError "Duplicate capture group name"
                    | None => capturing (Some name) rest''
                    end
                | None => SyntaxError "Invalid capture group name"
                end
            | "?"%char :: _ => SyntaxError "Invalid group"
            | _ => capturing None rest
            end
          else quantified before (Char (code c)) rest gs
      end
  end.

(** The capturing groups of a source and whether one of them has a name:
    the parentheses outside classes and escapes that are not followed by
    [?], or are followed by [?<] and a name. *)
Fixpoint countGroups (escaped inClass : bool) (l : list ascii)
  : nat * bool :=
  match l with
  | [] => (O, false)
  | c :: rest =>
      if escaped then countGroups false inClass rest
      else if Ascii.eqb c "\" then countGroups true inClass rest
      else if inClass then countGroups false (negb (Ascii.eqb c "]")) rest
      else if Ascii.eqb c "[" then countGroups false true rest
      else if Ascii.eqb c "(" then
        let '(n, named) := countGroups false false rest in
        match rest with
        | "?"%char :: "<"%char :: d :: _ =>
            if among d "=!" then (n, named) else (S n, true)
        | "?"%char :: _ => (n, named)
        | _ => (S n, named)
        end
      else countGroups false false rest
  end.

(** The references by name become references by number. *)
Fixpoint resolve (names : list (list N * nat)) (r : Node) : Parsed Node :=
  match r with
  | NamedReference name =>
      match knownName names name with
      | Some n => Ok (BackReference n)
      | None => SyntaxError "Invalid named capture referenced"
      end
  | Seq a b =>
      bind (resolve names a)
        (fun a => bind (resolve names b) (fun b => Ok (Seq a b)))
  | Alt a b =>
      bind (resolve names a)
        (fun a => bind (resolve names b) (fun b => Ok (Alt a b)))
  | Repeat min max greedy parenIndex parenCount r1 =>
      bind (resolve names r1)
        (fun r1 => Ok (Repeat min max greedy parenIndex parenCount r1))
  | Group n r1 => bind (resolve names r1) (fun r1 => Ok (Group n r1))
  | Look behind invert r1 =>
      bind (resolve names r1) (fun r1 => Ok (Look behind invert r1))
  | _ => Ok r
  end.

(** A pattern that was accepted, with its flag [i]. *)
Record Pattern : Type := mkPattern {
  root : Node;
  ignoreCase : bool
}.

(** [new RegExp(source, flags)] for [flags] that are empty or ['i']. *)
Definition create (source : string) (ignoreCase : bool) : Parsed Pattern :=
  let l := list_ascii_of_string source in
  let '(groups, named) := countGroups false false l in
  bind (disjunction (4 * List.length l + 4) groups named l (mkGroups O []))
    (fun '(r, rest, gs) =>
       match rest with
       | [] =>
           bind (resolve (names gs) r)
             (fun r => Ok (mkPattern r ignoreCase))
       | _ => SyntaxError "Unmatched ')'"
       end).

(** [pattern.test(s)]: a match that starts at some index of [s]. *)
Definition test (pattern : Pattern) (s : string) : bool :=
  let input := list_ascii_of_string s in
  existsb
    (fun lastIndex =>
       match matcher input (ignoreCase pattern) false (root pattern)
               (mkState lastIndex []) Some with
       | Some _ => true
       | None => false
       end)
    (seq 0 (S (List.length input))).

End RegExp.

(* ===================================================================== *)
(** ** Cost vocabulary *)
(* ===================================================================== *)

(** A value that is a number, a string or [null] at run time: action costs
    ([1], ['R'], ['1 to 3'], [null]) and the raw [system.time.value] /
    [system.actions.value] fields they are read from. *)
Inductive jsval : Type :=
| JNull
| JNum (n : Z)
| JStr (s : string).

Definition jsval_eqb (a b : jsval) : bool :=
  match a, b with
  | JNull, JNull => true
  | JNum x, JNum y => Z.eqb x y
  | JStr x, JStr y => String.eqb x y
  | _, _ => false
  end.

(** [v === 'R'] *)
Definition is_str (v : jsval) (w : string) : bool := jsval_eqb v (JStr w).

(** [String(v)] *)
Definition to_string (v : jsval) : string :=
  match v with
  | JNull => "null"
  | JNum n => Js.string_of_Z n
  | JStr s => s
  end.

(** [parseInt(v, 10)] *)
Definition parseInt_val (v : jsval) : option Z := Js.parseInt (to_string v).

(** [typeof v === 'string' && v.includes(' to ')] *)
Definition is_range_string (v : jsval) : bool :=
  match v with
  | JStr s => Js.includes s " to "
  | _ => false
  end.

Module CostRe.
Import Re.

Definition one_of_i (w : string) : regex :=
  RSet (fun c => existsb (Js.char_eqb_ci c) (Js.chars w)).

(** [/^(?:(\d+)|one|two|three)\s*action[s]?$/] *)
Definition action_count : regex :=
  cat [RStart; alt [RCap 1 (plus digit); lit "one"; lit "two"; lit "three"];
       star space; lit "action"; opt (chr "s"); REnd].

(** [/^(\d+)\s+to\s+(\d+)(?:\s*action[s]?)?$/] *)
Definition action_range : regex :=
  cat [RStart; RCap 1 (plus digit); plus space; lit "to"; plus space;
       RCap 2 (plus digit);
       opt (cat [star space; lit "action"; opt (chr "s")]); REnd].

Definition activate : regex := liti "<strong>Activate</strong>".

(** [/<strong>Activate<\/strong>\s*<span[^>]+action-glyph[^>]+>([ADTRF])<\/span>/i] *)
Definition activation_glyph : regex :=
  cat [activate; star space; liti "<span"; plus (none_of ">");
       liti "action-glyph"; plus (none_of ">"); chr ">";
       RCap 1 (one_of_i "ADTRF"); liti "</span>"].

(** [/<strong>Activate<\/strong>\s*(\d+|one|two|three)\s*action/i] *)
Definition activation_text : regex :=
  cat [activate; star space;
       RCap 1 (alt [plus digit; liti "one"; liti "two"; liti "three"]);
       star space; liti "action"].

(** [/<strong>Activate<\/strong>\s*(Reaction|Free Action)/i] *)
Definition activation_other : regex :=
  cat [activate; star space;
       RCap 1 (alt [liti "Reaction"; liti "Free Action"])].

(** [/<strong>Activate<\/strong>(?:\s*<span[^>]*>[^<]+<\/span>)?\s*\(?(Interact)\)?/i] *)
Definition activation_interact : regex :=
  cat [activate;
       opt (cat [star space; liti "<span"; star (none_of ">"); chr ">";
                 plus (none_of "<"); liti "</span>"]);
       star space; opt (chr "("); RCap 1 (liti "Interact"); opt (chr ")")].

(** [/^(\d+)\s+to/] *)
Definition range_minimum : regex :=
  cat [RStart; RCap 1 (plus digit); plus space; lit "to"].

End CostRe.

(** [m?.[n]] read as a condition: the group took part and is not empty. *)
Definition group_truthy (g : option string) : option string :=
  match g with
  | Some s => if Js.truthy s then Some s else None
  | None => None
  end.

(** The helper [checkStringValue] of [parseActionCostValue]. *)
Definition checkStringValue (value : jsval) : jsval :=
  match value with
  | JNull => JNull
  | _ =>
    let lowerValue := Js.trim (Js.toLowerCase (to_string value)) in
    if String.eqb lowerValue "reaction" then JStr "R"
    else if String.eqb lowerValue "free" then JStr "F"
    else
      let fromAction :=
        match Re.exec CostRe.action_count lowerValue with
        | Some m =>
            match group_truthy (Re.group lowerValue m 1) with
            | Some d =>
                match Js.parseInt d with Some n => Some (JNum n) | None => None end
            | None =>
                if Js.startsWith lowerValue "one" then Some (JNum 1)
                else if Js.startsWith lowerValue "two" then Some (JNum 2)
                else if Js.startsWith lowerValue "three" then Some (JNum 3)
                else None
            end
        | None => None
        end in
      match fromAction with
      | Some c => c
      | None =>
        match Re.exec CostRe.action_range lowerValue with
        | Some m =>
            match group_truthy (Re.group lowerValue m 1),
                  group_truthy (Re.group lowerValue m 2) with
            | Some a, Some b =>
                match Js.parseInt a, Js.parseInt b with
                | Some min, Some max =>
                    if (1 <=? min) && (min <=? max) && (max <=? 3)
                    then JStr (Js.string_of_Z min +:+ " to " +:+ Js.string_of_Z max)
                    else JNull
                | _, _ => JNull
                end
            | _, _ => JNull
            end
        | None => JNull
        end
      end
  end.

(** Step 3 of [parseActionCostValue]: a field that is exactly the decimal
    form of a number from 0 to 3. *)
Definition numericField (value : jsval) : option Z :=
  match parseInt_val value with
  | Some n =>
      if String.eqb (Js.string_of_Z n) (Js.trim (to_string value))
         && (0 <=? n) && (n <=? 3)
      then Some n else None
  | None => None
  end.

(** Step 4 of [parseActionCostValue]: the description HTML. *)
Definition costFromDescription (descriptionHTML : string) : option jsval :=
  let glyph :=
    match group_truthy (Re.match_group CostRe.activation_glyph descriptionHTML 1) with
    | Some g =>
        let u := Js.toUpperCase g in
        if String.eqb u "A" then Some (JNum 1)
        else if String.eqb u "D" then Some (JNum 2)
        else if String.eqb u "T" then Some (JNum 3)
        else if String.eqb u "R" then Some (JStr "R")
        else if String.eqb u "F" then Some (JStr "F")
        else None
    | None => None
    end in
  let text :=
    match group_truthy (Re.match_group CostRe.activation_text descriptionHTML 1) with
    | Some g =>
        let t := Js.toLowerCase g in
        if String.eqb t "1" || String.eqb t "one" then Some (JNum 1)
        else if String.eqb t "2" || String.eqb t "two" then Some (JNum 2)
        else if String.eqb t "3" || String.eqb t "three" then Some (JNum 3)
        else None
    | None => None
    end in
  let other :=
    match group_truthy (Re.match_group CostRe.activation_other descriptionHTML 1) with
    | Some g =>
        let t := Js.toLowerCase g in
        if String.eqb t "reaction" then Some (JStr "R")
        else if String.eqb t "free action" then Some (JStr "F")
        else None
    | None => None
    end in
  let descLower := Js.toLowerCase descriptionHTML in
  match glyph with
  | Some c => Some c
  | None =>
  match text with
  | Some c => Some c
  | None =>
  match other with
  | Some c => Some c
  | None =>
    if Re.test CostRe.activation_interact descriptionHTML then Some (JNum 1)
    else if Js.includes descLower "<strong>frequency</strong>"
            && Js.includes descLower "<strong>trigger</strong>"
    then Some (JStr "R")
    else if Js.includes descLower "<strong>frequency</strong>"
            && (Js.includes descLower "free action"
                || Js.includes descLower "no action")
    then Some (JStr "F")
    else None
  end end end.

(** [parseActionCostValue(timeValue, actionsValue, descriptionHTML,
    actionTypeValue)]: [1], [2], [3], ['R'], ['F'], ['1 to 3'] or [null]. *)
Definition parseActionCostValue (timeValue actionsValue : jsval)
  (descriptionHTML actionTypeValue : option string) : jsval :=
  if bool_decide (actionTypeValue = Some "free") then JStr "F"
  else if bool_decide (actionTypeValue = Some "reaction") then JStr "R"
  else
  match checkStringValue timeValue with
  | (JNum _ | JStr _) as c => c
  | JNull =>
  match checkStringValue actionsValue with
  | (JNum _ | JStr _) as c => c
  | JNull =>
  match numericField timeValue with
  | Some n => JNum n
  | None =>
  match numericField actionsValue with
  | Some n => JNum n
  | None =>
    let fromDescription :=
      match descriptionHTML with
      | Some d => if Js.truthy d then costFromDescription d else None
      | None => None
      end in
    match fromDescription with
    | Some c => c
    | None =>
        match actionTypeValue with
        | Some a =>
            match Js.parseInt a with
            | Some n => if Js.truthy a && (1 <=? n) && (n <=? 3)
                        then JNum n else JNull
            | None => JNull
            end
        | None => JNull
        end
    end
  end end end end.

(** [formatParsedCostToDisplay(parsedCost)] *)
Definition formatParsedCostToDisplay (parsedCost : jsval) : string :=
  if is_str parsedCost "F" || jsval_eqb parsedCost (JNum 0) then "(F)"
  else if is_str parsedCost "R" then "(R)"
  else if jsval_eqb parsedCost (JNum 1) then "(1a)"
  else if jsval_eqb parsedCost (JNum 2) then "(2a)"
  else if jsval_eqb parsedCost (JNum 3) then "(3a)"
  else
    match parsedCost with
    | JStr s =>
        match Js.indexOf s " to " 0 with
        | Some i =>
            let rest := Js.substring_from s (i + 4) in
            if Js.includes rest " to " then "(?)"
            else "(" +:+ Js.substring s 0 i +:+ "-" +:+ rest +:+ "a)"
        | None => "(?)"
        end
    | _ => "(?)"
    end.

(* ===================================================================== *)
(** ** Cost arbiter *)
(* ===================================================================== *)

(** The object returned by [identifySuggestionTypeAndCost]. *)
Record IdentifyResult : Type := mkIdentifyResult {
  isSpellSuggestion : bool;
  spellIdForButton : option string;
  entryIdForButton : option string;
  spellNameForButton : option string;
  spellImageUrl : option string;
  spellLinkUUID : option string;
  spellIsItem : bool;
  spellRankForButton : option Z;
  isStrikeSuggestion : bool;
  strikeIdentifierForButton : option string;
  strikeNameForButton : option string;
  strikeImageUrl : option string;
  strikeLinkUUID : option string;
  isGenericActionSuggestion : bool;
  actionUUIDForLink : option string;
  actionNameForLink : option string;
  actionImageUrl : option string;
  stanceEffectUUID : option string;
  includesStrike : bool;
  originatingItemIdForStrike : option string;
  isConsumableSuggestion : bool;
  consumableNameForButton : option string;
  consumableImageUrl : option string;
  consumableItemUUID : option string;
  actualActionCost : jsval;
  costSource : string;
  traits : list string;
  modifiedDescriptionWithActionLink : string;
  isCombo : bool
}.

(** [parseInt(llmCost, 10)] followed by the test
    [!isNaN(n) && n >= 1 && n <= 3]. *)
Definition validNumericCost (llmCost : jsval) : option Z :=
  match parseInt_val llmCost with
  | Some n => if (1 <=? n) && (n <=? 3) then Some n else None
  | None => None
  end.

(** [actualActionCost !== null && typeof actualActionCost !== 'string'] *)
Definition isSpecificCost (c : jsval) : bool :=
  match c with
  | JNum _ => true
  | _ => false
  end.

(** [determineAuthoritativeCost(identifyResult, llmCost)] *)
Definition determineAuthoritativeCost (identifyResult : IdentifyResult)
  (llmCost : jsval) : jsval :=
  let actualActionCost := actualActionCost identifyResult in
  let costSource := costSource identifyResult in
  if isCombo identifyResult then
    if is_str llmCost "R" || is_str llmCost "F" then llmCost
    else
      match validNumericCost llmCost with
      | Some numericLLMCost => JNum numericLLMCost
      | None =>
          if isSpecificCost actualActionCost then actualActionCost
          else JNum 1
      end
  else if is_range_string actualActionCost then
    if is_str llmCost "R" || is_str llmCost "F" then JNum 1
    else
      match validNumericCost llmCost with
      | Some numericLLMCost => JNum numericLLMCost
      | None =>
          match group_truthy
                  (Re.match_group CostRe.range_minimum
                     (to_string actualActionCost) 1) with
          | Some d =>
              match Js.parseInt d with
              | Some n => JNum n
              | None => JNum 1
              end
          | None => JNum 1
          end
      end
  else if isSpecificCost actualActionCost
          && negb (String.eqb costSource "LLM") then actualActionCost
  else if is_str llmCost "R" || is_str llmCost "F" then llmCost
  else
    match validNumericCost llmCost with
    | Some numericCost => JNum numericCost
    | None => JNum 1
    end.

(* ===================================================================== *)
(** ** Suggestion text parser *)
(* ===================================================================== *)

(** The object returned by [parseLLMSuggestion]. *)
Record ParsedSuggestion : Type := mkParsed {
  description : string;
  target : option string;
  cost : jsval;
  rationale : option string;
  narrative : option string
}.

(** [x] read as a condition, for a string that may be [null]. *)
Definition truthy_opt (x : option string) : bool :=
  match x with
  | Some s => Js.truthy s
  | None => false
  end.

(** [x?.trim() || null] *)
Definition trim_or_null (x : option string) : option string :=
  match x with
  | Some s => if Js.truthy (Js.trim s) then Some (Js.trim s) else None
  | None => None
  end.

Module ParseRe.
Import Re.

Definition nl : regex := chr Js.newline.
Definition stars : regex := star (chr "*").

(** [(?:^|\n)\s*\**LABEL\**\s*] *)
Definition block_label (label : string) : regex :=
  cat [alt [RStart; nl]; star space; stars; liti label; stars; star space].

(** [(?=\s*\n\s*\**(?:L1|L2|...)|$)] *)
Definition until_label (labels : list string) : regex :=
  RLook true
    (alt [cat [star space; nl; star space; stars; alt (map liti labels)];
          REnd]).

(** [/(?:^|\n)\s*\**ACTION:\**\s*(.*?)(?=\s*\n\s*\**(?:TARGET:|COST:|Rationale:|NARRATIVE:)|$)/is] *)
Definition action_block : regex :=
  cat [block_label "ACTION:"; RCap 1 (lazy_star any);
       until_label ["TARGET:"; "COST:"; "Rationale:"; "NARRATIVE:"]].

(** [/(?:^|\n)\s*\**TARGET:\**\s*(.*?)(?=\s*\n\s*\**(?:COST:|Rationale:|NARRATIVE:)|$)/is] *)
Definition target_block : regex :=
  cat [block_label "TARGET:"; RCap 1 (lazy_star any);
       until_label ["COST:"; "Rationale:"; "NARRATIVE:"]].

(** [(\d+|R|F)(?:\s*action[s]?)?] with the [i] flag *)
Definition cost_value : regex :=
  cat [RCap 1 (alt [plus digit; chri "R"; chri "F"]);
       opt (cat [star space; liti "action"; opt (chri "s")])].

(** [/(?:^|\n)\s*\**COST:\**\s*(\d+|R|F)(?:\s*action[s]?)?/i] *)
Definition cost_block : regex := cat [block_label "COST:"; cost_value].

(** [/(?:^|\n)\s*\**Rationale:\**\s*(.*?)(?=\s*\n\s*\**(?:ACTION:|TARGET:|COST:|NARRATIVE:)|$)/is] *)
Definition rationale_block : regex :=
  cat [block_label "Rationale:"; RCap 1 (lazy_star any);
       until_label ["ACTION:"; "TARGET:"; "COST:"; "NARRATIVE:"]].

(** [/(?:^|\n)\s*\**NARRATIVE:\**\s*(.+|)/is], the group being [.*] *)
Definition narrative_block : regex :=
  cat [block_label "NARRATIVE:"; RCap 1 (star any)].

(** [/\**LABEL.*$/i] *)
Definition trailing (label : string) : regex :=
  cat [stars; liti label; star dot; REnd].

(** [/^\**LABEL\**\s*(G)/i] where the group [G] is [.*] *)
Definition line_label (label : string) : regex :=
  cat [RStart; stars; liti label; stars; star space; RCap 1 (star dot)].

(** [/^\**COST:\**\s*(\d+|R|F)(?:\s*action[s]?)?/i] *)
Definition cost_line : regex :=
  cat [RStart; stars; liti "COST:"; stars; star space; cost_value].

(** [/^-\s*/] *)
Definition leading_hyphen : regex := cat [RStart; chr "-"; star space].

End ParseRe.

(** [s.replace(/\**L1.*$/i, '').replace(/\**L2.*$/i, '')....trim()] *)
Definition strip_trailing (labels : list string) (s : string) : string :=
  Js.trim (fold_left (fun acc l => Re.replace (ParseRe.trailing l) acc "")
             labels s).

(** The cost written after [COST:]: ['R'], ['F'] or a number from 1 to 3;
    anything else leaves the cost [null]. *)
Definition readCost (costString : string) : jsval :=
  let up := Js.toUpperCase costString in
  if String.eqb up "R" || String.eqb up "F" then JStr up
  else
    match Js.parseInt up with
    | Some n => if (1 <=? n) && (n <=? 3) then JNum n else JNull
    | None => JNull
    end.

(** [responseString.trim().replace(/^-\s*/, '')] *)
Definition normalizeReply (responseString : string) : string :=
  Re.replace ParseRe.leading_hyphen (Js.trim responseString) "".

(** The primary strategy of [parseLLMSuggestion]: the labelled blocks. *)
Definition parseBlocks (responseString : string) : option ParsedSuggestion :=
  let actionMatch := Re.match_group ParseRe.action_block responseString 1 in
  let targetMatch := Re.match_group ParseRe.target_block responseString 1 in
  let costMatch := Re.match_group ParseRe.cost_block responseString 1 in
  let rationaleMatch := Re.match_group ParseRe.rationale_block responseString 1 in
  let narrativeMatch := Re.match_group ParseRe.narrative_block responseString 1 in
  match group_truthy actionMatch, group_truthy targetMatch,
        group_truthy costMatch with
  | Some a, Some t, Some c =>
      let parsedAction := Js.trim a in
      let parsedTarget := Js.trim t in
      let parsedCost := readCost c in
      let parsedRationale := trim_or_null rationaleMatch in
      let parsedNarrative := trim_or_null narrativeMatch in
      if Js.truthy parsedAction && Js.truthy parsedTarget
         && negb (jsval_eqb parsedCost JNull)
      then
        Some {| description :=
                  strip_trailing ["TARGET:"; "COST:"; "Rationale:"; "NARRATIVE:"]
                    parsedAction;
                target :=
                  Some (strip_trailing ["COST:"; "Rationale:"; "NARRATIVE:"]
                          parsedTarget);
                cost := parsedCost;
                rationale :=
                  strip_trailing ["ACTION:"; "TARGET:"; "COST:"; "NARRATIVE:"]
                    <$> parsedRationale;
                narrative :=
                  strip_trailing ["ACTION:"; "TARGET:"; "COST:"; "Rationale:"]
                    <$> parsedNarrative |}
      else None
  | _, _, _ => None
  end.

(** The variables of the line-by-line scan. *)
Record LineScan : Type := mkLineScan {
  potentialAction : option string;
  potentialTarget : option string;
  potentialCost : jsval;
  potentialRationale : option string;
  potentialNarrative : option string
}.

Definition emptyScan : LineScan := mkLineScan None None JNull None None.

(** [if (m?.[1] && !cur) cur = m[1].trim()] *)
Definition firstLabel (cur : option string) (m : option string)
  : option string :=
  match group_truthy m with
  | Some g => if truthy_opt cur then cur else Some (Js.trim g)
  | None => cur
  end.

(** The body of the loop over the lines of the reply. *)
Definition scanLine (st : LineScan) (line : string) : LineScan :=
  let trimmedLine := Js.trim line in
  let lineMatch label := Re.match_group (ParseRe.line_label label) trimmedLine 1 in
  let costLineMatch := Re.match_group ParseRe.cost_line trimmedLine 1 in
  {| potentialAction := firstLabel (potentialAction st) (lineMatch "ACTION:");
     potentialTarget := firstLabel (potentialTarget st) (lineMatch "TARGET:");
     potentialCost :=
       match group_truthy costLineMatch with
       | Some c =>
           if jsval_eqb (potentialCost st) JNull then readCost c
           else potentialCost st
       | None => potentialCost st
       end;
     potentialRationale :=
       firstLabel (potentialRationale st) (lineMatch "Rationale:");
     potentialNarrative :=
       firstLabel (potentialNarrative st) (lineMatch "NARRATIVE:") |}.

Definition scanLines (responseString : string) : LineScan :=
  fold_left scanLine (Js.split responseString Js.newline) emptyScan.

(** [potentialNarrative || ''] *)
Definition narrative_or_empty (n : option string) : option string :=
  if truthy_opt n then n else Some "".

(** The fallback strategy of [parseLLMSuggestion]: line by line. *)
Definition parseLines (responseString : string) : option ParsedSuggestion :=
  let st := scanLines responseString in
  match potentialAction st, potentialTarget st with
  | Some a, Some t =>
      if Js.truthy a && Js.truthy t then
        Some {| description := a;
                target := Some t;
                cost := if jsval_eqb (potentialCost st) JNull then JNum 1
                        else potentialCost st;
                rationale := potentialRationale st;
                narrative := narrative_or_empty (potentialNarrative st) |}
      else None
  | _, _ => None
  end.

(** [parseLLMSuggestion(responseString)]; [None] is [null]. *)
Definition parseLLMSuggestion (responseString : string)
  : option ParsedSuggestion :=
  if negb (Js.truthy responseString) then None
  else
    let responseString := normalizeReply responseString in
    match parseBlocks responseString with
    | Some p => Some p
    | None => parseLines responseString
    end.

(* ===================================================================== *)
(** ** [Array.prototype.sort] *)
(* ===================================================================== *)

(** A comparator answers [Lt] for a negative number (the first argument
    goes first), [Gt] for a positive one and [Eq] for zero.  The sort is
    the stable one that ECMAScript requires, written as an insertion sort. *)
Section Sort.
Context {A : Type} (cmp : A -> A -> comparison).

Fixpoint insertSorted (x : A) (l : list A) : list A :=
  match l with
  | [] => [x]
  | y :: l' =>
      match cmp x y with
      | Gt => y :: insertSorted x l'
      | _ => x :: l
      end
  end.

Definition jsSort (l : list A) : list A := fold_right insertSorted [] l.
End Sort.

(** The sign of a difference [a - b] of two integers. *)
Definition sign (z : Z) : comparison := z ?= 0.

(* ===================================================================== *)
(** ** Data handed to the resolver *)
(* ===================================================================== *)

(** The traits of a descriptor: [gatherGameState] joins the traits of a
    strike into one string, items carry an array. *)
Inductive Traits : Type :=
| TraitString (s : string)
| TraitArray (l : list string).

(** [traits.includes(t)] *)
Definition traits_includes (ts : option Traits) (t : string) : bool :=
  match ts with
  | Some (TraitString s) => Js.includes s t
  | Some (TraitArray l) => existsb (String.eqb t) l
  | None => false
  end.

(** [...(traits || [])]: a string spreads into its code units. *)
Definition traits_spread (ts : option Traits) : list string :=
  match ts with
  | Some (TraitString s) => map (fun c => String c "") (Js.chars s)
  | Some (TraitArray l) => l
  | None => []
  end.

(** The loosely structured records the resolver probes: an entry of one of
    the lists of [gameState.self], an item of the actor or a strike of
    [actor.system.actions].  Every field is optional, as in the source. *)
Record Descriptor : Type := mkDescriptor {
  d_name : option string;
  d_label : option string;
  d_uuid : option string;
  d_originalItemData_uuid : option string;
  d_item_uuid : option string;
  d_id : option string;
  d_entryId : option string;
  d_itemId : option string;
  d_identifier : option string;
  d_slug : option string;
  d_img : option string;
  d_imageUrl : option string;
  d_type : option string;
  d_location : option string;
  d_traits : option Traits;
  d_bonuses : option string;
  d_damage : option string
}.

Definition blank : Descriptor :=
  mkDescriptor None None None None None None None None None None None None
    None None None None None.

(** A condition or effect of [gameState.self.conditionsEffects]. *)
Record Condition : Type := mkCondition {
  c_name : string;
  c_value : option Z;
  c_sourceActorId : option string
}.

(** [gameState.self] *)
Record SelfInfo : Type := mkSelfInfo {
  spells : list Descriptor;
  focusSpells : list Descriptor;
  cantrips : list Descriptor;
  itemGrantedSpells : list Descriptor;
  strikes : list Descriptor;
  _actionsAndActionFeatsList : list Descriptor;
  consumables : list Descriptor;
  passiveAbilities : list Descriptor;
  conditionsEffects : list Condition
}.

(** An entry of [gameState.targets]. *)
Record TargetInfo : Type := mkTargetInfo {
  t_name : option string;
  t_conditionsEffects : option (list Condition)
}.

(** The snapshot produced by [gatherGameState]; the confirm handler passes
    the empty object, whose [self] is missing. *)
Record GameState : Type := mkGameState {
  self : option SelfInfo;
  recentEvents : option (list string);
  targets : option (list TargetInfo)
}.

Definition emptyGameState : GameState := mkGameState None None None.

(** The document behind a matched entry, as read in step 6. *)
Record FullItem : Type := mkFullItem {
  system_time_value : jsval;
  system_actions_value : jsval;
  system_description_value : option string;
  system_actionType_value : option string;
  system_traits_value : option (list string);
  system_selfEffect_uuid : option string
}.

(** The actor: its name and id, [actor.itemTypes], [actor.system.actions]
    and [actor.items.get]. *)
Record Actor : Type := mkActor {
  actor_name : string;
  actor_id : string;
  itemTypes_spell : list Descriptor;
  itemTypes_action : list Descriptor;
  itemTypes_feat : list Descriptor;
  itemTypes_consumable : list Descriptor;
  system_actions : option (list Descriptor);
  items_get : option string -> option FullItem
}.

(** What the resolver reads from the Foundry globals: [fromUuid] and
    [game.i18n.localize]. *)
Record Game : Type := mkGame {
  fromUuid : string -> option FullItem;
  localize : string -> string
}.

Inductive ItemType : Type := TSpell | TStrike | TAction | TConsumable.

Definition ItemType_eqb (a b : ItemType) : bool :=
  match a, b with
  | TSpell, TSpell | TStrike, TStrike | TAction, TAction
  | TConsumable, TConsumable => true
  | _, _ => false
  end.

(** An entry of the master list of linkable items. *)
Record MasterItem : Type := mkMasterItem {
  m_name : string;
  m_uuid : string;
  m_type : ItemType;
  m_id : option string;
  m_entryId : option string;
  m_identifier : option string;
  m_img : option string
}.

(* ===================================================================== *)
(** ** Action resolver: the master list *)
(* ===================================================================== *)

(** [x || 'default'] *)
Definition or_default (x : option string) (d : string) : option string :=
  Js.or_else x (Some d).

(** [typeof name === 'string' && uuid] *)
Definition linkable (name uuid : option string) : option (string * string) :=
  match name, uuid with
  | Some n, Some u => if Js.truthy u then Some (n, u) else None
  | _, _ => None
  end.

(** The helper [addToList(items, type)] of [getMasterList]. *)
Definition addToList (lst : list MasterItem) (items : list Descriptor)
  (type : ItemType) : list MasterItem :=
  fold_left
    (fun lst item =>
       let name := Js.or_else (d_name item) (d_label item) in
       let uuid := Js.or_else (d_uuid item)
                     (Js.or_else (d_originalItemData_uuid item)
                        (d_item_uuid item)) in
       match linkable name uuid with
       | Some (name, uuid) =>
           let entry :=
             match type with
             | TSpell =>
                 mkMasterItem name uuid type (d_id item) (d_entryId item) None
                   (or_default (d_img item) "icons/svg/book.svg")
             | TStrike =>
                 mkMasterItem name uuid type (d_itemId item) None
                   (d_identifier item)
                   (or_default (d_imageUrl item) "icons/svg/combat.svg")
             | TAction =>
                 mkMasterItem name uuid type (d_id item) None None
                   (or_default (d_img item) "icons/svg/action.svg")
             | TConsumable =>
                 mkMasterItem name uuid type (d_id item) None None
                   (or_default (d_img item) "icons/svg/item.svg")
             end in
           lst ++ [entry]
       | None => lst
       end)
    items lst.

Definition hasType (lst : list MasterItem) (type : ItemType) : bool :=
  existsb (fun i => ItemType_eqb (m_type i) type) lst.

Definition hasUuid (lst : list MasterItem) (uuid : string) : bool :=
  existsb (fun i => String.eqb (m_uuid i) uuid) lst.

(** The helper [addFallback(actorItems, type)] of [getMasterList]. *)
Definition addFallback (lst : list MasterItem) (actorItems : list Descriptor)
  (type : ItemType) : list MasterItem :=
  if hasType lst type then lst
  else
    fold_left
      (fun lst item =>
         match linkable (d_name item) (d_uuid item) with
         | Some (name, uuid) =>
             if hasUuid lst uuid then lst
             else
               let entry :=
                 match type with
                 | TSpell =>
                     mkMasterItem name uuid type (d_id item) (d_location item)
                       None (d_img item)
                 | TStrike =>
                     mkMasterItem name uuid type (d_itemId item) None
                       (d_slug item) (d_imageUrl item)
                 | _ =>
                     mkMasterItem name uuid type (d_id item) None None
                       (d_img item)
                 end in
               lst ++ [entry]
         | None => lst
         end)
      actorItems lst.

(** The fallback for strikes, read from [actor.system.actions]. *)
Definition addStrikeFallback (lst : list MasterItem) (actor : Actor)
  : list MasterItem :=
  match system_actions actor with
  | Some actions =>
      if hasType lst TStrike then lst
      else
        fold_left
          (fun lst strike =>
             match linkable (d_label strike)
                     (Js.or_else (d_item_uuid strike) (d_uuid strike)) with
             | Some (label, uuid) =>
                 if hasUuid lst uuid then lst
                 else lst ++ [mkMasterItem label uuid TStrike (d_itemId strike)
                                 None (d_slug strike) (d_imageUrl strike)]
             | None => lst
             end)
          (filter (fun a => bool_decide (d_type a = Some "strike")) actions)
          lst
  | None => lst
  end.

(** [map.set(key, value)] on a [Map], which keeps the insertion order of
    its keys. *)
Fixpoint map_set {V : Type} (k : string) (v : V) (m : list (string * V))
  : list (string * V) :=
  match m with
  | [] => [(k, v)]
  | (k', v') :: m' =>
      if String.eqb k k' then (k, v) :: m' else (k', v') :: map_set k v m'
  end.

(** [Array.from(new Map(list.map(item => [item.uuid || item.name, item])).values())] *)
Definition uniqueByUuid (lst : list MasterItem) : list MasterItem :=
  map snd
    (fold_left
       (fun m item =>
          map_set (if Js.truthy (m_uuid item) then m_uuid item else m_name item)
            item m)
       lst []).

Definition byNameLengthDesc (a b : MasterItem) : comparison :=
  sign (Z.of_nat (String.length (m_name b)) - Z.of_nat (String.length (m_name a))).

(** [safeGetList(key)]: [gameState?.self?.[key] ?? []] *)
Definition safeGetList (gameState : GameState)
  (key : SelfInfo -> list Descriptor) : list Descriptor :=
  match self gameState with
  | Some s => key s
  | None => []
  end.

(** [getMasterList()] *)
Definition getMasterList (actor : Actor) (gameState : GameState)
  : list MasterItem :=
  let lst := [] in
  let lst := addToList lst (safeGetList gameState spells) TSpell in
  let lst := addToList lst (safeGetList gameState focusSpells) TSpell in
  let lst := addToList lst (safeGetList gameState cantrips) TSpell in
  let lst := addToList lst (safeGetList gameState itemGrantedSpells) TSpell in
  let lst := addToList lst (safeGetList gameState strikes) TStrike in
  let lst := addToList lst (safeGetList gameState _actionsAndActionFeatsList)
                TAction in
  let lst := addToList lst (safeGetList gameState consumables) TConsumable in
  let lst := addFallback lst (itemTypes_spell actor) TSpell in
  let lst := addStrikeFallback lst actor in
  let lst := addFallback lst (itemTypes_action actor ++ itemTypes_feat actor)
                TAction in
  let lst := addFallback lst (itemTypes_consumable actor) TConsumable in
  jsSort byNameLengthDesc (uniqueByUuid lst).

(* ===================================================================== *)
(** ** Action resolver: cleaning and the named-action special case *)
(* ===================================================================== *)

Module ResolveRe.
Import Re.

Definition dquote : ascii := ascii_of_nat 34.

(** [/\s+a$/i] *)
Definition trailing_a : regex := cat [plus space; chri "a"; REnd].

(** [/[.,;:]\s*$/] *)
Definition trailing_punctuation : regex :=
  cat [one_of ".,;:"; star space; REnd].

(** [/^(Cast|Activate|Use|Strike:?)\s+/i] *)
Definition leading_verb : regex :=
  cat [RStart;
       RCap 1 (alt [liti "Cast"; liti "Activate"; liti "Use";
                    cat [liti "Strike"; opt (chr ":")]]);
       plus space].

(** The class [\w], [\s], apostrophe and hyphen. *)
Definition name_char (c : ascii) : bool :=
  Js.is_word c || Js.is_space c || Js.char_eqb c "'" || Js.char_eqb c "-".

(** [/^([\w\s'-]+)(?:\s*\(.*?\))?(?:\s*,?\s+R)?$/i] where [R] is [.*] *)
Definition action_name : regex :=
  cat [RStart; RCap 1 (plus (RSet name_char));
       opt (cat [star space; chr "("; lazy_star dot; chr ")"]);
       opt (cat [star space; opt (chr ","); plus space; star dot]);
       REnd].

(** The class of [wordBoundaryRegex]: white space, the two quotes and
    [, . : ; + ( ) [ ] { }]. *)
Definition boundary_char (c : ascii) : bool :=
  Js.is_space c || Js.char_eqb c dquote
  || existsb (Js.char_eqb c) (Js.chars "',.:;+()[]{}").

(** [/\(Rank (\d+)\)/i] *)
Definition rank_marker : regex :=
  cat [chr "("; liti "Rank "; RCap 1 (plus digit); chr ")"].

(** [/\s*\+\s*|\s*,\s*then\s*|\s+then\s+/i] *)
Definition combinator : regex :=
  alt [cat [star space; chr "+"; star space];
       cat [star space; chr ","; star space; liti "then"; star space];
       cat [plus space; liti "then"; plus space]].

(** [/(\d+)d(\d+)/g] *)
Definition dice : regex :=
  cat [RCap 1 (plus digit); chr "d"; RCap 2 (plus digit)].

(** [/([+-]\s*\d+)(?!d)/g] *)
Definition flat_modifier : regex :=
  cat [RCap 1 (cat [one_of "+-"; star space; plus digit]);
       RLook false (chr "d")].

(** [/^[+-]?\s*\d+$/] *)
Definition flat_only : regex :=
  cat [RStart; opt (one_of "+-"); star space; plus digit; REnd].

(** [/\b(?:make|perform|attempt)s? (?:a|an|one|your) Strike\b/i] *)
Definition makes_a_strike : regex :=
  cat [RWordBoundary; alt [liti "make"; liti "perform"; liti "attempt"];
       opt (chri "s"); chr " ";
       alt [liti "a"; liti "an"; liti "one"; liti "your"];
       liti " Strike"; RWordBoundary].

End ResolveRe.

(** The first lines of [identifySuggestionTypeAndCost]: the cleaned
    description. *)
Definition cleanDescription (description : string) : string :=
  let cleanedDescription :=
    Js.trim (Re.replace ResolveRe.trailing_a (Js.trim description) "") in
  let quote := String ResolveRe.dquote "" in
  let cleanedDescription :=
    if (Js.startsWith cleanedDescription quote
        && Js.endsWith cleanedDescription quote)
       || (Js.startsWith cleanedDescription "'"
           && Js.endsWith cleanedDescription "'")
    then Js.substring cleanedDescription 1
           (String.length cleanedDescription - 1)
    else cleanedDescription in
  let cleanedDescription :=
    Js.trim (Re.replace ResolveRe.trailing_punctuation cleanedDescription "") in
  Js.trim (Re.replace ResolveRe.leading_verb cleanedDescription "").

(** [overallResult] as it is initialised. *)
Definition initialResult (cleanedDescription : string) : IdentifyResult :=
  {| isSpellSuggestion := false; spellIdForButton := None;
     entryIdForButton := None; spellNameForButton := None;
     spellImageUrl := None; spellLinkUUID := None; spellIsItem := false;
     spellRankForButton := None;
     isStrikeSuggestion := false; strikeIdentifierForButton := None;
     strikeNameForButton := None; strikeImageUrl := None;
     strikeLinkUUID := None;
     isGenericActionSuggestion := false; actionUUIDForLink := None;
     actionNameForLink := None; actionImageUrl := None;
     stanceEffectUUID := None; includesStrike := false;
     originatingItemIdForStrike := None;
     isConsumableSuggestion := false; consumableNameForButton := None;
     consumableImageUrl := None; consumableItemUUID := None;
     actualActionCost := JNull; costSource := "LLM"; traits := [];
     modifiedDescriptionWithActionLink := cleanedDescription;
     isCombo := false |}.

(** [actionNameMatch ? actionNameMatch[1].trim() : cleanedDescription] *)
Definition primaryActionName (cleanedDescription : string) : string :=
  match Re.exec ResolveRe.action_name cleanedDescription with
  | Some m =>
      match Re.group cleanedDescription m 1 with
      | Some g => Js.trim g
      | None => cleanedDescription
      end
  | None => cleanedDescription
  end.

Definition primaryActionNameLower (cleanedDescription : string) : string :=
  Js.toLowerCase (primaryActionName cleanedDescription).

Definition isFlurry (cleanedDescription : string) : bool :=
  String.eqb (primaryActionNameLower cleanedDescription) "flurry of blows".

(** [s.replace(/\s/g, '')] *)
Definition removeSpaces (s : string) : string := Re.replace_all Re.space s "".

Definition parseIntOr0 (d : option string) : Z :=
  match d with
  | Some s => match Js.parseInt s with Some n => n | None => 0 end
  | None => 0
  end.

(** The helper [estimateAverageDamage(formula)] of the special case; the
    estimate is a multiple of one half. *)
Definition estimateAverageDamage (formula : option string) : Q :=
  match formula with
  | None => 0%Q
  | Some formula =>
    if negb (Js.truthy formula) then 0%Q
    else
      let fromDice :=
        fold_left
          (fun (averageDamage : Q) m =>
             let numDice := parseIntOr0 (Re.group formula m 1) in
             let dieSize := parseIntOr0 (Re.group formula m 2) in
             if 0 <? dieSize
             then (averageDamage + ((numDice * (dieSize + 1))%Z # 2))%Q
             else averageDamage)
          (Re.exec_all ResolveRe.dice formula) 0%Q in
      let withFlat :=
        fold_left
          (fun (averageDamage : Q) m =>
             match Re.group formula m 1 with
             | Some g =>
                 match Js.parseInt (removeSpaces g) with
                 | Some flatValue => (averageDamage + inject_Z flatValue)%Q
                 | None => averageDamage
                 end
             | None => averageDamage
             end)
          (Re.exec_all ResolveRe.flat_modifier formula) fromDice in
      let averageDamage :=
        if Qeq_bool withFlat 0 && Re.test ResolveRe.flat_only (Js.trim formula)
        then match Js.parseInt (removeSpaces formula) with
             | Some flatValue => inject_Z flatValue
             | None => withFlat
             end
        else withFlat in
      match (averageDamage ?= 0)%Q with
      | Gt => averageDamage
      | _ => 0%Q
      end
  end.

(** The helper [parseBaseBonus(bonusString)] of the comparator. *)
Definition parseBaseBonus (bonusString : option string) : Z :=
  match bonusString with
  | None => -99
  | Some bonusString =>
      if negb (Js.truthy bonusString) then -99
      else
        match Js.split bonusString "/" with
        | firstBonus :: _ =>
            match Js.parseInt (Js.trim firstBonus) with
            | Some bonusValue => bonusValue
            | None => -99
            end
        | [] => -99
        end
  end.

(** The comparator given to [eligibleStrikes.sort]: higher bonus first,
    then higher estimated damage. *)
Definition byBonusThenDamage (a b : Descriptor) : comparison :=
  let bonusA := parseBaseBonus (d_bonuses a) in
  let bonusB := parseBaseBonus (d_bonuses b) in
  if negb (bonusA =? bonusB) then sign (bonusB - bonusA)
  else (estimateAverageDamage (d_damage b)
          ?= estimateAverageDamage (d_damage a))%Q.

(** [gameState?.self?.strikes?.filter(s => s.traits?.includes('unarmed')
    || s.traits?.includes('monk')) || []] *)
Definition eligibleStrikes (gameState : GameState) : list Descriptor :=
  filter (fun s => orb (traits_includes (d_traits s) "unarmed")
                       (traits_includes (d_traits s) "monk"))
    (safeGetList gameState strikes).

(** [eligibleStrikes.sort(...)[0]] *)
Definition bestEligibleStrike (gameState : GameState) : option Descriptor :=
  head (jsSort byBonusThenDamage (eligibleStrikes gameState)).

(** [arr.filter((v, i, a) => a.indexOf(v) === i)] *)
Fixpoint keepFirst (seen l : list string) : list string :=
  match l with
  | [] => []
  | v :: l' =>
      if existsb (String.eqb v) seen then keepFirst seen l'
      else v :: keepFirst (v :: seen) l'
  end.

(** A possibly missing string inside a template literal. *)
Definition interpolate (x : option string) : string :=
  match x with
  | Some s => s
  | None => "undefined"
  end.

(** The result built by the special case for the strike it selected. *)
Definition flurryResult (cleanedDescription : string) (best : Descriptor)
  : IdentifyResult :=
  let r := initialResult cleanedDescription in
  let strikeName := Js.or_else (d_label best) (d_name best) in
  {| isSpellSuggestion := isSpellSuggestion r;
     spellIdForButton := spellIdForButton r;
     entryIdForButton := entryIdForButton r;
     spellNameForButton := spellNameForButton r;
     spellImageUrl := spellImageUrl r;
     spellLinkUUID := spellLinkUUID r;
     spellIsItem := spellIsItem r;
     spellRankForButton := spellRankForButton r;
     isStrikeSuggestion := true;
     strikeIdentifierForButton :=
       Js.or_else (d_identifier best) (Js.or_else (d_slug best) (d_label best));
     strikeNameForButton := strikeName;
     strikeImageUrl := or_default (d_imageUrl best) "icons/svg/combat.svg";
     strikeLinkUUID := Js.or_else (d_uuid best) (d_item_uuid best);
     isGenericActionSuggestion := isGenericActionSuggestion r;
     actionUUIDForLink := actionUUIDForLink r;
     actionNameForLink := actionNameForLink r;
     actionImageUrl := actionImageUrl r;
     stanceEffectUUID := stanceEffectUUID r;
     includesStrike := includesStrike r;
     originatingItemIdForStrike := originatingItemIdForStrike r;
     isConsumableSuggestion := isConsumableSuggestion r;
     consumableNameForButton := consumableNameForButton r;
     consumableImageUrl := consumableImageUrl r;
     consumableItemUUID := consumableItemUUID r;
     actualActionCost := JNum 1;
     costSource := "Flurry of Blows Rule";
     traits := keepFirst []
                 ("attack" :: "flurry" :: traits_spread (d_traits best));
     modifiedDescriptionWithActionLink :=
       "Flurry of Blows (using " +:+ interpolate strikeName +:+ ")";
     isCombo := isCombo r |}.

(* ===================================================================== *)
(** ** [summarizeAbilityDetails] *)
(* ===================================================================== *)

Module SummaryRe.
Import Re.

Definition nl : string := String Js.newline "".

(** [<br\s*\/?>] *)
Definition br : regex := cat [liti "<br"; star space; opt (chr "/"); chr ">"].
(** [<\/?p>] *)
Definition para : regex := cat [chr "<"; opt (chr "/"); liti "p>"].
(** [<hr\s*\/?>] *)
Definition hr : regex := cat [liti "<hr"; star space; opt (chr "/"); chr ">"].
(** [<\/?(?:strong|b|em|i|u)>] *)
Definition formatting : regex :=
  cat [chr "<"; opt (chr "/");
       alt [liti "strong"; liti "b"; liti "em"; liti "i"; liti "u"]; chr ">"].
(** [<a [^>]+>([^<]+)<\/a>] *)
Definition anchor : regex :=
  cat [liti "<a "; plus (none_of ">"); chr ">"; RCap 1 (plus (none_of "<"));
       liti "</a>"].
(** [@TAG\[[^\]]+\]\{([^}]+)\}] *)
Definition labelled (tag : string) : regex :=
  cat [liti tag; chr "["; plus (none_of "]"); chr "]"; chr "{";
       RCap 1 (plus (none_of "}")); chr "}"].
(** [@Damage\[([^\]]+)\]] *)
Definition damage : regex :=
  cat [liti "@Damage["; RCap 1 (plus (none_of "]")); chr "]"].
(** [(@Localize\[([^\]]+)\])], case-sensitive *)
Definition localize_tag : regex :=
  RCap 1 (cat [lit "@Localize["; RCap 2 (plus (none_of "]")); chr "]"]).
(** [@UUID\[Compendium\.pf2e\.conditionitems\.Item\.[^\]]+\]\{([^}]+)\}] *)
Definition condition_uuid : regex :=
  cat [liti "@UUID[Compendium.pf2e.conditionitems.Item."; plus (none_of "]");
       chr "]"; chr "{"; RCap 1 (plus (none_of "}")); chr "}"].
(** [\[\[\/gmr ([^#]+)#([^\]]+)\]\]\{([^}]+)\}] *)
Definition gmr : regex :=
  cat [liti "[[/gmr "; RCap 1 (plus (none_of "#")); chr "#";
       RCap 2 (plus (none_of "]")); lit "]]"; chr "{";
       RCap 3 (plus (none_of "}")); chr "}"].
(** [<[^>]*>] *)
Definition any_tag : regex := cat [chr "<"; star (none_of ">"); chr ">"].
(** [ {2,}] *)
Definition spaces : regex := cat [chr " "; plus (chr " ")].
(** [\n\s*\n] *)
Definition empty_line : regex :=
  cat [chr Js.newline; star space; chr Js.newline].
(** [\n ] *)
Definition leading_space : regex := cat [chr Js.newline; chr " "].

End SummaryRe.

(** [summarizeAbilityDetails(descriptionHTML)] *)
Definition summarizeAbilityDetails (game : Game)
  (descriptionHTML : option string) : string :=
  match descriptionHTML with
  | None => ""
  | Some html =>
    if negb (Js.truthy html) then ""
    else
      let nl := SummaryRe.nl in
      let keep1 r s := Re.replace_all_by r s (Re.dollar s 1) in
      let s := Re.replace_all SummaryRe.br html nl in
      let s := Re.replace_all SummaryRe.para s nl in
      let s := Re.replace_all SummaryRe.hr s (nl +:+ "---" +:+ nl) in
      let s := Re.replace_all SummaryRe.formatting s "" in
      let s := keep1 SummaryRe.anchor s in
      let s := keep1 (SummaryRe.labelled "@UUID") s in
      let s := keep1 (SummaryRe.labelled "@Check") s in
      let s := keep1 SummaryRe.damage s in
      let s :=
        Re.replace_all_by SummaryRe.localize_tag s
          (fun m =>
             let fullMatch := Re.dollar s 1 m in
             match group_truthy (Re.group s m 2) with
             | Some key =>
                 let localizedText := localize game key in
                 if negb (String.eqb localizedText key) then localizedText
                 else fullMatch
             | None => fullMatch
             end) in
      let s := keep1 SummaryRe.condition_uuid s in
      let s :=
        Re.replace_all_by SummaryRe.gmr s
          (fun m => Re.dollar s 1 m +:+ " (" +:+ Re.dollar s 3 m +:+ ")") in
      let s := Re.replace_all SummaryRe.any_tag s " " in
      let s := Re.replace_all SummaryRe.spaces s " " in
      let s := Re.replace_all SummaryRe.empty_line s nl in
      let s := Re.replace_all SummaryRe.leading_space s nl in
      Js.trim s
  end.

(* ===================================================================== *)
(** ** Action resolver: candidates and overlap resolution *)
(* ===================================================================== *)

(** An entry of [potentialMatches]. *)
Record PotentialMatch : Type := mkPotentialMatch {
  startIndex : nat;
  endIndex : nat;
  uuid : string;
  itemName : string;
  itemType : ItemType;
  itemImg : option string;
  itemId : option string;
  entryId : option string;
  strikeIdentifier : option string;
  nameLength : nat
}.

Definition matchAt (item : MasterItem) (startIndex endIndex : nat)
  : PotentialMatch :=
  mkPotentialMatch startIndex endIndex (m_uuid item) (m_name item)
    (m_type item) (m_img item) (m_id item) (m_entryId item)
    (m_identifier item) (String.length (m_name item)).

(** [wordBoundaryRegex.test(c)], where a position outside the string
    counts as a space. *)
Definition atBoundary (c : option ascii) : bool :=
  match c with
  | Some c => ResolveRe.boundary_char c
  | None => true
  end.

(** [potentialMatches.some(pm => pm.uuid === item.uuid && pm.startIndex === 0)] *)
Definition alreadyPrimary (potentialMatches : list PotentialMatch)
  (item : MasterItem) : bool :=
  existsb (fun pm => String.eqb (uuid pm) (m_uuid item)
                     && Nat.eqb (startIndex pm) 0)
    potentialMatches.

(** The first test of the loop over the master list: the name is the
    primary action name, or starts it and is followed by a space. *)
Definition primaryCandidate (primaryActionNameLower : string)
  (item : MasterItem) (potentialMatches : list PotentialMatch)
  : list PotentialMatch :=
  let itemNameLower := Js.toLowerCase (m_name item) in
  if String.eqb primaryActionNameLower itemNameLower
     || Js.startsWith primaryActionNameLower (itemNameLower +:+ " ")
  then
    let endIndex := String.length itemNameLower in
    let afterChar :=
      if Nat.leb (String.length primaryActionNameLower) endIndex then None
      else Js.charAt primaryActionNameLower endIndex in
    if atBoundary afterChar
    then potentialMatches ++ [matchAt item 0 endIndex]
    else potentialMatches
  else potentialMatches.

(** The [while] loop over the occurrences of the name in the description.
    [None] is a loop that never ends: [indexOf] with an empty name keeps
    answering the end of the string. *)
Fixpoint scanOccurrences (fuel : nat) (descriptionLower : string)
  (item : MasterItem) (searchIndex : nat)
  (potentialMatches : list PotentialMatch) : option (list PotentialMatch) :=
  match fuel with
  | O => None
  | S fuel' =>
      let itemNameLower := Js.toLowerCase (m_name item) in
      match Js.indexOf descriptionLower itemNameLower searchIndex with
      | None => Some potentialMatches
      | Some startIndex =>
          let endIndex := (startIndex + String.length itemNameLower)%nat in
          let beforeChar :=
            match startIndex with
            | O => None
            | S p => Js.charAt descriptionLower p
            end in
          let afterChar := Js.charAt descriptionLower endIndex in
          let potentialMatches :=
            if atBoundary beforeChar && atBoundary afterChar
               && negb (alreadyPrimary potentialMatches item)
            then potentialMatches ++ [matchAt item startIndex endIndex]
            else potentialMatches in
          scanOccurrences fuel' descriptionLower item (S startIndex)
            potentialMatches
      end
  end.

(** The body of [masterItemList.forEach]. *)
Definition scanItem (cleanedDescription : string)
  (potentialMatches : list PotentialMatch) (item : MasterItem)
  : option (list PotentialMatch) :=
  let descriptionLower := Js.toLowerCase cleanedDescription in
  scanOccurrences (String.length descriptionLower + 2) descriptionLower item 0
    (primaryCandidate (primaryActionNameLower cleanedDescription) item
       potentialMatches).

(** Step 2: the candidates of every entry of the master list. *)
Fixpoint findPotentialMatches (cleanedDescription : string)
  (masterItemList : list MasterItem) (potentialMatches : list PotentialMatch)
  : option (list PotentialMatch) :=
  match masterItemList with
  | [] => Some potentialMatches
  | item :: rest =>
      match scanItem cleanedDescription potentialMatches item with
      | Some potentialMatches =>
          findPotentialMatches cleanedDescription rest potentialMatches
      | None => None
      end
  end.

Definition isSpell (m : PotentialMatch) : bool :=
  ItemType_eqb (itemType m) TSpell.

(** The comparator given to [potentialMatches.sort]. *)
Definition byPriority (descriptionIndicatesRank : bool)
  (a b : PotentialMatch) : comparison :=
  if Nat.eqb (startIndex a) 0 && negb (Nat.eqb (startIndex b) 0) then Lt
  else if negb (Nat.eqb (startIndex a) 0) && Nat.eqb (startIndex b) 0 then Gt
  else if descriptionIndicatesRank
          && String.eqb (Js.toLowerCase (itemName a))
               (Js.toLowerCase (itemName b))
          && isSpell a && negb (isSpell b) then Lt
  else if descriptionIndicatesRank
          && String.eqb (Js.toLowerCase (itemName a))
               (Js.toLowerCase (itemName b))
          && negb (isSpell a) && isSpell b then Gt
  else if negb (Nat.eqb (nameLength a) (nameLength b))
  then sign (Z.of_nat (nameLength b) - Z.of_nat (nameLength a))
  else sign (Z.of_nat (startIndex a) - Z.of_nat (startIndex b)).

(** The indices [startIndex .. endIndex - 1] visited by the two [for]
    loops of step 3. *)
Definition span (m : PotentialMatch) : list nat :=
  seq (startIndex m) (endIndex m - startIndex m).

Definition overlaps (coveredIndices : gset nat) (m : PotentialMatch) : bool :=
  existsb (fun i => bool_decide (i ∈ coveredIndices)) (span m).

(** The body of [potentialMatches.forEach] in step 3. *)
Definition confirmStep (st : list PotentialMatch * gset nat)
  (m : PotentialMatch) : list PotentialMatch * gset nat :=
  let '(confirmedMatches, coveredIndices) := st in
  if overlaps coveredIndices m then (confirmedMatches, coveredIndices)
  else (confirmedMatches ++ [m],
        foldl (fun covered i => {[i]} ∪ covered) coveredIndices (span m)).

(** Step 3: greedy acceptance of the sorted candidates. *)
Definition resolveOverlaps (cleanedDescription : string)
  (potentialMatches : list PotentialMatch) : list PotentialMatch :=
  let descriptionIndicatesRank :=
    Re.test ResolveRe.rank_marker cleanedDescription in
  fst (fold_left confirmStep
         (jsSort (byPriority descriptionIndicatesRank) potentialMatches)
         ([], ∅)).

(** Steps 1 to 3: the confirmed matches of a cleaned description. *)
Definition confirmedMatches (cleanedDescription : string)
  (masterItemList : list MasterItem) : option (list PotentialMatch) :=
  resolveOverlaps cleanedDescription
    <$> findPotentialMatches cleanedDescription masterItemList [].

Definition byStartIndex (a b : PotentialMatch) : comparison :=
  sign (Z.of_nat (startIndex a) - Z.of_nat (startIndex b)).

(** Step 4: the description with every confirmed match turned into a
    [@UUID] link.  [confirmedMatches] is already sorted by start index. *)
Definition linkDescription (cleanedDescription : string)
  (confirmedMatches : list PotentialMatch) : string :=
  let '(builder, lastIndexProcessed) :=
    fold_left
      (fun '(builder, lastIndexProcessed) m =>
         let builder :=
           if Nat.ltb lastIndexProcessed (startIndex m)
           then builder ++ [Js.substring cleanedDescription lastIndexProcessed
                              (startIndex m)]
           else builder in
         (builder ++ ["@UUID[" +:+ uuid m +:+ "]{" +:+ itemName m +:+ "}"],
          endIndex m))
      confirmedMatches ([], O) in
  let builder :=
    if Nat.ltb lastIndexProcessed (String.length cleanedDescription)
    then builder ++ [Js.substring_from cleanedDescription lastIndexProcessed]
    else builder in
  match builder with
  | [] => cleanedDescription
  | _ => fold_right String.append "" builder
  end.

(** Step 5: the match at index 0, else the first one. *)
Definition primaryActionInfo (confirmedMatches : list PotentialMatch)
  : option PotentialMatch :=
  match List.find (fun m => Nat.eqb (startIndex m) 0) confirmedMatches with
  | Some m => Some m
  | None => head confirmedMatches
  end.

(* ===================================================================== *)
(** ** Action resolver: the primary action and the result *)
(* ===================================================================== *)

(** [await fromUuid(info.uuid) ?? actor.items.get(info.itemId)] *)
Definition fullPrimaryItem (game : Game) (actor : Actor)
  (info : PotentialMatch) : option FullItem :=
  match fromUuid game (uuid info) with
  | Some item => Some item
  | None => items_get actor (itemId info)
  end.

(** [if (!traits.includes('attack')) traits.push('attack')].  The push
    lands in the array of the document itself; as it adds [attack] only
    when it is missing, a later call reads the same traits. *)
Definition withAttack (traits : list string) : list string :=
  if existsb (String.eqb "attack") traits then traits
  else traits ++ ["attack"].

(** The cost read from the primary item in step 6. *)
Definition primaryItemCost (info : PotentialMatch) (item : FullItem) : jsval :=
  let parsed :=
    parseActionCostValue (system_time_value item) (system_actions_value item)
      (system_description_value item) (system_actionType_value item) in
  match itemType info with
  | TStrike => JNum 1
  | TConsumable => if jsval_eqb parsed JNull then JNum 1 else parsed
  | _ => parsed
  end.

(** [/.../i.test(summarizeAbilityDetails(description) || "")] *)
Definition describesStrike (game : Game) (item : FullItem) : bool :=
  Re.test ResolveRe.makes_a_strike
    (summarizeAbilityDetails game (system_description_value item)).

(** Step 6 when the document of the primary match was found. *)
Definition populateFromItem (game : Game) (cleanedDescription : string)
  (r : IdentifyResult) (info : PotentialMatch) (item : FullItem)
  : IdentifyResult :=
  let ty := itemType info in
  let cost := primaryItemCost info item in
  let itemTraits :=
    match system_traits_value item with Some l => l | None => [] end in
  let strikeInside :=
    match ty with TAction => describesStrike game item | _ => false end in
  let when (t : ItemType) {X : Type} (x old : X) : X :=
    if ItemType_eqb ty t then x else old in
  {| isSpellSuggestion := when TSpell true (isSpellSuggestion r);
     spellIdForButton := when TSpell (itemId info) (spellIdForButton r);
     entryIdForButton := when TSpell (entryId info) (entryIdForButton r);
     spellNameForButton :=
       when TSpell (Some (itemName info)) (spellNameForButton r);
     spellImageUrl := when TSpell (itemImg info) (spellImageUrl r);
     spellLinkUUID := when TSpell (Some (uuid info)) (spellLinkUUID r);
     spellIsItem :=
       when TSpell (negb (truthy_opt (entryId info))) (spellIsItem r);
     spellRankForButton :=
       when TSpell
         (match group_truthy
                  (Re.match_group ResolveRe.rank_marker cleanedDescription 1)
          with
          | Some d => Js.parseInt d
          | None => None
          end)
         (spellRankForButton r);
     isStrikeSuggestion := when TStrike true (isStrikeSuggestion r);
     strikeIdentifierForButton :=
       when TStrike (strikeIdentifier info) (strikeIdentifierForButton r);
     strikeNameForButton :=
       when TStrike (Some (itemName info)) (strikeNameForButton r);
     strikeImageUrl := when TStrike (itemImg info) (strikeImageUrl r);
     strikeLinkUUID := when TStrike (Some (uuid info)) (strikeLinkUUID r);
     isGenericActionSuggestion :=
       when TAction true (isGenericActionSuggestion r);
     actionUUIDForLink := when TAction (Some (uuid info)) (actionUUIDForLink r);
     actionNameForLink :=
       when TAction (Some (itemName info)) (actionNameForLink r);
     actionImageUrl := when TAction (itemImg info) (actionImageUrl r);
     stanceEffectUUID :=
       when TAction
         (if existsb (String.eqb "stance") itemTraits
          then match system_selfEffect_uuid item with
               | Some u => if Js.startsWith u "Compendium." then Some u
                           else stanceEffectUUID r
               | None => stanceEffectUUID r
               end
          else stanceEffectUUID r)
         (stanceEffectUUID r);
     includesStrike := when TAction strikeInside (includesStrike r);
     originatingItemIdForStrike := originatingItemIdForStrike r;
     isConsumableSuggestion :=
       when TConsumable true (isConsumableSuggestion r);
     consumableNameForButton :=
       when TConsumable (Some (itemName info)) (consumableNameForButton r);
     consumableImageUrl := when TConsumable (itemImg info) (consumableImageUrl r);
     consumableItemUUID :=
       when TConsumable (Some (uuid info)) (consumableItemUUID r);
     actualActionCost := cost;
     costSource :=
       if jsval_eqb cost JNull then costSource r
       else when TConsumable "Consumable Item" "Action/Feat/Spell Item";
     traits :=
       match ty with
       | TStrike => withAttack itemTraits
       | TAction => if strikeInside then withAttack itemTraits else itemTraits
       | _ => itemTraits
       end;
     modifiedDescriptionWithActionLink := modifiedDescriptionWithActionLink r;
     isCombo := isCombo r |}.

Definition withCostSource (r : IdentifyResult) (source : string)
  : IdentifyResult :=
  {| isSpellSuggestion := isSpellSuggestion r;
     spellIdForButton := spellIdForButton r;
     entryIdForButton := entryIdForButton r;
     spellNameForButton := spellNameForButton r;
     spellImageUrl := spellImageUrl r; spellLinkUUID := spellLinkUUID r;
     spellIsItem := spellIsItem r; spellRankForButton := spellRankForButton r;
     isStrikeSuggestion := isStrikeSuggestion r;
     strikeIdentifierForButton := strikeIdentifierForButton r;
     strikeNameForButton := strikeNameForButton r;
     strikeImageUrl := strikeImageUrl r; strikeLinkUUID := strikeLinkUUID r;
     isGenericActionSuggestion := isGenericActionSuggestion r;
     actionUUIDForLink := actionUUIDForLink r;
     actionNameForLink := actionNameForLink r;
     actionImageUrl := actionImageUrl r;
     stanceEffectUUID := stanceEffectUUID r;
     includesStrike := includesStrike r;
     originatingItemIdForStrike := originatingItemIdForStrike r;
     isConsumableSuggestion := isConsumableSuggestion r;
     consumableNameForButton := consumableNameForButton r;
     consumableImageUrl := consumableImageUrl r;
     consumableItemUUID := consumableItemUUID r;
     actualActionCost := actualActionCost r; costSource := source;
     traits := traits r;
     modifiedDescriptionWithActionLink := modifiedDescriptionWithActionLink r;
     isCombo := isCombo r |}.

Definition withTraits (r : IdentifyResult) (ts : list string)
  : IdentifyResult :=
  {| isSpellSuggestion := isSpellSuggestion r;
     spellIdForButton := spellIdForButton r;
     entryIdForButton := entryIdForButton r;
     spellNameForButton := spellNameForButton r;
     spellImageUrl := spellImageUrl r; spellLinkUUID := spellLinkUUID r;
     spellIsItem := spellIsItem r; spellRankForButton := spellRankForButton r;
     isStrikeSuggestion := isStrikeSuggestion r;
     strikeIdentifierForButton := strikeIdentifierForButton r;
     strikeNameForButton := strikeNameForButton r;
     strikeImageUrl := strikeImageUrl r; strikeLinkUUID := strikeLinkUUID r;
     isGenericActionSuggestion := isGenericActionSuggestion r;
     actionUUIDForLink := actionUUIDForLink r;
     actionNameForLink := actionNameForLink r;
     actionImageUrl := actionImageUrl r;
     stanceEffectUUID := stanceEffectUUID r;
     includesStrike := includesStrike r;
     originatingItemIdForStrike := originatingItemIdForStrike r;
     isConsumableSuggestion := isConsumableSuggestion r;
     consumableNameForButton := consumableNameForButton r;
     consumableImageUrl := consumableImageUrl r;
     consumableItemUUID := consumableItemUUID r;
     actualActionCost := actualActionCost r; costSource := costSource r;
     traits := ts;
     modifiedDescriptionWithActionLink := modifiedDescriptionWithActionLink r;
     isCombo := isCombo r |}.

Definition withLinkAndCombo (r : IdentifyResult) (linked : string)
  (combo : bool) : IdentifyResult :=
  {| isSpellSuggestion := isSpellSuggestion r;
     spellIdForButton := spellIdForButton r;
     entryIdForButton := entryIdForButton r;
     spellNameForButton := spellNameForButton r;
     spellImageUrl := spellImageUrl r; spellLinkUUID := spellLinkUUID r;
     spellIsItem := spellIsItem r; spellRankForButton := spellRankForButton r;
     isStrikeSuggestion := isStrikeSuggestion r;
     strikeIdentifierForButton := strikeIdentifierForButton r;
     strikeNameForButton := strikeNameForButton r;
     strikeImageUrl := strikeImageUrl r; strikeLinkUUID := strikeLinkUUID r;
     isGenericActionSuggestion := isGenericActionSuggestion r;
     actionUUIDForLink := actionUUIDForLink r;
     actionNameForLink := actionNameForLink r;
     actionImageUrl := actionImageUrl r;
     stanceEffectUUID := stanceEffectUUID r;
     includesStrike := includesStrike r;
     originatingItemIdForStrike := originatingItemIdForStrike r;
     isConsumableSuggestion := isConsumableSuggestion r;
     consumableNameForButton := consumableNameForButton r;
     consumableImageUrl := consumableImageUrl r;
     consumableItemUUID := consumableItemUUID r;
     actualActionCost := actualActionCost r; costSource := costSource r;
     traits := traits r;
     modifiedDescriptionWithActionLink := linked;
     isCombo := combo |}.

(** Steps 4 to 6 and the combo flag, from the confirmed matches. *)
Definition resultFromMatches (game : Game) (actor : Actor)
  (cleanedDescription : string) (confirmed : list PotentialMatch)
  : IdentifyResult :=
  let confirmed := jsSort byStartIndex confirmed in
  let descriptionLower := Js.toLowerCase cleanedDescription in
  let r := initialResult cleanedDescription in
  let r :=
    match primaryActionInfo confirmed with
    | Some info =>
        match fullPrimaryItem game actor info with
        | Some item => populateFromItem game cleanedDescription r info item
        | None => withCostSource r "LLM"
        end
    | None =>
        let r := withCostSource r "LLM" in
        if Js.includes descriptionLower "strike"
           || Js.includes descriptionLower "attack"
        then withTraits r (withAttack (traits r))
        else r
    end in
  withLinkAndCombo r (linkDescription cleanedDescription confirmed)
    (negb (isFlurry cleanedDescription)
     && Re.test ResolveRe.combinator cleanedDescription
     && Nat.ltb 1 (List.length confirmed)).

(** [identifySuggestionTypeAndCost(description, actor, gameState)];
    [None] stands for a call that never returns. *)
Definition identifySuggestionTypeAndCost (game : Game) (description : string)
  (actor : Actor) (gameState : GameState) : option IdentifyResult :=
  let cleanedDescription := cleanDescription description in
  if negb (Js.truthy cleanedDescription)
  then Some (initialResult cleanedDescription)
  else
    let masterItemList := getMasterList actor gameState in
    let special :=
      if isFlurry cleanedDescription then bestEligibleStrike gameState
      else None in
    match special with
    | Some best => Some (flurryResult cleanedDescription best)
    | None =>
        resultFromMatches game actor cleanedDescription
          <$> confirmedMatches cleanedDescription masterItemList
    end.

(* ===================================================================== *)
(** ** Turn state and the actor's flags *)
(* ===================================================================== *)

(** An entry of [successfulStrikesThisRound]. *)
Record StrikeRecord : Type := mkStrikeRecord {
  targetName : option string;
  strikeName : option string
}.

(** The object stored under the [turnState] flag.  The fields
    [actionsTaken], [history], [lastSuggestion] and [lastGameState] of the
    initial object are never read and are left out; a missing array is the
    empty list. *)
Record TurnState : Type := mkTurnState {
  actionsRemaining : Z;
  stunnedValueAtStart : option Z;
  slowedValueAtStart : option Z;
  currentMAP : option Z;
  actionsTakenDescriptions : list string;
  narrativesTaken : list string;
  manualNotes : option string;
  successfulStrikesThisRound : list StrikeRecord
}.

Definition setActionsRemaining (ts : TurnState) (n : Z) : TurnState :=
  mkTurnState n (stunnedValueAtStart ts) (slowedValueAtStart ts)
    (currentMAP ts) (actionsTakenDescriptions ts) (narrativesTaken ts)
    (manualNotes ts) (successfulStrikesThisRound ts).

Definition setCurrentMAP (ts : TurnState) (m : option Z) : TurnState :=
  mkTurnState (actionsRemaining ts) (stunnedValueAtStart ts)
    (slowedValueAtStart ts) m (actionsTakenDescriptions ts)
    (narrativesTaken ts) (manualNotes ts) (successfulStrikesThisRound ts).

Definition setManualNotes (ts : TurnState) (n : option string) : TurnState :=
  mkTurnState (actionsRemaining ts) (stunnedValueAtStart ts)
    (slowedValueAtStart ts) (currentMAP ts) (actionsTakenDescriptions ts)
    (narrativesTaken ts) n (successfulStrikesThisRound ts).

Definition setConditionsAtStart (ts : TurnState) (stunned slowed : option Z)
  : TurnState :=
  mkTurnState (actionsRemaining ts) stunned slowed (currentMAP ts)
    (actionsTakenDescriptions ts) (narrativesTaken ts) (manualNotes ts)
    (successfulStrikesThisRound ts).

(** A value kept in the flags of the module on the actor. *)
Inductive FlagValue : Type :=
| FTurnState (ts : TurnState)
| FBool (b : bool)
| FStrikes (l : list Descriptor).

(** The flags of the module on one actor, by key. *)
Abbreviation Flags := (gmap string FlagValue).

Module FLAGS.
Definition TURN_STATE : string := "turnState".
Definition IS_PROCESSING : string := "isProcessing".
Definition CACHED_STRIKES : string := "cachedStrikes".
End FLAGS.

(** [actor.getFlag(MODULE_ID, FLAGS.TURN_STATE)] *)
Definition getTurnState (flags : Flags) : option TurnState :=
  match flags !! FLAGS.TURN_STATE with
  | Some (FTurnState ts) => Some ts
  | _ => None
  end.

(** [actor.getFlag(MODULE_ID, FLAGS.IS_PROCESSING)] read as a condition *)
Definition isProcessing (flags : Flags) : bool :=
  match flags !! FLAGS.IS_PROCESSING with
  | Some (FBool b) => b
  | Some _ => true
  | None => false
  end.

(** [clearAITurnFlags(actor)] *)
Definition clearAITurnFlags (flags : Flags) : Flags :=
  delete FLAGS.CACHED_STRIKES
    (delete FLAGS.IS_PROCESSING (delete FLAGS.TURN_STATE flags)).

(** The MAP that follows [currentMAP] after an attack. *)
Definition nextMAP (currentMAP : Z) (isAgile : bool) : Z :=
  let penaltyIncrement := if isAgile then 4 else 5 in
  if currentMAP =? 0 then penaltyIncrement
  else if (currentMAP =? 4) || (currentMAP =? 5)
  then (if isAgile then 8 else 10)
  else (if isAgile then 8 else 10).

Definition hasTrait (actionTraits : list string) (t : string) : bool :=
  existsb (String.eqb t) actionTraits.

(** [_updateMAPBasedOnTrait(actor, actionTraits)] *)
Definition _updateMAPBasedOnTrait (flags : Flags) (actionTraits : list string)
  : Flags :=
  if negb (hasTrait actionTraits "attack") then flags
  else
    match getTurnState flags with
    | None => flags
    | Some currentTurnState =>
        let currentMAP := default 0 (currentMAP currentTurnState) in
        let isAgile := hasTrait actionTraits "agile" in
        let nextMAP := nextMAP currentMAP isAgile in
        if negb (nextMAP =? currentMAP)
        then <[FLAGS.TURN_STATE :=
                 FTurnState (setCurrentMAP currentTurnState (Some nextMAP))]>
               flags
        else flags
    end.

(** [_onManualMAPAdjust(event)]: [mapValue] is what [parseInt] made of the
    radio button ([None] for [NaN]), [isCurrentTurn] whether the combatant
    of the button is the one whose turn it is. *)
Definition _onManualMAPAdjust (flags : Flags) (mapValue : option Z)
  (isCurrentTurn : bool) : Flags :=
  match mapValue with
  | None => flags
  | Some mapValue =>
      if negb (existsb (Z.eqb mapValue) [0; 4; 5; 8; 10]) then flags
      else if negb isCurrentTurn || negb (isProcessing flags) then flags
      else
        match getTurnState flags with
        | None => flags
        | Some currentTurnState =>
            if bool_decide (currentMAP currentTurnState = Some mapValue)
            then flags
            else <[FLAGS.TURN_STATE :=
                     FTurnState (setCurrentMAP currentTurnState (Some mapValue))]>
                   flags
        end
  end.

(** The turn state written by [_onAcceptControlClick]. *)
Definition acceptedTurnState : TurnState :=
  {| actionsRemaining := 3; stunnedValueAtStart := None;
     slowedValueAtStart := None; currentMAP := Some 0;
     actionsTakenDescriptions := []; narrativesTaken := [];
     manualNotes := Some ""; successfulStrikesThisRound := [] |}.

(** The turn state with which [requestNextAISuggestion] starts a turn. *)
Definition initialTurnState (manualNotes : option string) : TurnState :=
  {| actionsRemaining := 3; stunnedValueAtStart := Some 0;
     slowedValueAtStart := Some 0; currentMAP := Some 0;
     actionsTakenDescriptions := []; narrativesTaken := [];
     manualNotes := Some (match Js.or_else manualNotes None with
                          | Some n => n
                          | None => ""
                          end);
     successfulStrikesThisRound := [] |}.

(** [conditions.find(c => c.name.toLowerCase().startsWith(prefix))?.value ?? 0] *)
Definition conditionValue (conditions : list Condition) (prefix : string) : Z :=
  match List.find (fun c => Js.startsWith (Js.toLowerCase (c_name c)) prefix)
          conditions with
  | Some c => default 0 (c_value c)
  | None => 0
  end.

(** The recalculation at the start of a turn:
    [Math.max(0, 3 - Math.max(stunned, slowed))]. *)
Definition calculatedStartActions (conditions : list Condition) : Z :=
  let defaultActions := 3 in
  let currentStunnedValue := conditionValue conditions "stunned" in
  let currentSlowedValue := conditionValue conditions "slowed" in
  let maxConditionValue := Z.max currentStunnedValue currentSlowedValue in
  Z.max 0 (defaultActions - maxConditionValue).

Definition recalculateStart (turnState : TurnState)
  (conditions : list Condition) : TurnState :=
  setConditionsAtStart
    (setActionsRemaining turnState (calculatedStartActions conditions))
    (Some (conditionValue conditions "stunned"))
    (Some (conditionValue conditions "slowed")).

(* ===================================================================== *)
(** ** Prerequisite checks *)
(* ===================================================================== *)

Module PrereqRe.
Import Re.

(** [/rend,\s*([^()]+)/i] and its three siblings *)
Definition target_after (verb : string) : regex :=
  cat [liti verb; chr ","; star space; RCap 1 (plus (none_of "()"))].

(** The source of the pattern for a successful strike of the actor with
    an attack effect, the template literal
    [`^${actorName}:.*->\\s+(Success|CriticalSuccess).*\\(plus Grab\\)`]:
    the name of the actor goes into the source as it is. *)
Definition successful_strike (actorName effect : string) : string :=
  "^" +:+ actorName +:+ ":.*->\s+(Success|CriticalSuccess).*\(plus "
  +:+ effect +:+ "\)".

End PrereqRe.

(** What the prerequisite block of [requestNextAISuggestion] decides;
    [PatternRefused] is the [SyntaxError] thrown by [new RegExp] for the
    source built from the name of the actor. *)
Inductive Prerequisite : Type :=
| NotApplicable
| CheckPassed
| CheckSkipped
| CheckFailed (skipped : string)
| PatternRefused (source : string).

(** [identifyResult.actionNameForLink || identifyResult.strikeNameForButton
    || identifyResult.spellNameForButton
    || identifyResult.consumableNameForButton] *)
Definition resolvedActionName (identifyResult : IdentifyResult)
  : option string :=
  Js.or_else (actionNameForLink identifyResult)
    (Js.or_else (strikeNameForButton identifyResult)
       (Js.or_else (spellNameForButton identifyResult)
          (consumableNameForButton identifyResult))).

(** [description.match(/verb,\s*([^()]+)/i)?.[1]?.trim()], when it is not
    empty. *)
Definition targetNameAfter (verb description : string) : option string :=
  trim_or_null (Re.match_group (PrereqRe.target_after verb) description 1).

Definition eq_lower (x : option string) (y : string) : bool :=
  match x with
  | Some s => String.eqb (Js.toLowerCase s) (Js.toLowerCase y)
  | None => false
  end.

(** The number of recorded successful Claw strikes against the target. *)
Definition relevantStrikesCount (turnState : TurnState)
  (rendTargetName : string) : nat :=
  List.length
    (filter
       (fun strike =>
          eq_lower (targetName strike) rendTargetName
          && match strikeName strike with
             | Some n => Js.includes (Js.toLowerCase n) (Js.toLowerCase "Claw")
             | None => false
             end)
       (successfulStrikesThisRound turnState)).

(** [recentEvents.some(eventString => { const pattern = new RegExp(source,
    'i'); return pattern.test(eventString); })]: the pattern is built for
    every event that is looked at, so that a source which is refused throws
    at the first event, and not at all when there is no event. *)
Fixpoint someEventMatches (source : string) (events : list string)
  : RegExp.Parsed bool :=
  match events with
  | [] => RegExp.Ok false
  | eventString :: rest =>
      match RegExp.create source true with
      | RegExp.Ok pattern =>
          if RegExp.test pattern eventString then RegExp.Ok true
          else someEventMatches source rest
      | RegExp.SyntaxError reason => RegExp.SyntaxError reason
      end
  end.

(** Whether a recent event is a strike of the actor that succeeded with
    the given attack effect; nothing is looked for when [recentEvents] is
    not an array. *)
Definition foundSuccessfulStrike (actor : Actor) (gameState : GameState)
  (effect : string) : RegExp.Parsed bool :=
  match recentEvents gameState with
  | Some events =>
      someEventMatches (PrereqRe.successful_strike (actor_name actor) effect)
        events
  | None => RegExp.Ok false
  end.

(** Whether the actor is the source of a grabbed or restrained condition
    on the named target. *)
Definition isGrabbingTarget (actor : Actor) (gameState : GameState)
  (grabTargetName : string) : bool :=
  match targets gameState with
  | Some ts =>
      match List.find (fun t => eq_lower (t_name t) grabTargetName) ts with
      | Some targetActorData =>
          match t_conditionsEffects targetActorData with
          | Some conds =>
              existsb
                (fun cond =>
                   (String.eqb (Js.toLowerCase (c_name cond)) "grabbed"
                    || String.eqb (Js.toLowerCase (c_name cond)) "restrained")
                   && bool_decide (c_sourceActorId cond = Some (actor_id actor)))
                conds
          | None => false
          end
      | None => false
      end
  | None => false
  end.

(** The prerequisite validation of [requestNextAISuggestion]. *)
Definition checkPrerequisites (actor : Actor) (gameState : GameState)
  (turnState : TurnState) (description : string)
  (identifyResult : IdentifyResult) : Prerequisite :=
  match resolvedActionName identifyResult with
  | None => NotApplicable
  | Some primaryActionName =>
    let name := Js.toLowerCase primaryActionName in
    if String.eqb name "rend" then
      match targetNameAfter "rend" description with
      | Some rendTargetName =>
          let count := relevantStrikesCount turnState rendTargetName in
          if Nat.ltb count 2
          then CheckFailed ("Rend (Failed Prereq: "
                            +:+ Js.string_of_nat count +:+ "/2 Claw hits)")
          else CheckPassed
      | None => CheckSkipped
      end
    else if String.eqb name "grab" then
      match targetNameAfter "grab" description with
      | Some grabTargetName =>
          match foundSuccessfulStrike actor gameState "Grab" with
          | RegExp.Ok foundSuccessfulGrabStrike =>
              if foundSuccessfulGrabStrike
                 || isGrabbingTarget actor gameState grabTargetName
              then CheckPassed
              else CheckFailed "Grab (Failed Prereqs)"
          | RegExp.SyntaxError _ =>
              PatternRefused
                (PrereqRe.successful_strike (actor_name actor) "Grab")
          end
      | None => CheckSkipped
      end
    else if String.eqb name "trip" then
      match targetNameAfter "trip" description with
      | Some _ =>
          match foundSuccessfulStrike actor gameState "Knockdown" with
          | RegExp.Ok true => CheckPassed
          | RegExp.Ok false => CheckFailed "Trip (Failed Prereqs)"
          | RegExp.SyntaxError _ =>
              PatternRefused
                (PrereqRe.successful_strike (actor_name actor) "Knockdown")
          end
      | None => CheckSkipped
      end
    else if String.eqb name "shove" then
      match targetNameAfter "shove" description with
      | Some _ =>
          match foundSuccessfulStrike actor gameState "Push" with
          | RegExp.Ok true => CheckPassed
          | RegExp.Ok false => CheckFailed "Shove (Failed Prereqs)"
          | RegExp.SyntaxError _ =>
              PatternRefused
                (PrereqRe.successful_strike (actor_name actor) "Push")
          end
      | None => CheckSkipped
      end
    else NotApplicable
  end.

(* ===================================================================== *)
(** ** The request cycle *)
(* ===================================================================== *)

Module CycleRe.
Import Re.

(** [/\\n/g]: a backslash followed by the letter n *)
Definition escaped_newline : regex := cat [chr "\"; chr "n"].

(** [/^(?:Cast|Activate|Use|Strike:)?\s*(?:Q?)([^:Q(]+?)\1?(?:Q?)\s*(?:[:(]|$)/i]
    where [Q] stands for the two quote characters *)
Definition suggested_action : regex :=
  let quote := RSet (fun c => Js.char_eqb c "'"
                              || Js.char_eqb c ResolveRe.dquote) in
  let name_part :=
    RSet (fun c => negb (Js.char_eqb c ":" || Js.char_eqb c "'"
                         || Js.char_eqb c ResolveRe.dquote
                         || Js.char_eqb c "(")) in
  cat [RStart;
       opt (alt [liti "Cast"; liti "Activate"; liti "Use"; liti "Strike:"]);
       star space; opt quote; RCap 1 (lazy_plus name_part);
       opt (RBack true 1); opt quote; star space;
       alt [one_of ":("; REnd]].

(** [/^\s*\**LABEL\**.*$/im] *)
Definition label_line (label : string) : regex :=
  cat [RLineStart; star space; star (chr "*"); liti label; star (chr "*");
       star dot; RLineEnd].

End CycleRe.

(** What the cycle reads from the world around it.  [gathered] is the
    snapshot returned by [gatherGameState] ([None] when it throws),
    [turnIsCurrent] whether the combatant is still the one whose turn it
    is, [llmConfigured] whether the key, endpoint and model are set,
    [syntaxErrorMessage source] the [message] of the [SyntaxError] that
    [new RegExp(source, 'i')] throws when it refuses [source]. *)
Record Env : Type := mkEnv {
  game : Game;
  actor : Actor;
  turnIsCurrent : bool;
  gathered : option GameState;
  llmConfigured : bool;
  syntaxErrorMessage : string -> string
}.

(** The suggestion posted to the chat: what the card shows and what its
    Confirm button carries. *)
Record SuggestionCard : Type := mkCard {
  card_description : string;
  data_action_cost : jsval;
  data_action_desc : string;
  card_actionsRemaining : Z;
  card_currentMAP : Z
}.

Inductive Purpose : Type := ForSuggestion | ForSummary.

(** What a cycle does to the world, in order. *)
Inductive Event : Type :=
| ChatThinking (actionsRemaining currentMAP : Z)
| ThinkingDeleted
| ChatZeroActionStart (stunned slowed : Z)
| ChatTurnComplete (actions : list string)
| ChatSuggestion (card : SuggestionCard)
| LLMCalled (purpose : Purpose) (skippedAction : option string)
| NotifyError (message : string).

(** How the treatment of one reply ends. *)
Inductive CycleResult : Type :=
| Shown (card : SuggestionCard)
| Retry (skippedAction : string) (updatedTurnState : option TurnState)
| Thrown (message : string)
| NeverReturns.

(** The reply once parsed, with the fallback for a reply that has
    neither [ACTION:] nor [COST:]; [None] is the error thrown for a reply
    that cannot be parsed. *)
Definition parseReply (llmResponseContent : string)
  : option ParsedSuggestion :=
  let parsedSuggestion := parseLLMSuggestion llmResponseContent in
  let hasDescription :=
    match parsedSuggestion with
    | Some p => Js.truthy (description p)
    | None => false
    end in
  if hasDescription then parsedSuggestion
  else
    let upper := Js.toUpperCase llmResponseContent in
    if Js.truthy llmResponseContent
       && Nat.ltb 0 (String.length (Js.trim llmResponseContent))
       && negb (Js.includes upper "ACTION:")
       && negb (Js.includes upper "COST:")
    then Some {| description := Js.trim llmResponseContent;
                 target := None; cost := JNum 1;
                 rationale :=
                   Some "LLM response format unclear, assuming 1 action.";
                 narrative := None |}
    else None.

(** [s.replace(pattern, '')] for a string pattern: the first occurrence. *)
Definition removeFirst (s pattern : string) : string :=
  match Js.indexOf s pattern 0 with
  | Some i =>
      Js.substring s 0 i +:+ Js.substring_from s (i + String.length pattern)
  | None => s
  end.

(** Whether the suggestion names an ability that is only passive. *)
Definition suggestsPassiveOnly (selfInfo : SelfInfo) (description : string)
  : option bool :=
  names ← mapM d_name (passiveAbilities selfInfo);
  let passiveAbilityNamesLower :=
    map (fun n => Js.trim (removeFirst (Js.toLowerCase n) " (aura)")) names in
  match trim_or_null
          (Re.match_group CycleRe.suggested_action description 1) with
  | Some n =>
      let suggestedActionNameLower := Js.toLowerCase n in
      if existsb (String.eqb suggestedActionNameLower) passiveAbilityNamesLower
      then
        activatable ← mapM d_name (_actionsAndActionFeatsList selfInfo);
        Some (negb (existsb (String.eqb suggestedActionNameLower)
                      (map Js.toLowerCase activatable)))
      else Some false
  | None => Some false
  end.

(** The number of actions the validation charges for a cost. *)
Definition numericCostForValidation (authoritativeCost : jsval) : Z :=
  if is_str authoritativeCost "R" || is_str authoritativeCost "F" then 0
  else
    match authoritativeCost with
    | JStr s =>
        if Js.includes s "to"
        then match Js.indexOf s " to " 0 with
             | Some i => default 1 (Js.parseInt (Js.substring s 0 i))
             | None => default 1 (Js.parseInt s)
             end
        else default 1 (Js.parseInt s)
    | _ => default 1 (parseInt_val authoritativeCost)
    end.

(** The message of the error thrown when the cost exceeds what is left. *)
Definition costOverrunMessage (authoritativeCost : jsval)
  (numericCost actionsRemaining : Z) : string :=
  "Suggested action requires " +:+ to_string authoritativeCost
  +:+ " actions (minimum " +:+ Js.string_of_Z numericCost
  +:+ "), but only " +:+ Js.string_of_Z actionsRemaining +:+ " remaining.".

(** The rationale without its [ACTION:] and [COST:] lines. *)
Definition cleanRationale (rationale : option string) : option string :=
  match rationale with
  | Some r =>
      if Js.truthy r
      then Some (Js.trim (Re.replace (CycleRe.label_line "COST:")
                            (Re.replace (CycleRe.label_line "ACTION:") r "")
                            ""))
      else rationale
  | None => None
  end.

Definition appendPart (label : string) (part : option string) (s : string)
  : string :=
  match part with
  | Some p => if Js.truthy p then s +:+ " | " +:+ label +:+ ": " +:+ p else s
  | None => s
  end.

(** [fullDescriptionForEncoding] *)
Definition fullDescriptionForEncoding (p : ParsedSuggestion)
  (description : string) (rationale : option string) : string :=
  appendPart "NARRATIVE" (narrative p)
    (appendPart "Rationale" rationale
       (appendPart "TARGET" (target p) description)).

(** The end of the [try] block, once the suggestion passed the
    prerequisite block: the authoritative cost, its validation against the
    remaining actions and the suggestion card. *)
Definition finishSuggestion (turnState : TurnState)
  (parsedSuggestion : ParsedSuggestion) (description : string)
  (identifyResult : IdentifyResult) : CycleResult :=
  let linked :=
    if Js.truthy (modifiedDescriptionWithActionLink identifyResult)
    then modifiedDescriptionWithActionLink identifyResult
    else description in
  let linked :=
    match stanceEffectUUID identifyResult with
    | Some u =>
        if isGenericActionSuggestion identifyResult && Js.truthy u
        then linked +:+ " @UUID[" +:+ u +:+ "]{(Apply Effect)}"
        else linked
    | None => linked
    end in
  let description := Js.trim linked in
  let authoritativeCost :=
    determineAuthoritativeCost identifyResult (cost parsedSuggestion) in
  let numericCost := numericCostForValidation authoritativeCost in
  if (0 <? numericCost) && (actionsRemaining turnState <? numericCost)
  then Thrown (costOverrunMessage authoritativeCost numericCost
                 (actionsRemaining turnState))
  else
    let rationale := cleanRationale (rationale parsedSuggestion) in
    Shown {| card_description := description;
             data_action_cost := authoritativeCost;
             data_action_desc :=
               fullDescriptionForEncoding parsedSuggestion description
                 rationale;
             card_actionsRemaining := actionsRemaining turnState;
             card_currentMAP := default 0 (currentMAP turnState) |}.

(** The description of a parsed suggestion with its escaped newlines
    turned into spaces. *)
Definition suggestedDescription (parsedSuggestion : ParsedSuggestion)
  : string :=
  Js.trim (Re.replace_all CycleRe.escaped_newline
             (description parsedSuggestion) " ").

(** Everything [requestNextAISuggestion] does with the reply of the
    language model, up to the suggestion card. *)
Definition processReply (env : Env) (gameState : GameState)
  (selfInfo : SelfInfo) (turnState : TurnState)
  (llmResponseContent : string) : CycleResult :=
  match parseReply llmResponseContent with
  | None => Thrown "LLM response could not be parsed into ACTION/COST format."
  | Some parsedSuggestion =>
    let description := suggestedDescription parsedSuggestion in
    match suggestsPassiveOnly selfInfo description with
    | None => Thrown "Cannot read properties of undefined"
    | Some true => Retry description None
    | Some false =>
      match identifySuggestionTypeAndCost (game env) description (actor env)
              gameState with
      | None => NeverReturns
      | Some identifyResult =>
        match checkPrerequisites (actor env) gameState turnState description
                identifyResult with
        | CheckFailed skipped => Retry skipped (Some turnState)
        | PatternRefused source => Thrown (syntaxErrorMessage env source)
        | NotApplicable | CheckPassed | CheckSkipped =>
            finishSuggestion turnState parsedSuggestion description
              identifyResult
        end
      end
    end
  end.

(** [turnState.manualNotes] *)
Definition notesOf (turnState : TurnState) : option string :=
  manualNotes turnState.

(** The turn state a call works on: a fresh one, or the one passed in. *)
Definition enteringTurnState (manualNotes : option string)
  (updatedTurnState : option TurnState) : TurnState :=
  let turnState :=
    match updatedTurnState with
    | None => initialTurnState manualNotes
    | Some ts =>
        let ts := setConditionsAtStart ts
                    (Some (default 0 (stunnedValueAtStart ts)))
                    (Some (default 0 (slowedValueAtStart ts))) in
        match manualNotes with
        | Some n => if Js.truthy n && Js.truthy (Js.trim n)
                    then setManualNotes ts (Some (Js.trim n)) else ts
        | None => ts
        end
    end in
  let turnState :=
    match currentMAP turnState with
    | None => setCurrentMAP turnState (Some 0)
    | Some _ => turnState
    end in
  match notesOf turnState with
  | None => setManualNotes turnState (Some "")
  | Some _ => turnState
  end.

(** What the [catch] block does with a thrown error. *)
Definition surfaceError (flags : Flags) (message : string)
  : Flags * list Event :=
  (clearAITurnFlags flags,
   [NotifyError ("PF2e AI Combat Assistant Error: " +:+ message);
    ThinkingDeleted]).

(** The turn state a call validates against: at the start of a turn the
    remaining actions are recalculated from the conditions of the snapshot. *)
Definition workingTurnState (manualNotes : option string)
  (updatedTurnState : option TurnState) (conditions : list Condition)
  : TurnState :=
  let turnState := enteringTurnState manualNotes updatedTurnState in
  match updatedTurnState with
  | None => recalculateStart turnState conditions
  | Some _ => turnState
  end.

(** How one pass through the body of [requestNextAISuggestion] ends: it
    is over, it calls itself again (for another suggestion), or it never
    comes back. *)
Inductive Pass : Type :=
| Over (flags : Flags) (events : list Event)
| Again (flags : Flags) (events : list Event) (skippedAction : string)
    (manualNotes : option string) (updatedTurnState : option TurnState)
| Stuck.

(** The body of [requestNextAISuggestion] up to its recursive call.
    [reply] is what [callLLM] answers if it is called: [None] when the call
    fails or answers nothing. *)
Definition requestPass (env : Env) (reply : option string) (flags : Flags)
  (skippedAction manualNotes : option string)
  (updatedTurnState : option TurnState) : Pass :=
  if negb (turnIsCurrent env) then Over (clearAITurnFlags flags) []
  else
    let turnState := enteringTurnState manualNotes updatedTurnState in
    let notesForThisPrompt :=
      match manualNotes with
      | Some n => Some n
      | None => notesOf turnState
      end in
    if actionsRemaining turnState <=? 0 then
      Over (clearAITurnFlags flags)
        ((match gathered env with
          | Some _ =>
              if llmConfigured env then [LLMCalled ForSummary None] else []
          | None => []
          end)
         ++ [ChatTurnComplete (actionsTakenDescriptions turnState)])
    else
      let thinking :=
        ChatThinking (actionsRemaining turnState)
          (default 0 (currentMAP turnState)) in
      let failed (flags : Flags) (before : list Event) (message : string) :=
        let '(flags, events) := surfaceError flags message in
        Over flags (thinking :: before ++ events) in
      match gathered env with
      | None => failed flags [] "Gathered game state was invalid or incomplete."
      | Some currentGameState =>
        match self currentGameState with
        | None =>
            failed flags [] "Gathered game state was invalid or incomplete."
        | Some selfInfo =>
          let turnState :=
            workingTurnState manualNotes updatedTurnState
              (conditionsEffects selfInfo) in
          if actionsRemaining turnState =? 0 then
            Over (clearAITurnFlags flags)
              [thinking;
               ChatZeroActionStart (default 0 (stunnedValueAtStart turnState))
                 (default 0 (slowedValueAtStart turnState));
               ThinkingDeleted]
          else
            let flags :=
              <[FLAGS.CACHED_STRIKES := FStrikes (strikes selfInfo)]> flags in
            if negb (llmConfigured env)
            then failed flags []
                   "LLM API Key, Endpoint, or Model Name not configured."
            else
              let called := LLMCalled ForSuggestion skippedAction in
              match reply with
              | None =>
                  failed flags [called]
                    "Received no valid response content from the LLM."
              | Some llmResponseContent =>
                if negb (Js.truthy llmResponseContent)
                then failed flags [called]
                       "Received no valid response content from the LLM."
                else
                  match processReply env currentGameState selfInfo turnState
                          llmResponseContent with
                  | Shown card =>
                      Over flags
                        [thinking; called; ChatSuggestion card; ThinkingDeleted]
                  | Retry skipped again =>
                      Again flags [thinking; called] skipped
                        notesForThisPrompt again
                  | Thrown message => failed flags [called] message
                  | NeverReturns => Stuck
                  end
              end
        end
      end.

(** [requestNextAISuggestion(combatant, combat, skippedAction, manualNotes,
    updatedTurnState)].  [replies] are the answers of the language model to
    the successive calls; the result is the flags of the actor afterwards
    and what was done, or [None] when the call never returns.  The source
    puts no bound on the number of retries: here they end with the
    replies. *)
Fixpoint requestNextAISuggestion (env : Env) (replies : list (option string))
  (flags : Flags) (skippedAction manualNotes : option string)
  (updatedTurnState : option TurnState) {struct replies}
  : option (Flags * list Event) :=
  match replies with
  | [] =>
      match requestPass env None flags skippedAction manualNotes
              updatedTurnState with
      | Over flags events => Some (flags, events)
      | Again flags events _ _ _ => Some (flags, events)
      | Stuck => None
      end
  | reply :: replies' =>
      match requestPass env reply flags skippedAction manualNotes
              updatedTurnState with
      | Over flags events => Some (flags, events)
      | Again flags events skipped notes again =>
          match requestNextAISuggestion env replies' flags (Some skipped)
                  notes again with
          | Some (flags, later) =>
              Some (flags, events ++ later ++ [ThinkingDeleted])
          | None => None
          end
      | Stuck => None
      end
  end.

(* ===================================================================== *)
(** ** The handlers of the chat buttons *)
(* ===================================================================== *)

(** [_onAcceptControlClick(event)].  [setFlag] merges an object into the
    one already stored under the key; the state written here names
    [actionsRemaining], [currentMAP], [actionsTakenDescriptions] and
    [manualNotes], and the flags are cleared when a turn ends, so the
    stored state is taken to be the object written. *)
Definition _onAcceptControlClick (env : Env) (replies : list (option string))
  (flags : Flags) : option (Flags * list Event) :=
  if negb (turnIsCurrent env) then Some (flags, [])
  else
    let flags := <[FLAGS.IS_PROCESSING := FBool true]> flags in
    let flags := <[FLAGS.TURN_STATE := FTurnState acceptedTurnState]> flags in
    let flags := delete FLAGS.CACHED_STRIKES flags in
    requestNextAISuggestion env replies flags None None None.

(** The description and the narrative that the confirm handler recovers
    from the text carried by the button. *)
Definition splitActionDescription (actionDescription : string)
  : string * string :=
  let narrativeSeparator := " | NARRATIVE: " in
  let rationaleSeparator := " | Rationale: " in
  let '(cleanedActionDesc, narrativeForThisAction) :=
    match Js.indexOf actionDescription narrativeSeparator 0 with
    | Some narrativeIndex =>
        (Js.trim (Js.substring actionDescription 0 narrativeIndex),
         Js.trim (Js.substring_from actionDescription
                    (narrativeIndex + String.length narrativeSeparator)))
    | None => (actionDescription, "")
    end in
  let rationaleIndex := Js.indexOf cleanedActionDesc rationaleSeparator 0 in
  let cleanedActionDesc :=
    match rationaleIndex with
    | Some i => Js.trim (Js.substring cleanedActionDesc 0 i)
    | None => cleanedActionDesc
    end in
  match rationaleIndex with
  | None =>
      if negb (Js.truthy narrativeForThisAction) then
        match parseLLMSuggestion actionDescription with
        | Some tempParsed =>
            (if Js.truthy (description tempParsed)
             then description tempParsed else cleanedActionDesc,
             match Js.or_else (narrative tempParsed) None with
             | Some n => n
             | None => ""
             end)
        | None => (cleanedActionDesc, narrativeForThisAction)
        end
      else (cleanedActionDesc, narrativeForThisAction)
  | Some _ => (cleanedActionDesc, narrativeForThisAction)
  end.

(** The state saved by the confirm handler, before the MAP update. *)
Definition confirmedTurnState (currentTurnState : TurnState)
  (actionCostForValidation : Z) (actionDescription : string) : TurnState :=
  let newActionsRemaining :=
    Z.max 0 (actionsRemaining currentTurnState - actionCostForValidation) in
  let '(cleanedActionDesc, narrativeForThisAction) :=
    splitActionDescription actionDescription in
  {| actionsRemaining := newActionsRemaining;
     stunnedValueAtStart := stunnedValueAtStart currentTurnState;
     slowedValueAtStart := slowedValueAtStart currentTurnState;
     currentMAP := currentMAP currentTurnState;
     actionsTakenDescriptions :=
       actionsTakenDescriptions currentTurnState ++ [cleanedActionDesc];
     narrativesTaken :=
       filter (fun n => Js.truthy n)
         (narrativesTaken currentTurnState ++ [narrativeForThisAction]);
     manualNotes := Some "";
     successfulStrikesThisRound :=
       successfulStrikesThisRound currentTurnState |}.

(** The flags as the confirm handler leaves them before it asks for the
    next suggestion: the new state is saved, then the penalty is advanced
    by the traits of the confirmed action. *)
Definition confirmedFlags (flags : Flags) (currentTurnState : TurnState)
  (actionCostForValidation : Z) (actionDescription : string)
  (identifiedTraits : list string) : Flags :=
  let newTurnState :=
    confirmedTurnState currentTurnState actionCostForValidation
      actionDescription in
  let flags := <[FLAGS.TURN_STATE := FTurnState newTurnState]> flags in
  _updateMAPBasedOnTrait flags identifiedTraits.

(** [_onConfirmActionClick(event)]: [actionCost] and [actionDescription]
    are the data of the button, [notes] the content of the notes field. *)
Definition _onConfirmActionClick (env : Env) (replies : list (option string))
  (flags : Flags) (actionCost : jsval) (actionDescription notes : string)
  : option (Flags * list Event) :=
  let actionCostForValidation := parseInt_val actionCost in
  if negb (turnIsCurrent env) then Some (clearAITurnFlags flags, [])
  else
    match getTurnState flags with
    | None =>
        Some (clearAITurnFlags flags,
              [NotifyError
                 "PF2e AI Combat Assistant Confirm Error: Turn state flag missing!"])
    | Some currentTurnState =>
      let costError :=
        Some (flags,
              [NotifyError
                 ("PF2e AI Combat Assistant Confirm Error: Action cost ("
                  +:+ match actionCostForValidation with
                      | Some n => Js.string_of_Z n
                      | None => "NaN"
                      end
                  +:+ ") is invalid or exceeds remaining actions ("
                  +:+ Js.string_of_Z (actionsRemaining currentTurnState)
                  +:+ ").")]) in
      match actionCostForValidation with
      | None => costError
      | Some cost =>
        if (cost <? 0) || (actionsRemaining currentTurnState <? cost)
        then costError
        else
          match identifySuggestionTypeAndCost (game env) actionDescription
                  (actor env) emptyGameState with
          | None => None
          | Some identifyResult =>
            let identifiedTraits := traits identifyResult in
            let newTurnState :=
              confirmedTurnState currentTurnState cost actionDescription in
            let flags :=
              confirmedFlags flags currentTurnState cost actionDescription
                identifiedTraits in
            requestNextAISuggestion env replies flags None (Some notes)
              (Some newTurnState)
          end
      end
    end.

(** [_onSkipActionClick(event)] *)
Definition _onSkipActionClick (env : Env) (replies : list (option string))
  (flags : Flags) (skippedActionDescription notes : string)
  : option (Flags * list Event) :=
  if negb (turnIsCurrent env) then Some (clearAITurnFlags flags, [])
  else
    match getTurnState flags with
    | Some currentTurnState =>
        if negb (isProcessing flags)
        then Some (clearAITurnFlags flags,
                   [NotifyError
                      "PF2e AI Combat Assistant Skip Error: AI state is missing or not active!"])
        else
          let updatedTurnState := setManualNotes currentTurnState (Some notes) in
          let flags :=
            <[FLAGS.TURN_STATE := FTurnState updatedTurnState]> flags in
          requestNextAISuggestion env replies flags
            (Some skippedActionDescription) (Some notes) (Some updatedTurnState)
    | None =>
        Some (clearAITurnFlags flags,
              [NotifyError
                 "PF2e AI Combat Assistant Skip Error: AI state is missing or not active!"])
    end.

(** [_onRetryTurnClick(event)] *)
Definition _onRetryTurnClick (env : Env) (replies : list (option string))
  (flags : Flags) : option (Flags * list Event) :=
  if negb (turnIsCurrent env) then Some (flags, [])
  else requestNextAISuggestion env replies flags None None None.

(** The part of [handleChatMessage] that records a successful attack roll
    of the actor. *)
Definition recordSuccessfulStrike (flags : Flags)
  (targetTokenName actionName : string) : Flags :=
  match getTurnState flags with
  | Some currentTurnState =>
      <[FLAGS.TURN_STATE :=
          FTurnState
            {| actionsRemaining := actionsRemaining currentTurnState;
               stunnedValueAtStart := stunnedValueAtStart currentTurnState;
               slowedValueAtStart := slowedValueAtStart currentTurnState;
               currentMAP := currentMAP currentTurnState;
               actionsTakenDescriptions :=
                 actionsTakenDescriptions currentTurnState;
               narrativesTaken := narrativesTaken currentTurnState;
               manualNotes := manualNotes currentTurnState;
               successfulStrikesThisRound :=
                 successfulStrikesThisRound currentTurnState
                 ++ [mkStrikeRecord (Some targetTokenName) (Some actionName)] |}]>
        flags
  | None => flags
  end.

(** ** The turn state machine *)

(** What can happen to the flags of an actor during its turn. *)
Inductive Input : Type :=
| AcceptControl
| ConfirmAction (actionCost : jsval) (actionDescription notes : string)
| SkipAction (skippedActionDescription notes : string)
| ManualMAPAdjust (mapValue : option Z)
| SuccessfulStrike (targetTokenName actionName : string)
| RetryTurn
| EndTurn.

(** One input, in the environment and with the replies of that moment. *)
Definition handle (env : Env) (replies : list (option string))
  (input : Input) (flags : Flags) : option (Flags * list Event) :=
  match input with
  | AcceptControl => _onAcceptControlClick env replies flags
  | ConfirmAction actionCost actionDescription notes =>
      _onConfirmActionClick env replies flags actionCost actionDescription notes
  | SkipAction skipped notes => _onSkipActionClick env replies flags skipped notes
  | ManualMAPAdjust mapValue =>
      Some (_onManualMAPAdjust flags mapValue (turnIsCurrent env), [])
  | SuccessfulStrike targetTokenName actionName =>
      Some (if turnIsCurrent env
            then recordSuccessfulStrike flags targetTokenName actionName
            else flags, [])
  | RetryTurn => _onRetryTurnClick env replies flags
  | EndTurn => Some (clearAITurnFlags flags, [])
  end.

(** A whole session: the inputs in order, each with its environment. *)
Fixpoint run (session : list (Env * list (option string) * Input))
  (flags : Flags) : option Flags :=
  match session with
  | [] => Some flags
  | (env, replies, input) :: rest =>
      match handle env replies input flags with
      | Some (flags, _) => run rest flags
      | None => None
      end
  end.

(* ===================================================================== *)
(** ** The call to the language model *)
(* ===================================================================== *)

(** A JavaScript error: its [name] and its [message]. *)
Record JsError : Type := mkJsError {
  error_name : string;
  error_message : string
}.

(** [new Error(message)] *)
Definition newError (message : string) : JsError := mkJsError "Error" message.

(** What becomes of the body of a response that is [ok]: reading it with
    [response.json()] or trimming a content that is no string throws, or
    [choices?.[0]?.message?.content] is read ([None] when there is none). *)
Inductive Body : Type :=
| BodyThrows (error : JsError)
| Message (messageContent : option string).

(** What one [fetch] comes to: it rejects, or answers with a status. *)
Inductive Fetched : Type :=
| Rejected (error : JsError)
| Responded (status : Z) (body : Body).

(** What [callLLM] does to the world, in order. *)
Inductive CallEvent : Type :=
| Sent (attempt : nat)
| Waited (ms : Z)
| Notified (message : string).

(** How [callLLM] ends. *)
Inductive Called : Type :=
| Returned (content : option string)
| Threw (error : JsError).

Definition MAX_RETRIES : nat := 3.
Definition TIMEOUT_MS : Z := 30000.
Definition RETRY_DELAYS : list Z := [1000; 2000; 4000].

(** [response.ok]: the status is in the range 200 to 299. *)
Definition response_ok (status : Z) : bool :=
  (200 <=? status) && (status <=? 299).

(** How one turn of the loop of [callLLM] ends: with [return], with
    [continue] after the delay, or with the notification and [throw]. *)
Inductive Attempt : Type :=
| Done (content : option string)
| Retried (lastError : JsError)
| Failed (lastError : JsError).

(** The [catch] block of the loop. *)
Definition caught (attempt : nat) (error : JsError) : Attempt :=
  if String.eqb (error_name error) "AbortError" then
    let lastError :=
      newError ("LLM request timed out after "
                +:+ Js.string_of_Z (TIMEOUT_MS / 1000) +:+ " seconds") in
    if (attempt <? MAX_RETRIES - 1)%nat then Retried lastError
    else Failed lastError
  else if Js.includes (error_message error) "Failed to fetch"
          || Js.includes (error_message error) "NetworkError" then
    if (attempt <? MAX_RETRIES - 1)%nat then Retried error else Failed error
  else Failed error.

(** The [try] block of the loop, with its [catch]. *)
Definition tryFetch (attempt : nat) (fetched : Fetched) : Attempt :=
  match fetched with
  | Rejected error => caught attempt error
  | Responded status body =>
      if negb (response_ok status) then
        if (400 <=? status) && (status <? 500) then
          caught attempt
            (newError ("LLM API Error (" +:+ Js.string_of_Z status
                       +:+ "). Check console (F12) for details."))
        else
          let lastError :=
            newError ("LLM API Error (" +:+ Js.string_of_Z status +:+ ")") in
          if (attempt <? MAX_RETRIES - 1)%nat then Retried lastError
          else caught attempt lastError
      else
        match body with
        | BodyThrows error => caught attempt error
        | Message None => Done None
        | Message (Some messageContent) =>
            if negb (Js.truthy messageContent) then Done None
            else Done (Some (Js.trim messageContent))
        end
  end.

(** The notification of the [catch] block before it throws. *)
Definition communicationError (attempt : nat) : string :=
  "AI Assistant: Error communicating with the LLM after "
  +:+ Js.string_of_Z (Z.of_nat attempt + 1)
  +:+ " attempt(s). Check the console (F12) for details.".

(** The loop [for (let attempt = 0; attempt < MAX_RETRIES; attempt++)],
    from [attempt] on with [remaining] turns to go; [fetch] is what the
    network answers to each attempt. *)
Fixpoint attempts (fetch : nat -> Fetched) (attempt remaining : nat)
  (lastError : option JsError) : Called * list CallEvent :=
  match remaining with
  | O =>
      (Threw (default (newError "LLM call failed after all retries")
                lastError), [])
  | S remaining' =>
      match tryFetch attempt (fetch attempt) with
      | Done content => (Returned content, [Sent attempt])
      | Retried lastError =>
          let '(result, events) :=
            attempts fetch (S attempt) remaining' (Some lastError) in
          (result,
           Sent attempt :: Waited (default 0 (RETRY_DELAYS !! attempt))
           :: events)
      | Failed lastError =>
          (Threw lastError,
           [Sent attempt; Notified (communicationError attempt)])
      end
  end.

(** [callLLM(prompt, apiKey, endpoint, model)] *)
Definition callLLM (fetch : nat -> Fetched)
  (prompt apiKey endpoint model : string) : Called * list CallEvent :=
  if negb (Js.truthy prompt) || negb (Js.truthy apiKey)
     || negb (Js.truthy endpoint) || negb (Js.truthy model)
  then
    (Returned None,
     [Notified ("AI Assistant: LLM call aborted due to missing "
                +:+ "configuration. Check module settings and console (F12).")])
  else attempts fetch 0 MAX_RETRIES None.

(* ===================================================================== *)
(** ** Cooldowns of limited-use abilities *)
(* ===================================================================== *)

(** [ability.system.frequency] *)
Record Frequency : Type := mkFrequency {
  frequency_per : option string;
  frequency_max : option Z
}.

(** An ability item, as far as the cooldowns read it. *)
Record Ability : Type := mkAbility {
  ability_slug : option string;
  ability_name : string;
  ability_frequency : option Frequency
}.

(** An effect item of the actor, as far as the cooldowns read and write
    it: [effect.slug] is [effect.system.slug]. *)
Record EffectItem : Type := mkEffectItem {
  effect_slug : option string;
  effect_name : string;
  effect_rounds : Z
}.

(** [!frequency || !frequency.per || !(frequency.max > 0)], with the
    period when the frequency is a limit. *)
Definition limitedPer (ability : Ability) : option string :=
  match ability_frequency ability with
  | None => None
  | Some frequency =>
      match frequency_per frequency with
      | None => None
      | Some per =>
          if negb (Js.truthy per) then None
          else match frequency_max frequency with
               | Some max => if 0 <? max then Some per else None
               | None => None
               end
      end
  end.

(** [`pf2e-ai-combat-assistant-cooldown-${ability.slug}-${frequency.per}`] *)
Definition cooldownSlug (slug per : string) : string :=
  "pf2e-ai-combat-assistant-cooldown-" +:+ slug +:+ "-" +:+ per.

(** [isAbilityOnCooldown(actor, ability)], from the effects of the actor. *)
Definition isAbilityOnCooldown (effects : list EffectItem)
  (ability : Ability) : bool :=
  match ability_slug ability with
  | None => false
  | Some slug =>
      if negb (Js.truthy slug) then false
      else
        match limitedPer ability with
        | None => false
        | Some per =>
            let expectedEffectSlug := cooldownSlug slug per in
            existsb (fun effect =>
                       match effect_slug effect with
                       | Some s => String.eqb s expectedEffectSlug
                       | None => false
                       end) effects
        end
  end.

(** The [switch] of [applyCooldownEffect]; [None] for a period that it
    does not know. *)
Definition durationInRounds (per : string) : option Z :=
  if String.eqb per "round" || String.eqb per "turn" then Some 1
  else if String.eqb per "minute" then Some 10
  else if String.eqb per "hour" then Some 600
  else if String.eqb per "day" then Some 14400
  else if String.eqb per "combat" then Some 14400
  else None.

(** [applyCooldownEffect(actor, ability)]: the effects of the actor
    afterwards.  [created] is whether [createEmbeddedDocuments] went
    through; its error is caught. *)
Definition applyCooldownEffect (effects : list EffectItem)
  (ability : Ability) (created : bool) : list EffectItem :=
  match ability_slug ability with
  | None => effects
  | Some slug =>
      if negb (Js.truthy slug) then effects
      else
        match limitedPer ability with
        | None => effects
        | Some per =>
            match durationInRounds per with
            | None => effects
            | Some rounds =>
                if rounds <=? 0 then effects
                else
                  let effectData :=
                    {| effect_slug := Some (cooldownSlug slug per);
                       effect_name :=
                         "Cooldown: " +:+ ability_name ability +:+ " ("
                         +:+ per +:+ ")";
                       effect_rounds := rounds |} in
                  if created then effects ++ [effectData] else effects
            end
        end
  end.

(* ===================================================================== *)
(** ** Descriptions left out of the prompt *)
(* ===================================================================== *)

Definition flavorKeywords : list string :=
  ["choose a deity"; "anathema"; "edicts"; "sanctification"; "roleplaying";
   "atone ritual"; "skill training"; "alignment"; "multiclass dedication";
   "archetype"; "background"; "story"; "appearance"; "personality"].

Definition combatKeywords : list string :=
  ["make a strike"; "cast a spell"; "reaction"; "trigger"; "frequency";
   "stance"; "condition"; "save dc"; "hit points"; "heal"; "round";
   "minute"; "action"; "area"; "range"; "feet"; "stride"; "step";
   "attack"; "damage"; "flat check"; "circumstance bonus"; "status bonus";
   "item bonus"; "penalty"; "damage"; "restore"].

(** [keywords.reduce((count, keyword) =>
      count + (lowerDesc.includes(keyword) ? 1 : 0), 0)] *)
Definition keywordCount (lowerDesc : string) (keywords : list string) : Z :=
  fold_left
    (fun count keyword =>
       count + (if Js.includes lowerDesc keyword then 1 else 0))
    keywords 0.

(** [shouldExcludeDescription(fullDescription, abilityName,
    absoluteMaxLength, heuristicMaxLength)]; the name only goes to the
    log. *)
Definition shouldExcludeDescription (fullDescription : option string)
  (abilityName : string) (absoluteMaxLength heuristicMaxLength : Z) : bool :=
  match fullDescription with
  | None => false
  | Some fullDescription =>
      if negb (Js.truthy fullDescription) then false
      else if absoluteMaxLength <? Z.of_nat (Js.jslength fullDescription)
      then true
      else if heuristicMaxLength <? Z.of_nat (Js.jslength fullDescription)
      then
        let lowerDesc := Js.toLowerCase fullDescription in
        let flavorCount := keywordCount lowerDesc flavorKeywords in
        let combatCount := keywordCount lowerDesc combatKeywords in
        (2 <=? flavorCount) && (combatCount <=? 1)
      else false
  end.

(* ===================================================================== *)
(** ** Condition reminders *)
(* ===================================================================== *)

(** The data of the button of a condition reminder. *)
Record ReminderButton : Type := mkReminderButton {
  data_stunned_change : Z;
  data_slowed_change : Z;
  data_end_turn : bool;
  reminder_notes : list string
}.

(** The reminder of the suggestion card and of the message of a turn that
    starts without actions ([endTurn]): the changes are [0] for none, [-1]
    for a removal and otherwise the amount of the reduction.  [None] is
    the empty string of a reminder without notes. *)
Definition conditionReminder (stunnedVal slowedVal : Z) (endTurn : bool)
  : option ReminderButton :=
  let '(stunnedNotes, stunnedChange) :=
    if 0 <? stunnedVal then
      if stunnedVal <=? 3
      then (["<li>Remove Stunned " +:+ Js.string_of_Z stunnedVal +:+ ".</li>"],
            -1)
      else (["<li>Reduce Stunned " +:+ Js.string_of_Z stunnedVal
             +:+ " by 3.</li>"], 3)
    else ([], 0) in
  let '(slowedNotes, slowedChange) :=
    if 0 <? slowedVal then
      if slowedVal <=? 3
      then (["<li>Remove Slowed " +:+ Js.string_of_Z slowedVal +:+ ".</li>"],
            -1)
      else (["<li>Reduce Slowed " +:+ Js.string_of_Z slowedVal
             +:+ " by 3.</li>"], 3)
    else ([], 0) in
  let notes := stunnedNotes ++ slowedNotes in
  if (0 <? Z.of_nat (length notes))
  then Some {| data_stunned_change := stunnedChange;
               data_slowed_change := slowedChange;
               data_end_turn := endTurn;
               reminder_notes := notes |}
  else None.

(** A condition item of the actor: [actor.itemTypes.condition], with
    [system?.value?.value]. *)
Record ConditionItem : Type := mkConditionItem {
  condition_id : string;
  condition_slug : string;
  condition_value : option Z
}.

(** What the handler does for one of the two conditions: the items of the
    actor afterwards and the lines added to the notification.  The item is
    deleted or updated by its id. *)
Definition applyConditionChange (label slug : string) (change : Z)
  (conditions : list ConditionItem) : list ConditionItem * list string :=
  if change =? 0 then (conditions, [])
  else
    match List.find (fun c => String.eqb (condition_slug c) slug) conditions
    with
    | Some condition =>
        let currentValue := default 0 (condition_value condition) in
        if (change =? -1) || (currentValue <=? change) then
          (List.filter
             (fun c => negb (String.eqb (condition_id c)
                               (condition_id condition))) conditions,
           ["- Removed " +:+ label +:+ " " +:+ Js.string_of_Z currentValue
            +:+ "."])
        else
          let newValue := currentValue - change in
          (map (fun c =>
                  if String.eqb (condition_id c) (condition_id condition)
                  then mkConditionItem (condition_id c) (condition_slug c)
                         (Some newValue)
                  else c) conditions,
           ["- Reduced " +:+ label +:+ " " +:+ Js.string_of_Z currentValue
            +:+ " by " +:+ Js.string_of_Z change +:+ " (New: "
            +:+ Js.string_of_Z newValue +:+ ")."])
    | None =>
        (conditions, ["- " +:+ label +:+ " condition not found on actor."])
    end.

(** What a click on the button of a reminder comes to. *)
Record ConditionClick : Type := mkConditionClick {
  conditionsAfter : list ConditionItem;
  clickNotifications : list string;
  nextTurnCalled : bool
}.

(** [_onApplyConditionReductionClick(event)]: [actorName] and
    [conditions] are the name and the condition items of the token actor
    of the button ([None] when it is not found), [isCurrent] whether it is
    the turn of that actor.  The button carries the numbers written by
    [conditionReminder], which [parseInt] reads back; the deletions and
    updates are taken to go through. *)
Definition _onApplyConditionReductionClick (button : ReminderButton)
  (actor : option (string * list ConditionItem)) (isGM isCurrent : bool)
  : option ConditionClick :=
  match actor with
  | None => None
  | Some (actorName, conditions) =>
      if negb isGM then None
      else
        let stunnedChange := data_stunned_change button in
        let slowedChange := data_slowed_change button in
        let notification :=
          ["Applied condition changes for " +:+ actorName +:+ ":"] in
        let '(conditions, stunnedLines) :=
          applyConditionChange "Stunned" "stunned" stunnedChange conditions in
        let '(conditions, slowedLines) :=
          applyConditionChange "Slowed" "slowed" slowedChange conditions in
        let notification := notification ++ stunnedLines ++ slowedLines in
        Some {| conditionsAfter := conditions;
                clickNotifications :=
                  String.concat (String (ascii_of_nat 10) "") notification
                  :: (if data_end_turn button && negb isCurrent
                      then ["Could not automatically end turn for "
                            +:+ actorName
                            +:+ ". Combat state may have changed."]
                      else []);
                nextTurnCalled := data_end_turn button && isCurrent |}
  end.

(* ===================================================================== *)
(** ** The radio buttons of the penalty *)
(* ===================================================================== *)




(* ===================================================================== *)
(** ** Spells that can be cast *)
(* ===================================================================== *)

(** A spell item, as far as [isSpellAvailable] reads it:
    [spell.system.location?.value] is [spell_location]. *)
Record SpellItem : Type := mkSpellItem {
  spell_id : string;
  spell_uuid : string;
  spell_location : option string;
  isCantrip : bool;
  isFocusSpell : bool;
  isRitual : bool;
  spell_rank : Z
}.

(** An item of [actor.items]: its type and [system.description?.value]. *)
Record OwnedItem : Type := mkOwnedItem {
  owned_type : string;
  owned_description : option string
}.

(** An entry of [slotData.prepared]; [None] for a slot that holds
    [null]. *)
Record PreparedSpell : Type := mkPreparedSpell {
  prepared_id : option string;
  prepared_expended : bool
}.

(** [spellcastingEntry.system.slots?.[`slot${rank}`]]; [slot_value] is
    [None] when [slotData.value] is no number. *)
Record SlotData : Type := mkSlotData {
  slot_value : option Z;
  slot_expended : option Z;
  slot_prepared : option (list (option PreparedSpell))
}.

(** A spellcasting entry with its [system]; the slots by rank. *)
Record SpellcastingEntry : Type := mkSpellcastingEntry {
  isSpontaneous : bool;
  isFlexible : bool;
  isPrepared : bool;
  slots : Z -> option SlotData
}.

(** The actor, as far as [isSpellAvailable] reads it:
    [actor.system.resources?.focus?.value] when it is a number, and
    [actor.spellcasting?.get(id)] for an entry that has a [system]. *)
Record Caster : Type := mkCaster {
  caster_items : list OwnedItem;
  focusPoints : option Z;
  spellcasting : string -> option SpellcastingEntry
}.

(** [for (let rank = spellRank; rank <= maxSpellRank; rank++)] with a body
    that returns [true] when [found rank] and goes on otherwise; [count]
    is the number of turns left. *)
Fixpoint someRank (found : Z -> bool) (rank : Z) (count : nat) : bool :=
  match count with
  | O => false
  | S count' => if found rank then true else someRank found (rank + 1) count'
  end.

(** The test of the loop for a spontaneous or flexible entry. *)
Definition slotLeft (entry : SpellcastingEntry) (rank : Z) : bool :=
  match slots entry rank with
  | Some slotData =>
      match slot_value slotData with
      | Some value => default 0 (slot_expended slotData) <? value
      | None => false
      end
  | None => false
  end.

(** The test of the loop for a prepared entry. *)
Definition preparedLeft (entry : SpellcastingEntry) (spell : SpellItem)
  (rank : Z) : bool :=
  match slots entry rank with
  | Some slotData =>
      match slot_prepared slotData with
      | Some prepared =>
          existsb (fun preparedSpell =>
                     match preparedSpell with
                     | Some p =>
                         match prepared_id p with
                         | Some id =>
                             String.eqb id (spell_id spell)
                             && negb (prepared_expended p)
                         | None => false
                         end
                     | None => false
                     end) prepared
      | None => false
      end
  | None => false
  end.

(** [isSpellAvailable(spell, actor)]; [maxSpellRank] is
    [CONFIG.PF2E?.spellLevels ?? 10]. *)
Definition isSpellAvailable (maxSpellRank : Z) (spell : SpellItem)
  (actor : Caster) : bool :=
  let spellLocationId := spell_location spell in
  let noLocation :=
    match spellLocationId with
    | Some id => negb (Js.truthy id)
    | None => true
    end in
  if noLocation && negb (isCantrip spell) && negb (isFocusSpell spell)
     && negb (isRitual spell)
  then
    existsb (fun item =>
               existsb (String.eqb (owned_type item))
                 ["weapon"; "equipment"; "consumable"; "treasure"; "feat";
                  "action"]
               && match owned_description item with
                  | Some description =>
                      Js.includes description (spell_uuid spell)
                  | None => false
                  end)
      (caster_items actor)
  else if isCantrip spell then true
  else if isFocusSpell spell then
    match focusPoints actor with
    | Some value => 0 <? value
    | None => false
    end
  else
    match spellLocationId with
    | None => false
    | Some id =>
        match spellcasting actor id with
        | None => false
        | Some spellcastingEntry =>
            let spellRank := spell_rank spell in
            let turns := Z.to_nat (maxSpellRank - spellRank + 1) in
            if isSpontaneous spellcastingEntry || isFlexible spellcastingEntry
            then someRank (slotLeft spellcastingEntry) spellRank turns
            else if isPrepared spellcastingEntry
            then someRank (preparedLeft spellcastingEntry spell) spellRank
                   turns
            else false
        end
    end.

(* ===================================================================== *)
(** * The vocabulary of the properties

    The predicates in which the properties are stated. *)
(* ===================================================================== *)

(** ** Costs *)

(** A cost that an accepted action may carry according to the
    specification: one, two or three actions, a reaction or a free
    action. *)
Definition concreteCost (v : jsval) : Prop :=
  v = JStr "R" \/ v = JStr "F" \/ exists n, v = JNum n /\ 1 <= n <= 3.

(** A catalog cost of the data model: absent, one of the five concrete
    costs, or a range [m to n] with [1 <= m <= n <= 3], written as
    [checkStringValue] writes it. *)
Definition specifiedCost (c : jsval) : Prop :=
  c = JNull \/ concreteCost c \/
  exists m n, 1 <= m <= n /\ n <= 3 /\
    c = JStr (Js.string_of_Z m +:+ " to " +:+ Js.string_of_Z n).

(** The shape of every answer of the arbiter. *)
Definition arbitrated (identifyResult : IdentifyResult) (v : jsval) : Prop :=
  v = JStr "R" \/ v = JStr "F" \/
  exists n, v = JNum n /\
    (1 <= n <= 3
     \/ actualActionCost identifyResult = JNum n
     \/ is_range_string (actualActionCost identifyResult) = true).

(** ** The prerequisite block *)

(** The prerequisite block lets the suggestion through: there is nothing
    to check, the check passed, or it was skipped for want of a target.
    The other outcomes are a failed check, after which another suggestion
    is requested, and an error thrown while the pattern is built. *)
Definition prerequisitesMet (p : Prerequisite) : Prop :=
  p = NotApplicable \/ p = CheckPassed \/ p = CheckSkipped.

(** ** The penalty in the flags and the confirmed actions *)

(** [turnState.currentMAP] as stored in the flags. *)
Definition storedMAP (flags : Flags) : option Z :=
  ts ← getTurnState flags; currentMAP ts.

(** A confirmed action: the cost and the text carried by its button, and
    the traits that the resolver finds for that text. *)
Record Confirmation : Type := mkConfirmation {
  confirmedCost : Z;
  confirmedText : string;
  confirmedTraits : list string
}.

(** What a confirmation does to the flags before the next suggestion is
    requested. *)
Definition confirm (flags : Flags) (action : Confirmation) : Flags :=
  match getTurnState flags with
  | Some currentTurnState =>
      confirmedFlags flags currentTurnState (confirmedCost action)
        (confirmedText action) (confirmedTraits action)
  | None => clearAITurnFlags flags
  end.

(** The confirmed actions of a turn in the order of confirmation. *)
Definition afterActions (flags : Flags) (actions : list Confirmation)
  : Flags :=
  fold_left confirm actions flags.

Definition isAttack (action : Confirmation) : bool :=
  hasTrait (confirmedTraits action) "attack".

Definition isAgile (action : Confirmation) : bool :=
  hasTrait (confirmedTraits action) "agile".

Definition attacksAmong (actions : list Confirmation) : nat :=
  List.length (List.filter isAttack actions).

(** The penalty of the table of the specification after an attack that
    was preceded by [earlier] attacks. *)
Definition penaltyAfter (earlier : nat) (agile : bool) : Z :=
  match earlier with
  | O => if agile then 4 else 5
  | S _ => if agile then 8 else 10
  end.

(** ** The invariant of the turn state *)

Definition validMAP (m : Z) : Prop := In m [0; 4; 5; 8; 10].

(** What the specification asks of a turn state: no negative number of
    actions, and a penalty among 0, 4, 5, 8 and 10. *)
Definition turnStateOk (ts : TurnState) : Prop :=
  0 <= actionsRemaining ts /\ exists m, currentMAP ts = Some m /\ validMAP m.

Definition flagsOk (flags : Flags) : Prop :=
  forall ts, getTurnState flags = Some ts -> turnStateOk ts.

(** ** The lines of a reply *)

(** The cost a single line of the reply carries: [null] when the line is
    not a [COST:] line or when its value is not ['R'], ['F'] or a number
    from 1 to 3. *)
Definition lineCost (line : string) : jsval :=
  match group_truthy
          (Re.match_group ParseRe.cost_line (Js.trim line) 1) with
  | Some c => readCost c
  | None => JNull
  end.

(** ** The spans of the matches *)

(** The index [i] lies in the span of the match. *)
Definition covers (m : PotentialMatch) (i : nat) : Prop :=
  (startIndex m <= i < endIndex m)%nat.

Definition disjointSpans (a b : PotentialMatch) : Prop :=
  forall i, ~ (covers a i /\ covers b i).

(** No two entries of the list share an index of the description. *)
Definition pairwiseDisjoint (ms : list PotentialMatch) : Prop :=
  forall i j a b,
    i <> j -> ms !! i = Some a -> ms !! j = Some b -> disjointSpans a b.

(** The state of the greedy walk: the covered indices are those of the
    confirmed matches, which are pairwise disjoint. *)
Definition walkOk (st : list PotentialMatch * gset nat) : Prop :=
  (forall k, k ∈ st.2 <-> exists m, m ∈ st.1 /\ covers m k)
  /\ pairwiseDisjoint st.1.

(** ** The order of a sorted array *)

(** [a] may stand before [b] in an array sorted with [cmp]: the comparator
    does not ask for [b] first. *)
Definition mayPrecede {A : Type} (cmp : A -> A -> comparison) (a b : A)
  : Prop :=
  cmp a b <> Gt.

(** [s] is no better than [best]: a lower bonus, or the same bonus and an
    estimated damage that is not higher. *)
Definition noBetterThan (s best : Descriptor) : Prop :=
  parseBaseBonus (d_bonuses s) < parseBaseBonus (d_bonuses best)
  \/ (parseBaseBonus (d_bonuses s) = parseBaseBonus (d_bonuses best)
      /\ (estimateAverageDamage (d_damage s)
          <= estimateAverageDamage (d_damage best))%Q).

(** ** The strikes of a flurry *)

(** A bonus as [gatherGameState] writes it: with its sign. *)
Definition signedText (n : Z) : string :=
  if n <? 0 then Js.string_of_Z n else "+" +:+ Js.string_of_Z n.

(** The [bonuses] of a strike in the snapshot: the base attack bonus, then
    the bonuses of the later attacks, as in ["+21 / +17 / +13"]. *)
Definition bonusesText (base : Z) (later : list Z) : string :=
  String.concat " / " (map signedText (base :: later)).

(** A term of a damage expression: dice, or a flat modifier. *)
Inductive DamageTerm : Type :=
| Dice (count sides : Z)
| Modifier (value : Z).

Definition termText (t : DamageTerm) : string :=
  match t with
  | Dice count sides => Js.string_of_Z count +:+ "d" +:+ Js.string_of_Z sides
  | Modifier value => Js.string_of_Z value
  end.

(** The text of a damage expression: its terms joined by [+], as in
    ["2d8+5"]. *)
Definition damageText (terms : list DamageTerm) : string :=
  String.concat "+" (map termText terms).

(** The average damage as the specification estimates it: the sum of
    [dice * (die + 1) / 2] over the dice, plus the flat modifiers. *)
Definition claimedAverage (terms : list DamageTerm) : Q :=
  fold_right
    (fun t acc =>
       (match t with
        | Dice count sides => (count * (sides + 1)) # 2
        | Modifier value => inject_Z value
        end + acc)%Q)
    0%Q terms.

(** What the code adds to that sum: for every dice term after the first
    one, its count without the last digit, read as a modifier. *)
Definition strayModifiers (terms : list DamageTerm) : Z :=
  fold_right
    (fun t acc =>
       match t with
       | Dice count _ => count / 10 + acc
       | Modifier _ => acc
       end)
    0 (tail terms).

(** A trait that the strike brings to the merged traits: an entry of its
    array of traits, or a character of the string into which the snapshot
    joins them. *)
Definition strikeTrait (ts : option Traits) (t : string) : Prop :=
  match ts with
  | Some (TraitArray l) => In t l
  | Some (TraitString s) => exists c, In c (Js.chars s) /\ t = String c ""
  | None => False
  end.

(** The merged traits of a flurry: [attack], [flurry], then what the
    strike brings, each trait once. *)
Definition mergedTraits (ts : option Traits) (merged : list string) : Prop :=
  (exists rest, merged = "attack" :: "flurry" :: rest)
  /\ NoDup merged
  /\ forall t, In t merged <-> t = "attack" \/ t = "flurry" \/ strikeTrait ts t.

(** The strike is one that a flurry may use. *)
Definition eligibleForFlurry (s : Descriptor) : Prop :=
  traits_includes (d_traits s) "unarmed" = true
  \/ traits_includes (d_traits s) "monk" = true.

(** The dice counts, die sizes and modifiers on which the estimate of the
    code is compared with the formula of the specification, and the second
    terms of the expressions compared. *)
Definition counts : list Z := map Z.of_nat (seq 1 24).
Definition sizes : list Z := [4; 6; 8; 10; 12; 20].
Definition modifiers : list Z := map Z.of_nat (seq 0 31).

Definition laterTerms : list DamageTerm :=
  map Modifier modifiers ++ flat_map (fun n => map (Dice n) sizes) counts.

(** The estimate of the code is the formula plus the stray modifiers. *)
Definition agrees (terms : list DamageTerm) : bool :=
  Qeq_bool (estimateAverageDamage (Some (damageText terms)))
    (claimedAverage terms + inject_Z (strayModifiers terms)).

(** ** The flags of a turn *)

(** The keys under which the module keeps the state of an AI turn; the
    other flags of the actor (its permanent notes, its tactical preset)
    live under other keys. *)
Definition turnFlag (key : string) : Prop :=
  key = FLAGS.TURN_STATE \/ key = FLAGS.IS_PROCESSING
  \/ key = FLAGS.CACHED_STRIKES.

(** [flags'] differs from [flags] at most under the keys of the turn. *)
Definition sameElsewhere (flags flags' : Flags) : Prop :=
  forall key, ~ turnFlag key -> flags' !! key = flags !! key.

(** ** The first cost of a reply *)

(** The cost of the first line that carries a valid one, [null] when no
    line does. *)
Fixpoint firstLineCost (lines : list string) : jsval :=
  match lines with
  | [] => JNull
  | line :: rest =>
      if jsval_eqb (lineCost line) JNull then firstLineCost rest
      else lineCost line
  end.

(** ** The call to the language model *)

(** An answer after which [callLLM] is meant to try again: a timeout, a
    network error, or a status that is neither a success nor a client
    error. *)
Definition transient (error : JsError) : bool :=
  String.eqb (error_name error) "AbortError"
  || Js.includes (error_message error) "Failed to fetch"
  || Js.includes (error_message error) "NetworkError".

Definition retryable (fetched : Fetched) : bool :=
  match fetched with
  | Rejected error => transient error
  | Responded status body =>
      if response_ok status then
        match body with
        | BodyThrows error => transient error
        | Message _ => false
        end
      else negb ((400 <=? status) && (status <? 500))
  end.

(** What the call answers for a content that was read. *)
Definition answered (messageContent : option string) : option string :=
  match messageContent with
  | Some c => if Js.truthy c then Some (Js.trim c) else None
  | None => None
  end.

Definition sent (events : list CallEvent) : list nat :=
  omap (fun e => match e with Sent n => Some n | _ => None end) events.

Definition waited (events : list CallEvent) : list Z :=
  omap (fun e => match e with Waited ms => Some ms | _ => None end) events.

Definition notified (events : list CallEvent) : list string :=
  omap (fun e => match e with Notified m => Some m | _ => None end) events.

(** ** Cooldowns *)

(** The length of a period of the rules, in rounds of six seconds. *)
Definition roundsOf (per : string) : Z :=
  if String.eqb per "round" || String.eqb per "turn" then 1
  else if String.eqb per "minute" then 10
  else if String.eqb per "hour" then 600
  else 14400.

Definition knownPeriods : list string :=
  ["round"; "turn"; "minute"; "hour"; "day"; "combat"].

(** An ability with a slug and a limit of at least one use per [per]. *)
Definition limitedUse (ability : Ability) (slug per : string) : Prop :=
  ability_slug ability = Some slug /\ slug <> ""
  /\ per <> ""
  /\ exists max,
       ability_frequency ability = Some (mkFrequency (Some per) (Some max))
       /\ 0 < max.

Definition noDash (s : string) : Prop := ~ In "-"%char (Js.chars s).

(** ** Condition reminders *)

(** The value of the condition with a slug among the items of an actor:
    [None] when the actor does not have the condition. *)
Definition conditionOf (slug : string) (conditions : list ConditionItem)
  : option Z :=
  match List.find (fun c => String.eqb (condition_slug c) slug) conditions with
  | Some condition => Some (default 0 (condition_value condition))
  | None => None
  end.

(** What the reminder announces for a value at the start of the turn: a
    condition of at most 3 is removed, a greater one is reduced by 3. *)
Definition announced (valueAtStart : Z) : option Z :=
  if valueAtStart <=? 3 then None else Some (valueAtStart - 3).

(** The items of an actor: no two with the same id, and at most one item
    for a condition. *)
Definition wellFormedConditions (conditions : list ConditionItem) : Prop :=
  NoDup (map condition_id conditions)
  /\ NoDup (map condition_slug conditions).

(** The items agree with a value read at the start of the turn: the
    condition is there with that value, or the value is 0 and it is not. *)
Definition atStart (slug : string) (valueAtStart : Z)
  (conditions : list ConditionItem) : Prop :=
  (0 < valueAtStart /\ conditionOf slug conditions = Some valueAtStart)
  \/ (valueAtStart = 0 /\ conditionOf slug conditions = None).

(** ** Spells *)

(** A spell of a spellcasting entry that is neither a cantrip nor a focus
    spell. *)
Definition slottedSpell (actor : Caster) (spell : SpellItem)
  (entry : SpellcastingEntry) : Prop :=
  isCantrip spell = false /\ isFocusSpell spell = false
  /\ exists id, spell_location spell = Some id /\ id <> ""
                /\ spellcasting actor id = Some entry.

(* ===================================================================== *)
(** * Sample data

    The inputs on which the properties are instantiated. *)
(* ===================================================================== *)

(** ** Items and their costs *)

(** The resolution of the specification's example: a catalog cost of two
    actions read from an item. *)
Definition twoActionResolution : IdentifyResult :=
  populateFromItem (mkGame (fun _ => None) (fun k => k)) "Sudden Charge"
    (initialResult "Sudden Charge")
    (mkPotentialMatch 0 13 "Actor.a.Item.sc" "Sudden Charge" TAction None
       (Some "sc") None None 13)
    (mkFullItem JNull (JNum 2) None (Some "action") (Some ["flourish"]) None).

(** A spell of one to three actions, as the catalog records it. *)
Definition healResolution : IdentifyResult :=
  populateFromItem (mkGame (fun _ => None) (fun k => k)) "Heal"
    (initialResult "Heal")
    (mkPotentialMatch 0 4 "Actor.a.Item.heal" "Heal" TSpell None
       (Some "heal") (Some "entry") None 4)
    (mkFullItem (JStr "1 to 3") JNull None None (Some ["healing"]) None).

(** An action whose document says that it takes no action at all:
    [parseActionCostValue] reads the number 0 in its numeric form. *)
Definition freeInNumbers : FullItem :=
  mkFullItem JNull (JNum 0) None (Some "action") (Some ["manipulate"]) None.

(** The actor that owns the action, and the game that knows its document. *)
Definition quickDraw : Descriptor :=
  mkDescriptor (Some "Quick Draw") None (Some "Actor.a.Item.qd") None None
    (Some "qd") None None None None (Some "icons/qd.webp") None
    (Some "action") None None None None.

Definition gunslinger : Actor :=
  mkActor "Valeros" "a" [] [quickDraw] [] [] None (fun _ => None).

Definition documents : Game :=
  mkGame (fun uuid => if String.eqb uuid "Actor.a.Item.qd"
                      then Some freeInNumbers else None)
    (fun key => key).

Definition quickDrawResolution : IdentifyResult :=
  match identifySuggestionTypeAndCost documents "Quick Draw" gunslinger
          emptyGameState with
  | Some identifyResult => identifyResult
  | None => initialResult "Quick Draw"
  end.

(** ** Confirmed actions *)

(** The flags right after AI control was accepted. *)
Definition acceptedFlags : Flags :=
  <[FLAGS.TURN_STATE := FTurnState acceptedTurnState]>
    (<[FLAGS.IS_PROCESSING := FBool true]> ∅).

Definition fist : Confirmation :=
  mkConfirmation 1 "Fist Strike" ["attack"; "agile"].

Definition maul : Confirmation := mkConfirmation 1 "Maul Strike" ["attack"].

Definition stride : Confirmation := mkConfirmation 1 "Stride" ["move"].

(** ** A troll and its Claw

    A troll whose only strike is an agile Claw, its neighbour the goblin,
    and a reply of the language model in the expected format. *)

Module Scenario.

Definition nl : string := String Js.newline "".

Definition clawItem : FullItem :=
  mkFullItem JNull JNull None None (Some ["agile"; "finesse"]) None.

Definition game : Game :=
  mkGame (fun u => if String.eqb u "Actor.troll.Item.claw" then Some clawItem
                   else None)
    (fun key => key).

Definition clawStrike : Descriptor :=
  mkDescriptor None (Some "Claw") None None (Some "Actor.troll.Item.claw")
    None None (Some "claw") None (Some "claw") None None (Some "strike")
    None None None None.

Definition troll : Actor :=
  mkActor "Troll" "troll" [] [] [] [] (Some [clawStrike]) (fun _ => None).

Definition condition (name : string) (value : Z) : Condition :=
  mkCondition name (Some value) None.

Definition snapshot (conditions : list Condition) : GameState :=
  mkGameState (Some (mkSelfInfo [] [] [] [] [] [] [] [] conditions)) None None.

(** The message of an engine for a source that it refuses. *)
Definition invalidPattern (source : string) : string :=
  "Invalid regular expression: /" +:+ source +:+ "/i".

Definition env (conditions : list Condition) : Env :=
  mkEnv game troll true (Some (snapshot conditions)) true invalidPattern.

Definition clawReply : string :=
  "ACTION: Claw" +:+ nl +:+ "TARGET: Goblin [ID: tok1]" +:+ nl
  +:+ "COST: 1" +:+ nl +:+ "Rationale: in range" +:+ nl
  +:+ "NARRATIVE: slashes".

(** The text carried by the Confirm button of the card for that reply. *)
Definition clawButton : string :=
  "@UUID[Actor.troll.Item.claw]{Claw} | TARGET: Goblin [ID: tok1]"
  +:+ " | Rationale: in range | NARRATIVE: slashes".

(** Control is accepted, the Claw is suggested and confirmed, and the
    next suggestion is a Claw again. *)
Definition session : list (Env * list (option string) * Input) :=
  [(env [], [Some clawReply], AcceptControl);
   (env [], [Some clawReply], ConfirmAction (JNum 1) clawButton "")].

End Scenario.

(** ** A suggestion that costs too much *)

Module Overrun.

(** One action is left, after a two-action activity. *)
Definition turnState : TurnState := setActionsRemaining acceptedTurnState 1.

Definition flags : Flags :=
  <[FLAGS.TURN_STATE := FTurnState turnState]> acceptedFlags.

(** The language model proposes another two-action activity. *)
Definition reply : string :=
  "ACTION: Sudden Charge, Goblin" +:+ Scenario.nl
  +:+ "TARGET: Goblin [ID: tok1]" +:+ Scenario.nl
  +:+ "COST: 2" +:+ Scenario.nl +:+ "Rationale: close the gap".

Definition parsed : ParsedSuggestion :=
  mkParsed "Sudden Charge, Goblin" (Some "Goblin [ID: tok1]") (JNum 2)
    (Some "close the gap") None.

Definition resolved : IdentifyResult :=
  withLinkAndCombo (withCostSource (initialResult "Sudden Charge, Goblin") "LLM")
    "Sudden Charge, Goblin" false.

End Overrun.

(** ** A Grab without a target *)

Module Grappler.

(** A Grab action in the catalog of the troll, which has not hit anything
    yet. *)
Definition grabItem : FullItem :=
  mkFullItem JNull (JNum 1) None (Some "action") (Some ["attack"]) None.

Definition game : Game :=
  mkGame (fun u => if String.eqb u "Actor.troll.Item.grab" then Some grabItem
                   else None)
    (fun key => key).

Definition grab : Descriptor :=
  mkDescriptor (Some "Grab") None (Some "Actor.troll.Item.grab") None None
    (Some "grab") None None None None None None None None None None None.

Definition troll : Actor :=
  mkActor "Troll" "troll" [] [grab] [] [] None (fun _ => None).

Definition env : Env :=
  mkEnv game troll true (Some (Scenario.snapshot [])) true
    Scenario.invalidPattern.

(** The action is named without "Grab, target". *)
Definition reply : string :=
  "ACTION: Grab" +:+ Scenario.nl +:+ "TARGET: Goblin [ID: tok1]"
  +:+ Scenario.nl +:+ "COST: 1".

(** The same suggestion in the form the check understands. *)
Definition replyWithTarget : string :=
  "ACTION: Grab, Goblin" +:+ Scenario.nl +:+ "TARGET: Goblin [ID: tok1]"
  +:+ Scenario.nl +:+ "COST: 1".

Definition parsed : ParsedSuggestion :=
  mkParsed "Grab" (Some "Goblin [ID: tok1]") (JNum 1) None None.

Definition resolved : IdentifyResult :=
  withLinkAndCombo
    (populateFromItem game "Grab" (initialResult "Grab")
       (mkPotentialMatch 0 4 "Actor.troll.Item.grab" "Grab" TAction None
          (Some "grab") None None 4)
       grabItem)
    "@UUID[Actor.troll.Item.grab]{Grab}" false.

End Grappler.

(** ** A Grab of two actions, and the name of the actor

    A troll whose Grab takes two actions and whose last Claw hit with
    Grab, under a name that may carry the syntax characters of a pattern. *)

Module Elite.

Definition grabItem : FullItem :=
  mkFullItem JNull (JNum 2) None (Some "action") (Some ["attack"]) None.

Definition game : Game :=
  mkGame (fun u => if String.eqb u "Actor.troll.Item.grab" then Some grabItem
                   else None)
    (fun key => key).

Definition troll (name : string) : Actor :=
  mkActor name "troll" [] [Grappler.grab] [] [] None (fun _ => None).

(** The recent event is written with the name of the actor. *)
Definition snapshot (name : string) : GameState :=
  mkGameState (Some (mkSelfInfo [] [] [] [] [] [] [] [] []))
    (Some [name +:+ ": Claw -> Success (plus Grab)"]) None.

Definition env (name : string) : Env :=
  mkEnv game (troll name) true (Some (snapshot name)) true
    Scenario.invalidPattern.

Definition reply : string :=
  "ACTION: Grab, Goblin" +:+ Scenario.nl +:+ "TARGET: Goblin [ID: tok1]"
  +:+ Scenario.nl +:+ "COST: 2".

Definition parsed : ParsedSuggestion :=
  mkParsed "Grab, Goblin" (Some "Goblin [ID: tok1]") (JNum 2) None None.

Definition resolved : IdentifyResult :=
  withLinkAndCombo
    (populateFromItem game "Grab, Goblin" (initialResult "Grab, Goblin")
       (mkPotentialMatch 0 4 "Actor.troll.Item.grab" "Grab" TAction None
          (Some "grab") None None 4)
       grabItem)
    "@UUID[Actor.troll.Item.grab]{Grab}, Goblin" false.

End Elite.

(** ** Strike and Power Strike *)

Module Duel.

(** The catalog of the specification's example: Strike and Power Strike. *)
Definition action (name id : string) : Descriptor :=
  mkDescriptor (Some name) None (Some ("Actor.hero.Item." +:+ id)) None None
    (Some id) None None None None None None None None None None None.

Definition hero : Actor :=
  mkActor "Hero" "hero" [] [] [] [] None (fun _ => None).

Definition snapshot : GameState :=
  mkGameState
    (Some (mkSelfInfo [] [] [] [] []
             [action "Strike" "strike"; action "Power Strike" "power"]
             [] [] []))
    None None.

Definition catalog : list MasterItem := getMasterList hero snapshot.

Definition powerStrike : PotentialMatch :=
  mkPotentialMatch 0 12 "Actor.hero.Item.power" "Power Strike" TAction
    (Some "icons/svg/action.svg") (Some "power") None None 12.

Definition strike : PotentialMatch :=
  mkPotentialMatch 6 12 "Actor.hero.Item.strike" "Strike" TAction
    (Some "icons/svg/action.svg") (Some "strike") None None 6.

End Duel.

(** ** A monk *)

Module Monk.

(** A monk whose snapshot lists a staff, two unarmed attacks with the
    same bonus and a kick that hits harder but less often; the traits of a
    strike are joined in one string, as [gatherGameState] leaves them. *)
Definition strike (name bonuses damage traits : string) : Descriptor :=
  mkDescriptor (Some name) None None None None None None None None None None
    None None None (Some (TraitString traits)) (Some bonuses) (Some damage).

Definition staff : Descriptor :=
  strike "Staff" "+14 / +9 / +4" "1d4+4 bludgeoning" "two-hand-d8".
Definition fist : Descriptor :=
  strike "Fist" "+12 / +8 / +4" "1d6+4 bludgeoning"
    "agile, finesse, nonlethal, unarmed".
Definition tigerClaw : Descriptor :=
  strike "Tiger Claw" "+12 / +8 / +4" "1d8+4 slashing"
    "agile, finesse, nonlethal, unarmed".
Definition kick : Descriptor :=
  strike "Kick" "+11 / +6 / +1" "2d12+4 bludgeoning" "nonlethal, unarmed".

Definition snapshotOf (strikes : list Descriptor) : GameState :=
  mkGameState (Some (mkSelfInfo [] [] [] [] strikes [] [] [] [])) None None.

Definition snapshot : GameState := snapshotOf [staff; kick; fist; tigerClaw].

(** An unarmed attack of bonus +12 with the damage of the expression. *)
Definition unarmed (name : string) (damage : list DamageTerm) : Descriptor :=
  strike name (bonusesText 12 [8; 4]) (damageText damage) "agile, unarmed".

Definition monk : Actor :=
  mkActor "Monk" "monk" [] [] [] [] None (fun _ => None).

Definition game : Game := mkGame (fun _ => None) (fun key => key).

End Monk.

(** A network that answers a server error, then fails, then answers. *)
Definition flakyNetwork (attempt : nat) : Fetched :=
  match attempt with
  | 0%nat => Responded 503 (Message None)
  | 1%nat => Rejected (mkJsError "TypeError" "Failed to fetch")
  | _ => Responded 200 (Message (Some " ACTION: Strike | COST: 1 "))
  end.

(** A network that refuses the key. *)
Definition refusingNetwork (attempt : nat) : Fetched :=
  match attempt with
  | 0%nat => Responded 401 (Message None)
  | _ => Responded 200 (Message (Some "ACTION: Strike | COST: 1"))
  end.

(** A breath weapon that can be used once per minute, a roar once per
    round, and an ability whose period is written as a duration. *)
Definition breathWeapon : Ability :=
  mkAbility (Some "breath-weapon") "Breath Weapon"
    (Some (mkFrequency (Some "minute") (Some 1))).

Definition roar : Ability :=
  mkAbility (Some "roar") "Roar" (Some (mkFrequency (Some "round") (Some 1))).

Definition secondWind : Ability :=
  mkAbility (Some "second-wind") "Second Wind"
    (Some (mkFrequency (Some "PT10M") (Some 1))).

(** Two descriptions of more than 400 characters that tell of a story and of
    an appearance; the first one also mentions damage. *)
Definition padding : string := Js.str (repeat "."%char 380).

Definition flaskDescription : string :=
  "The story of its appearance. It deals 2d6 fire damage." +:+ padding.

Definition trinketDescription : string :=
  "The story of its appearance is long." +:+ padding.

(** An actor stunned 5, slowed 2 and frightened 1. *)
Definition dazed : list ConditionItem :=
  [ mkConditionItem "c1" "frightened" (Some 1);
    mkConditionItem "c2" "stunned" (Some 5);
    mkConditionItem "c3" "slowed" (Some 2) ].

Definition dazedButton : ReminderButton :=
  {| data_stunned_change := 3; data_slowed_change := -1;
     data_end_turn := false;
     reminder_notes := ["<li>Reduce Stunned 5 by 3.</li>";
                        "<li>Remove Slowed 2.</li>"] |}.

(** A sorcerer with no slot of rank 1 left and one of rank 3, and a wizard
    with a fireball prepared at rank 4. *)
Definition sorcererSlots (rank : Z) : option SlotData :=
  if rank =? 1 then Some (mkSlotData (Some 3) (Some 3) None)
  else if rank =? 3 then Some (mkSlotData (Some 2) (Some 1) None)
  else None.

Definition wizardSlots (rank : Z) : option SlotData :=
  if rank =? 3
  then Some (mkSlotData (Some 1) None
               (Some [Some (mkPreparedSpell (Some "fireball") true)]))
  else if rank =? 4
  then Some (mkSlotData (Some 1) None
               (Some [None; Some (mkPreparedSpell (Some "fireball") false)]))
  else None.

Definition sorcery : SpellcastingEntry :=
  mkSpellcastingEntry true false false sorcererSlots.

Definition wizardry : SpellcastingEntry :=
  mkSpellcastingEntry false false true wizardSlots.

Definition caster : Caster :=
  {| caster_items := []; focusPoints := Some 0;
     spellcasting := fun id =>
       if String.eqb id "sorcery" then Some sorcery
       else if String.eqb id "wizardry" then Some wizardry
       else None |}.

Definition magicMissile : SpellItem :=
  mkSpellItem "magic-missile" "Item.mm" (Some "sorcery") false false false 1.

Definition fireball : SpellItem :=
  mkSpellItem "fireball" "Item.fb" (Some "wizardry") false false false 3.

(* ===================================================================== *)
(** * Properties *)
(* ===================================================================== *)

(** ** Cost arbiter *)

Section CostArbiter.

Lemma jsval_eqb_eq (a b : jsval) : jsval_eqb a b = true -> a = b.
Proof.
  destruct a, b; simpl; try discriminate; intros H.
  - reflexivity.
  - apply Z.eqb_eq in H. congruence.
  - apply String.eqb_eq in H. congruence.
Qed.

Lemma is_str_or (v : jsval) :
  is_str v "R" || is_str v "F" = true -> v = JStr "R" \/ v = JStr "F".
Proof.
  intros H. apply orb_true_iff in H as [H | H];
    apply jsval_eqb_eq in H; auto.
Qed.

Lemma validNumericCost_range (c : jsval) (n : Z) :
  validNumericCost c = Some n -> 1 <= n <= 3.
Proof.
  unfold validNumericCost. destruct (parseInt_val c) as [m |]; [| discriminate].
  destruct ((1 <=? m) && (m <=? 3)) eqn:E; [| discriminate].
  intros [= <-]. apply andb_true_iff in E as [E1 E2]. lia.
Qed.

Lemma isSpecificCost_num (c : jsval) :
  isSpecificCost c = true -> exists n, c = JNum n.
Proof. destruct c; simpl; try discriminate. eauto. Qed.

(** C6. When the resolution is not a combo, the catalog cost is a number
    and the cost did not come from the language model, the arbiter returns
    the catalog cost whatever the model claimed. *)
Theorem catalog_cost_wins (identifyResult : IdentifyResult) (llmCost : jsval)
  (n : Z) :
  isCombo identifyResult = false ->
  actualActionCost identifyResult = JNum n ->
  costSource identifyResult <> "LLM" ->
  determineAuthoritativeCost identifyResult llmCost = JNum n.
Proof.
  intros Hcombo Hcost Hsource. unfold determineAuthoritativeCost.
  rewrite Hcombo, Hcost. simpl.
  apply String.eqb_neq in Hsource. rewrite Hsource. reflexivity.
Qed.

Lemma catalog_cost_wins_witness :
  determineAuthoritativeCost twoActionResolution (JNum 1) = JNum 2.
Proof.
  apply (catalog_cost_wins twoActionResolution (JNum 1) 2).
  - reflexivity.
  - vm_compute. reflexivity.
  - vm_compute. discriminate.
Defined.

Lemma arbitrated_llm (identifyResult : IdentifyResult) (llmCost rest : jsval) :
  arbitrated identifyResult rest ->
  arbitrated identifyResult
    match validNumericCost llmCost with
    | Some k => JNum k
    | None => rest
    end.
Proof.
  intros Hrest.
  destruct (validNumericCost llmCost) as [k |] eqn:Hk; [| exact Hrest].
  right; right. exists k. split; [reflexivity |].
  left. eapply validNumericCost_range; eassumption.
Qed.

Lemma arbitrated_one (identifyResult : IdentifyResult) :
  arbitrated identifyResult (JNum 1).
Proof. right; right. exists 1. split; [reflexivity | left; lia]. Qed.

Lemma determineAuthoritativeCost_arbitrated (identifyResult : IdentifyResult)
  (llmCost : jsval) :
  arbitrated identifyResult (determineAuthoritativeCost identifyResult llmCost).
Proof.
  unfold determineAuthoritativeCost.
  destruct (isCombo identifyResult).
  - destruct (is_str llmCost "R" || is_str llmCost "F") eqn:HRF.
    + destruct (is_str_or _ HRF) as [-> | ->]; [left | right; left]; reflexivity.
    + apply arbitrated_llm.
      destruct (isSpecificCost (actualActionCost identifyResult)) eqn:Hs.
      * destruct (isSpecificCost_num _ Hs) as [m Hm].
        right; right. exists m. rewrite Hm. auto.
      * apply arbitrated_one.
  - destruct (is_range_string (actualActionCost identifyResult)) eqn:Hrange.
    + destruct (is_str llmCost "R" || is_str llmCost "F").
      * apply arbitrated_one.
      * apply arbitrated_llm.
        destruct (group_truthy _) as [d |]; [| apply arbitrated_one].
        destruct (Js.parseInt d) as [m |]; [| apply arbitrated_one].
        right; right. exists m. rewrite Hrange. auto.
    + destruct (isSpecificCost (actualActionCost identifyResult)
                && negb (String.eqb (costSource identifyResult) "LLM")) eqn:Hs.
      * apply andb_true_iff in Hs as [Hs _].
        destruct (isSpecificCost_num _ Hs) as [m Hm].
        right; right. exists m. rewrite Hm. auto.
      * destruct (is_str llmCost "R" || is_str llmCost "F") eqn:HRF.
        -- destruct (is_str_or _ HRF) as [-> | ->];
             [left | right; left]; reflexivity.
        -- apply arbitrated_llm, arbitrated_one.
Qed.

(** The minimum that the arbiter reads back from a range of the catalog. *)
Lemma range_minimum_read (m n : Z) :
  1 <= m <= n -> n <= 3 ->
  let range := Js.string_of_Z m +:+ " to " +:+ Js.string_of_Z n in
  is_range_string (JStr range) = true /\
  exists d, group_truthy (Re.match_group CostRe.range_minimum range 1) = Some d
            /\ Js.parseInt d = Some m.
Proof.
  intros Hm Hn.
  assert (Em : m = 1 \/ m = 2 \/ m = 3) by lia.
  assert (En : n = 1 \/ n = 2 \/ n = 3) by lia.
  destruct Em as [-> | [-> | ->]], En as [-> | [-> | ->]]; try lia;
    (split; [vm_compute; reflexivity |]);
    [exists "1" | exists "1" | exists "1" | exists "2" | exists "2" | exists "3"];
    (split; vm_compute; reflexivity).
Qed.

(** C5, as the code has it.  The arbiter always returns one value that is
    a reaction, a free action or a number, never [null] and never a
    range.  When the catalog cost is one of the data model (absent, one of
    the five concrete costs, or a range within 1..3) the answer is one of
    the five concrete costs; a number of the catalog outside 1..3 is
    passed on as it is. *)
Theorem authoritative_cost_shape (identifyResult : IdentifyResult)
  (llmCost : jsval) :
  let v := determineAuthoritativeCost identifyResult llmCost in
  arbitrated identifyResult v /\
  (specifiedCost (actualActionCost identifyResult) -> concreteCost v).
Proof.
  cbv zeta. split; [apply determineAuthoritativeCost_arbitrated |].
  intros [Hnull | [Hconcrete | (m & n & Hm & Hn & Hrange)]].
  - destruct (determineAuthoritativeCost_arbitrated identifyResult llmCost)
      as [H | [H | (k & H & [Hk | [Hk | Hk]])]].
    + left. exact H.
    + right; left. exact H.
    + right; right. eauto.
    + congruence.
    + rewrite Hnull in Hk. discriminate.
  - destruct (determineAuthoritativeCost_arbitrated identifyResult llmCost)
      as [H | [H | (k & H & [Hk | [Hk | Hk]])]].
    + left. exact H.
    + right; left. exact H.
    + right; right. eauto.
    + destruct Hconcrete as [Hc | [Hc | (j & Hc & Hj)]]; try congruence.
      right; right. exists k. split; [exact H |].
      assert (j = k) by congruence. lia.
    + destruct Hconcrete as [Hc | [Hc | (j & Hc & Hj)]];
        rewrite Hc in Hk; vm_compute in Hk; discriminate.
  - destruct (range_minimum_read m n Hm Hn) as (Hr & d & Hd & Hp).
    cbv zeta in Hr, Hd.
    unfold determineAuthoritativeCost. rewrite Hrange, Hr.
    change (to_string (JStr ?s)) with s. rewrite Hd, Hp.
    assert (Hmin : concreteCost (JNum m)) by (right; right; exists m; split; [reflexivity | lia]).
    assert (Hone : concreteCost (JNum 1)) by (right; right; exists 1; split; [reflexivity | lia]).
    assert (Hllm : forall rest, concreteCost rest ->
              concreteCost match validNumericCost llmCost with
                           | Some k => JNum k
                           | None => rest
                           end).
    { intros rest Hrest.
      destruct (validNumericCost llmCost) as [k |] eqn:Hk; [| exact Hrest].
      right; right. exists k. split; [reflexivity |].
      eapply validNumericCost_range; eassumption. }
    destruct (isCombo identifyResult).
    + destruct (is_str llmCost "R" || is_str llmCost "F") eqn:HRF.
      * destruct (is_str_or _ HRF) as [-> | ->];
          [left | right; left]; reflexivity.
      * apply Hllm. exact Hone.
    + destruct (is_str llmCost "R" || is_str llmCost "F"); [exact Hone |].
      apply Hllm. exact Hmin.
Qed.

Lemma authoritative_cost_shape_witness :
  specifiedCost (actualActionCost healResolution) /\
  concreteCost (determineAuthoritativeCost healResolution JNull).
Proof.
  assert (Hspecified : specifiedCost (actualActionCost healResolution)).
  { right; right. exists 1, 3. split; [lia |]. split; [lia |].
    vm_compute. reflexivity. }
  split; [exact Hspecified |].
  exact (proj2 (authoritative_cost_shape healResolution JNull) Hspecified).
Defined.

(** C5 does not hold as stated: the resolver reads a catalog cost of 0
    from the document of the action, and the arbiter answers 0, which is
    none of the five concrete costs. *)
Lemma authoritative_cost_not_always_concrete :
  identifySuggestionTypeAndCost documents "Quick Draw" gunslinger emptyGameState
    = Some quickDrawResolution
  /\ actualActionCost quickDrawResolution = JNum 0
  /\ determineAuthoritativeCost quickDrawResolution (JNum 1) = JNum 0
  /\ ~ concreteCost (determineAuthoritativeCost quickDrawResolution (JNum 1)).
Proof.
  assert (Hzero : ~ concreteCost (JNum 0)).
  { unfold concreteCost. intros [H | [H | (n & H & Hn)]];
      [discriminate H | discriminate H |].
    injection H as <-. lia. }
  assert (E : determineAuthoritativeCost quickDrawResolution (JNum 1) = JNum 0)
    by (vm_compute; reflexivity).
  split; [vm_compute; reflexivity |].
  split; [vm_compute; reflexivity |].
  split; [exact E |].
  rewrite E. exact Hzero.
Qed.

End CostArbiter.

(** ** The flags of the actor *)

Section FlagStore.

Lemma getTurnState_insert (flags : Flags) (ts : TurnState) :
  getTurnState (<[FLAGS.TURN_STATE := FTurnState ts]> flags) = Some ts.
Proof. unfold getTurnState. by rewrite lookup_insert_eq. Qed.

Lemma getTurnState_insert_other (flags : Flags) (key : string)
  (v : FlagValue) :
  key <> FLAGS.TURN_STATE ->
  getTurnState (<[key := v]> flags) = getTurnState flags.
Proof. intros H. unfold getTurnState. by rewrite lookup_insert_ne. Qed.

Lemma getTurnState_delete_other (flags : Flags) (key : string) :
  key <> FLAGS.TURN_STATE ->
  getTurnState (delete key flags) = getTurnState flags.
Proof. intros H. unfold getTurnState. by rewrite lookup_delete_ne. Qed.

Lemma getTurnState_clear (flags : Flags) :
  getTurnState (clearAITurnFlags flags) = None.
Proof.
  unfold clearAITurnFlags.
  rewrite !getTurnState_delete_other by discriminate.
  unfold getTurnState. by rewrite lookup_delete_eq.
Qed.

Lemma getTurnState_empty : getTurnState ∅ = None.
Proof. reflexivity. Qed.

(** Clearing forgets the cached strikes that a pass has just stored. *)
Lemma clear_cached (flags : Flags) (v : FlagValue) :
  clearAITurnFlags (<[FLAGS.CACHED_STRIKES := v]> flags)
  = clearAITurnFlags flags.
Proof.
  unfold clearAITurnFlags.
  rewrite (delete_insert_ne flags FLAGS.TURN_STATE) by discriminate.
  rewrite (delete_insert_ne _ FLAGS.IS_PROCESSING) by discriminate.
  by rewrite delete_insert_eq.
Qed.

Lemma clear_lookup (flags : Flags) (key : string) :
  In key [FLAGS.TURN_STATE; FLAGS.IS_PROCESSING; FLAGS.CACHED_STRIKES] ->
  clearAITurnFlags flags !! key = None.
Proof.
  unfold clearAITurnFlags. simpl.
  intros [<- | [<- | [<- | []]]].
  - rewrite !lookup_delete_ne by discriminate. apply lookup_delete_eq.
  - rewrite lookup_delete_ne by discriminate. apply lookup_delete_eq.
  - apply lookup_delete_eq.
Qed.

End FlagStore.

(** ** Multiple attack penalty *)

Section MultipleAttackPenalty.

Lemma nextMAP_first (agile : bool) :
  nextMAP 0 agile = penaltyAfter 0 agile.
Proof. reflexivity. Qed.

Lemma nextMAP_later (m : Z) (agile : bool) :
  m <> 0 -> nextMAP m agile = if agile then 8 else 10.
Proof.
  intros Hm. unfold nextMAP. apply Z.eqb_neq in Hm. rewrite Hm.
  by destruct ((m =? 4) || (m =? 5)).
Qed.

Lemma nextMAP_positive (m : Z) (agile : bool) : nextMAP m agile <> 0.
Proof.
  unfold nextMAP.
  destruct (m =? 0), ((m =? 4) || (m =? 5)), agile; discriminate.
Qed.

Lemma update_of_attack (flags : Flags) (ts : TurnState)
  (actionTraits : list string) :
  getTurnState flags = Some ts ->
  hasTrait actionTraits "attack" = true ->
  exists ts',
    getTurnState (_updateMAPBasedOnTrait flags actionTraits) = Some ts'
    /\ currentMAP ts'
       = Some (nextMAP (default 0 (currentMAP ts))
                 (hasTrait actionTraits "agile")).
Proof.
  intros Hts Hattack. unfold _updateMAPBasedOnTrait.
  rewrite Hattack, Hts. simpl.
  destruct (nextMAP _ _ =? default 0 (currentMAP ts)) eqn:E; simpl.
  - exists ts. split; [assumption |].
    apply Z.eqb_eq in E.
    destruct (currentMAP ts) as [m |] eqn:Hm; simpl in *.
    + by rewrite E.
    + by apply nextMAP_positive in E.
  - eexists. split; [apply getTurnState_insert | reflexivity].
Qed.

Lemma update_without_attack (flags : Flags) (actionTraits : list string) :
  hasTrait actionTraits "attack" = false ->
  _updateMAPBasedOnTrait flags actionTraits = flags.
Proof. intros H. unfold _updateMAPBasedOnTrait. by rewrite H. Qed.

(** The state saved on confirmation keeps the penalty it found. *)
Lemma confirmedTurnState_MAP (ts : TurnState) (cost : Z) (text : string) :
  currentMAP (confirmedTurnState ts cost text) = currentMAP ts.
Proof.
  unfold confirmedTurnState. by destruct (splitActionDescription text).
Qed.

Lemma confirm_attack (flags : Flags) (ts : TurnState) (action : Confirmation) :
  getTurnState flags = Some ts ->
  isAttack action = true ->
  exists ts',
    getTurnState (confirm flags action) = Some ts'
    /\ currentMAP ts'
       = Some (nextMAP (default 0 (currentMAP ts)) (isAgile action)).
Proof.
  intros Hts Hattack. unfold confirm, confirmedFlags. rewrite Hts. cbv zeta.
  edestruct update_of_attack as (ts' & Hts' & Hmap);
    [apply getTurnState_insert | exact Hattack |].
  exists ts'. split; [exact Hts' |].
  rewrite Hmap, confirmedTurnState_MAP. reflexivity.
Qed.

Lemma confirm_other (flags : Flags) (action : Confirmation) :
  isAttack action = false ->
  storedMAP (confirm flags action) = storedMAP flags.
Proof.
  intros Hother. unfold confirm, confirmedFlags, storedMAP.
  destruct (getTurnState flags) as [ts |] eqn:Hts; cbv zeta.
  - rewrite update_without_attack by exact Hother.
    rewrite getTurnState_insert. simpl. apply confirmedTurnState_MAP.
  - by rewrite getTurnState_clear.
Qed.

(** The penalty stays where it was until the first attack and is never 0
    again after it. *)
Lemma penalty_after_confirmations (actions : list Confirmation) :
  forall (flags : Flags) (m : Z),
    storedMAP flags = Some m ->
    exists m', storedMAP (afterActions flags actions) = Some m'
      /\ (attacksAmong actions = 0%nat -> m' = m)
      /\ (attacksAmong actions <> 0%nat -> m' <> 0).
Proof.
  induction actions as [| a actions IH]; intros flags m Hm.
  - exists m. simpl. by repeat split.
  - unfold afterActions, attacksAmong. simpl.
    destruct (isAttack a) eqn:Ha.
    + unfold storedMAP in Hm.
      destruct (getTurnState flags) as [ts |] eqn:Hts; [| discriminate].
      simpl in Hm.
      destruct (confirm_attack flags ts a Hts Ha) as (ts1 & Hts1 & Hmap1).
      destruct (IH (confirm flags a) (nextMAP (default 0 (currentMAP ts))
                                       (isAgile a)))
        as (m' & Hm' & Hnone & Hsome).
      { unfold storedMAP. rewrite Hts1. exact Hmap1. }
      exists m'. split; [exact Hm' |]. split; [discriminate |].
      intros _. destruct (Nat.eq_dec (attacksAmong actions) 0%nat) as [E | E].
      * rewrite (Hnone E). apply nextMAP_positive.
      * apply Hsome, E.
    + apply IH. rewrite confirm_other by exact Ha. exact Hm.
Qed.

(** C4. Starting from a penalty of 0, the penalty stored after a confirmed
    attack is 4 (agile) or 5 when no attack was confirmed before it and 8
    (agile) or 10 when one was, whatever else was confirmed in between; a
    confirmed action without the attack trait leaves the penalty as it
    is. *)
Theorem map_progression (flags : Flags) :
  storedMAP flags = Some 0 ->
  (forall (earlier : list Confirmation) (action : Confirmation),
      isAttack action = true ->
      storedMAP (afterActions flags (earlier ++ [action]))
      = Some (penaltyAfter (attacksAmong earlier) (isAgile action)))
  /\ (forall (flags' : Flags) (action : Confirmation),
         isAttack action = false ->
         storedMAP (confirm flags' action) = storedMAP flags').
Proof.
  intros Hzero. split; [| intros flags' action; apply confirm_other].
  intros earlier action Hattack.
  destruct (penalty_after_confirmations earlier flags 0 Hzero)
    as (m & Hm & Hnone & Hsome).
  unfold afterActions in *. rewrite fold_left_app. simpl.
  unfold storedMAP in Hm.
  destruct (getTurnState (fold_left confirm earlier flags)) as [ts |] eqn:Hts;
    [| discriminate].
  simpl in Hm.
  destruct (confirm_attack _ ts action Hts Hattack) as (ts' & Hts' & Hmap).
  unfold storedMAP. rewrite Hts'. simpl. rewrite Hmap, Hm. simpl. f_equal.
  destruct (attacksAmong earlier) as [| k] eqn:Hk.
  - rewrite Hnone by reflexivity. reflexivity.
  - apply nextMAP_later, Hsome. discriminate.
Qed.

Lemma map_progression_witness :
  storedMAP (afterActions acceptedFlags [maul]) = Some 5
  /\ storedMAP (afterActions acceptedFlags [stride; fist]) = Some 4
  /\ storedMAP (afterActions acceptedFlags [maul; stride; maul]) = Some 10
  /\ storedMAP (afterActions acceptedFlags [maul; fist]) = Some 8
  /\ storedMAP (confirm acceptedFlags stride) = storedMAP acceptedFlags.
Proof.
  assert (H0 : storedMAP acceptedFlags = Some 0) by reflexivity.
  destruct (map_progression acceptedFlags H0) as [Hseq Hother].
  split; [| split; [| split; [| split]]].
  - exact (Hseq [] maul eq_refl).
  - exact (Hseq [stride] fist eq_refl).
  - exact (Hseq [maul; stride] maul eq_refl).
  - exact (Hseq [maul] fist eq_refl).
  - exact (Hother acceptedFlags stride eq_refl).
Defined.

End MultipleAttackPenalty.

(** ** The invariant of the turn state *)

Section TurnInvariant.

Lemma nextMAP_valid (m : Z) (isAgile : bool) : validMAP (nextMAP m isAgile).
Proof.
  unfold nextMAP, validMAP.
  destruct (m =? 0), ((m =? 4) || (m =? 5)), isAgile; simpl; lia.
Qed.

Lemma accepted_ok : turnStateOk acceptedTurnState.
Proof. split; [simpl; lia | exists 0; split; [reflexivity | unfold validMAP; simpl; lia]]. Qed.

Lemma entering_ok (notes : option string) (updated : option TurnState) :
  (forall ts, updated = Some ts -> turnStateOk ts) ->
  turnStateOk (enteringTurnState notes updated).
Proof.
  intros Hupdated. unfold enteringTurnState.
  destruct updated as [ts |].
  - destruct (Hupdated ts eq_refl) as [Hactions (m & Hm & Hvalid)].
    assert (Hok : forall n,
               turnStateOk
                 (setManualNotes
                    (setConditionsAtStart ts
                       (Some (default 0 (stunnedValueAtStart ts)))
                       (Some (default 0 (slowedValueAtStart ts)))) n)).
    { intros n. split; [exact Hactions | exists m; split; assumption]. }
    assert (Hok' : turnStateOk
                     (setConditionsAtStart ts
                        (Some (default 0 (stunnedValueAtStart ts)))
                        (Some (default 0 (slowedValueAtStart ts))))).
    { split; [exact Hactions | exists m; split; assumption]. }
    destruct notes as [n |]; simpl.
    + destruct (Js.truthy n && Js.truthy (Js.trim n)); simpl;
        rewrite Hm; simpl.
      * apply Hok.
      * destruct (manualNotes ts); [exact Hok' | apply Hok].
    + rewrite Hm. simpl. destruct (manualNotes ts); [exact Hok' | apply Hok].
  - simpl. split; [simpl; lia | exists 0; split; [reflexivity | unfold validMAP; simpl; lia]].
Qed.

Lemma calculatedStartActions_nonneg (conditions : list Condition) :
  0 <= calculatedStartActions conditions.
Proof. unfold calculatedStartActions. lia. Qed.

Lemma working_ok (notes : option string) (updated : option TurnState)
  (conditions : list Condition) :
  (forall ts, updated = Some ts -> turnStateOk ts) ->
  turnStateOk (workingTurnState notes updated conditions).
Proof.
  intros Hupdated. unfold workingTurnState.
  pose proof (entering_ok notes updated Hupdated) as [Hactions Hmap].
  destruct updated; [by split |].
  split; [apply calculatedStartActions_nonneg | exact Hmap].
Qed.

Lemma confirmed_ok (ts : TurnState) (actionCost : Z)
  (actionDescription : string) :
  turnStateOk ts -> turnStateOk (confirmedTurnState ts actionCost actionDescription).
Proof.
  intros [_ Hmap]. unfold confirmedTurnState.
  destruct (splitActionDescription actionDescription).
  split; [simpl; lia | exact Hmap].
Qed.

Lemma flagsOk_empty : flagsOk ∅.
Proof. intros ts. rewrite getTurnState_empty. discriminate. Qed.

Lemma flagsOk_clear (flags : Flags) : flagsOk (clearAITurnFlags flags).
Proof. intros ts. rewrite getTurnState_clear. discriminate. Qed.

Lemma flagsOk_set (flags : Flags) (ts : TurnState) :
  turnStateOk ts -> flagsOk (<[FLAGS.TURN_STATE := FTurnState ts]> flags).
Proof. intros Hok ts'. rewrite getTurnState_insert. by intros [= <-]. Qed.

Lemma flagsOk_same (flags flags' : Flags) :
  getTurnState flags' = None \/ getTurnState flags' = getTurnState flags ->
  flagsOk flags -> flagsOk flags'.
Proof.
  intros [H | H] Hok ts; rewrite H; [discriminate | apply Hok].
Qed.

Lemma update_ok (flags : Flags) (actionTraits : list string) :
  flagsOk flags -> flagsOk (_updateMAPBasedOnTrait flags actionTraits).
Proof.
  intros Hok. unfold _updateMAPBasedOnTrait.
  destruct (negb (hasTrait actionTraits "attack")); [exact Hok |].
  destruct (getTurnState flags) as [ts |] eqn:Hts; [| exact Hok].
  destruct (negb _); [| exact Hok].
  apply flagsOk_set. destruct (Hok ts Hts) as [Hactions _].
  split; [exact Hactions |]. eexists. split; [reflexivity |].
  apply nextMAP_valid.
Qed.

Lemma manual_ok (flags : Flags) (mapValue : option Z) (isCurrentTurn : bool) :
  flagsOk flags -> flagsOk (_onManualMAPAdjust flags mapValue isCurrentTurn).
Proof.
  intros Hok. unfold _onManualMAPAdjust.
  destruct mapValue as [v |]; [| exact Hok].
  destruct (existsb (Z.eqb v) [0; 4; 5; 8; 10]) eqn:Hin; [| exact Hok].
  simpl. destruct (negb isCurrentTurn || negb (isProcessing flags));
    [exact Hok |].
  destruct (getTurnState flags) as [ts |] eqn:Hts; [| exact Hok].
  destruct (bool_decide _); [exact Hok |].
  apply flagsOk_set. destruct (Hok ts Hts) as [Hactions _].
  split; [exact Hactions |]. exists v. split; [reflexivity |].
  apply existsb_exists in Hin as (x & Hx & Heq).
  apply Z.eqb_eq in Heq. by subst.
Qed.

Lemma record_ok (flags : Flags) (targetTokenName actionName : string) :
  flagsOk flags ->
  flagsOk (recordSuccessfulStrike flags targetTokenName actionName).
Proof.
  intros Hok. unfold recordSuccessfulStrike.
  destruct (getTurnState flags) as [ts |] eqn:Hts; [| exact Hok].
  apply flagsOk_set. exact (Hok ts Hts).
Qed.

(** A pass never writes the turn state: it leaves it or removes it. *)
Lemma requestPass_turn_state (env : Env) (reply : option string)
  (flags : Flags) (skipped notes : option string)
  (updated : option TurnState) :
  match requestPass env reply flags skipped notes updated with
  | Over flags' _ | Again flags' _ _ _ _ =>
      getTurnState flags' = None \/ getTurnState flags' = getTurnState flags
  | Stuck => True
  end.
Proof.
  unfold requestPass, surfaceError.
  repeat case_match; simplify_eq;
    rewrite ?getTurnState_clear, ?getTurnState_insert_other by discriminate;
    auto.
Qed.

Lemma request_turn_state (env : Env) (replies : list (option string)) :
  forall (flags flags' : Flags) (skipped notes : option string)
         (updated : option TurnState) (events : list Event),
    requestNextAISuggestion env replies flags skipped notes updated
    = Some (flags', events) ->
    getTurnState flags' = None \/ getTurnState flags' = getTurnState flags.
Proof.
  induction replies as [| reply replies IH];
    intros flags flags' skipped notes updated events; simpl.
  - pose proof (requestPass_turn_state env None flags skipped notes updated) as H.
    destruct (requestPass env None flags skipped notes updated);
      intros [= <- <-] || discriminate; exact H.
  - pose proof (requestPass_turn_state env reply flags skipped notes updated)
      as H.
    destruct (requestPass env reply flags skipped notes updated)
      as [f e | f e sk n again |]; [| | discriminate].
    + intros [= <- <-]. exact H.
    + destruct (requestNextAISuggestion env replies f (Some sk) n again)
        as [[f2 later] |] eqn:Hrec; [| discriminate].
      intros [= <- <-]. apply IH in Hrec.
      destruct Hrec as [Hrec | Hrec]; [by left |].
      rewrite Hrec. exact H.
Qed.

Lemma request_ok (env : Env) (replies : list (option string))
  (flags flags' : Flags) (skipped notes : option string)
  (updated : option TurnState) (events : list Event) :
  requestNextAISuggestion env replies flags skipped notes updated
  = Some (flags', events) ->
  flagsOk flags -> flagsOk flags'.
Proof. intros H. eapply flagsOk_same, request_turn_state, H. Qed.

Lemma handle_ok (env : Env) (replies : list (option string)) (input : Input)
  (flags flags' : Flags) (events : list Event) :
  handle env replies input flags = Some (flags', events) ->
  flagsOk flags -> flagsOk flags'.
Proof.
  destruct input; simpl; intros H Hok.
  - unfold _onAcceptControlClick in H.
    destruct (negb (turnIsCurrent env)); [by injection H as <- <- |].
    eapply request_ok; [exact H |].
    intros ts. rewrite getTurnState_delete_other by discriminate.
    rewrite getTurnState_insert. intros [= <-]. apply accepted_ok.
  - unfold _onConfirmActionClick in H.
    destruct (negb (turnIsCurrent env));
      [injection H as <- <-; apply flagsOk_clear |].
    destruct (getTurnState flags) as [ts |] eqn:Hts;
      [| injection H as <- <-; apply flagsOk_clear].
    destruct (parseInt_val actionCost) as [c |];
      [| by injection H as <- <-].
    destruct ((c <? 0) || (actionsRemaining ts <? c));
      [by injection H as <- <- |].
    destruct (identifySuggestionTypeAndCost _ _ _ _); [| discriminate].
    eapply request_ok; [exact H |]. unfold confirmedFlags.
    apply update_ok, flagsOk_set, confirmed_ok, Hok, Hts.
  - unfold _onSkipActionClick in H.
    destruct (negb (turnIsCurrent env));
      [injection H as <- <-; apply flagsOk_clear |].
    destruct (getTurnState flags) as [ts |] eqn:Hts;
      [| injection H as <- <-; apply flagsOk_clear].
    destruct (negb (isProcessing flags));
      [injection H as <- <-; apply flagsOk_clear |].
    eapply request_ok; [exact H |].
    apply flagsOk_set. exact (Hok ts Hts).
  - injection H as <- <-. by apply manual_ok.
  - injection H as <- <-.
    destruct (turnIsCurrent env); [by apply record_ok | exact Hok].
  - unfold _onRetryTurnClick in H.
    destruct (negb (turnIsCurrent env)); [by injection H as <- <- |].
    eapply request_ok; eassumption.
  - injection H as <- <-. apply flagsOk_clear.
Qed.

Lemma run_ok (session : list (Env * list (option string) * Input)) :
  forall flags flags',
    run session flags = Some flags' -> flagsOk flags -> flagsOk flags'.
Proof.
  induction session as [| [[env replies] input] session IH];
    intros flags flags'; simpl.
  - by intros [= <-].
  - destruct (handle env replies input flags) as [[f e] |] eqn:Hh;
      [| discriminate].
    intros Hrun Hok. eapply IH; [exact Hrun |].
    eapply handle_ok; eassumption.
Qed.

(** C2. Whatever the inputs of a session (accepting control, confirming,
    skipping, adjusting the penalty by hand, recorded strikes, retries),
    the turn state kept in the flags never has a negative number of
    actions and its penalty is one of 0, 4, 5, 8, 10; and each of the
    operations that touch the turn state keeps that property: the state a
    call starts with and recalculates, the state saved on confirmation, the
    automatic advance of the penalty and the manual override. *)
Theorem turn_state_invariant :
  (forall session flags, run session ∅ = Some flags -> flagsOk flags)
  /\ (forall notes conditions,
         turnStateOk (workingTurnState notes None conditions))
  /\ (forall notes updated conditions,
         turnStateOk updated ->
         turnStateOk (workingTurnState notes (Some updated) conditions))
  /\ (forall ts actionCost actionDescription,
         turnStateOk ts ->
         turnStateOk (confirmedTurnState ts actionCost actionDescription))
  /\ (forall flags actionTraits,
         flagsOk flags -> flagsOk (_updateMAPBasedOnTrait flags actionTraits))
  /\ (forall flags mapValue isCurrentTurn,
         flagsOk flags ->
         flagsOk (_onManualMAPAdjust flags mapValue isCurrentTurn)).
Proof.
  split; [| split; [| split; [| split; [| split]]]].
  - intros session flags Hrun. eapply run_ok; [exact Hrun | apply flagsOk_empty].
  - intros notes conditions. apply working_ok. discriminate.
  - intros notes updated conditions Hok. apply working_ok. by intros ts [= <-].
  - apply confirmed_ok.
  - apply update_ok.
  - apply manual_ok.
Qed.

End TurnInvariant.

Lemma turn_state_invariant_witness :
  exists flags,
    run Scenario.session ∅ = Some flags
    /\ flagsOk flags
    /\ actionsRemaining <$> getTurnState flags = Some 2
    /\ storedMAP flags = Some 4.
Proof.
  destruct turn_state_invariant as [Hrun _].
  eexists. split; [vm_compute; reflexivity |].
  split; [| split; vm_compute; reflexivity].
  apply (Hrun Scenario.session). vm_compute. reflexivity.
Defined.

(** ** The start of a turn *)

Section TurnStart.

Lemma requestPass_zero (env : Env) (reply : option string) (flags : Flags)
  (skipped notes : option string) (gs : GameState) (selfInfo : SelfInfo) :
  turnIsCurrent env = true ->
  gathered env = Some gs ->
  self gs = Some selfInfo ->
  calculatedStartActions (conditionsEffects selfInfo) = 0 ->
  requestPass env reply flags skipped notes None
  = Over (clearAITurnFlags flags)
      [ChatThinking 3 0;
       ChatZeroActionStart
         (conditionValue (conditionsEffects selfInfo) "stunned")
         (conditionValue (conditionsEffects selfInfo) "slowed");
       ThinkingDeleted].
Proof.
  intros Hturn Hgathered Hself Hzero. unfold requestPass.
  rewrite Hturn, Hgathered, Hself. simpl.
  unfold workingTurnState. simpl. rewrite Hzero. reflexivity.
Qed.

(** C3. When no turn state is carried in, the number of actions the call
    works with is [max(0, 3 - max(stunned, slowed))], read from the
    conditions of the snapshot; and when that number is 0 the call posts
    the zero-action card, clears the flags and returns, whatever the
    language model would have answered: it is not called. *)
Theorem start_of_turn (env : Env) (replies : list (option string))
  (flags : Flags) (skipped notes : option string) (gs : GameState)
  (selfInfo : SelfInfo) :
  turnIsCurrent env = true ->
  gathered env = Some gs ->
  self gs = Some selfInfo ->
  let stunnedValue := conditionValue (conditionsEffects selfInfo) "stunned" in
  let slowedValue := conditionValue (conditionsEffects selfInfo) "slowed" in
  let start := Z.max 0 (3 - Z.max stunnedValue slowedValue) in
  actionsRemaining (workingTurnState notes None (conditionsEffects selfInfo))
  = start
  /\ (start = 0 ->
      requestNextAISuggestion env replies flags skipped notes None
      = Some (clearAITurnFlags flags,
              [ChatThinking 3 0;
               ChatZeroActionStart stunnedValue slowedValue;
               ThinkingDeleted])).
Proof.
  intros Hturn Hgathered Hself. cbv zeta. split; [reflexivity |].
  intros Hzero.
  destruct replies as [| reply replies]; simpl;
    by erewrite requestPass_zero.
Qed.

Lemma start_of_turn_witness :
  actionsRemaining
    (workingTurnState None None
       [Scenario.condition "Stunned 2" 2; Scenario.condition "Slowed" 0]) = 1
  /\ requestNextAISuggestion (Scenario.env [Scenario.condition "Stunned 4" 4])
       [Some Scenario.clawReply] ∅ None None None
     = Some (clearAITurnFlags ∅,
             [ChatThinking 3 0; ChatZeroActionStart 4 0; ThinkingDeleted]).
Proof.
  split.
  - apply (start_of_turn
             (Scenario.env [Scenario.condition "Stunned 2" 2;
                            Scenario.condition "Slowed" 0])
             [] ∅ None None _ _ eq_refl eq_refl eq_refl).
  - apply (start_of_turn (Scenario.env [Scenario.condition "Stunned 4" 4])
             [Some Scenario.clawReply] ∅ None None _ _ eq_refl eq_refl eq_refl).
    reflexivity.
Defined.

(** The recalculated number stays inside the call: the card of a troll
    that is stunned 2 shows one action, and the turn state in the flags is
    still the one written when control was accepted. *)
Example recalculation_is_not_stored :
  exists flags card,
    _onAcceptControlClick (Scenario.env [Scenario.condition "Stunned 2" 2])
      [Some Scenario.clawReply] ∅
    = Some (flags,
            [ChatThinking 3 0; LLMCalled ForSuggestion None;
             ChatSuggestion card; ThinkingDeleted])
    /\ card_actionsRemaining card = 1
    /\ actionsRemaining <$> getTurnState flags = Some 3.
Proof.
  eexists _, _. split; [vm_compute; reflexivity |].
  split; vm_compute; reflexivity.
Qed.

End TurnStart.

(** ** Cost against the remaining actions *)

Section CostOverrun.

Lemma entering_positive (notes : option string) (updated : option TurnState)
  (conditions : list Condition) :
  0 < actionsRemaining (workingTurnState notes updated conditions) ->
  0 < actionsRemaining (enteringTurnState notes updated).
Proof.
  unfold workingTurnState. destruct updated; [trivial |].
  intros _. simpl. lia.
Qed.

(** What [processReply] does once the reply is parsed, is not a passive
    ability, is resolved and is not refused by the prerequisite block. *)
Lemma processReply_finish (env : Env) (gs : GameState) (selfInfo : SelfInfo)
  (turnState : TurnState) (reply : string) (p : ParsedSuggestion)
  (r : IdentifyResult) :
  parseReply reply = Some p ->
  suggestsPassiveOnly selfInfo (suggestedDescription p) = Some false ->
  identifySuggestionTypeAndCost (game env) (suggestedDescription p)
    (actor env) gs = Some r ->
  prerequisitesMet (checkPrerequisites (actor env) gs turnState
                      (suggestedDescription p) r) ->
  processReply env gs selfInfo turnState reply
  = finishSuggestion turnState p (suggestedDescription p) r.
Proof.
  intros Hparse Hpassive Hidentify Hprereq. unfold processReply.
  rewrite Hparse. cbv zeta. rewrite Hpassive, Hidentify.
  by destruct Hprereq as [-> | [-> | ->]].
Qed.

(** C1, as the code has it.  When the reply is parsed and resolved, the
    prerequisite block lets the suggestion through, and the arbitrated cost
    needs more actions than are left (and at least one), the call notifies
    the user of the error, posts no suggestion, deducts nothing, and clears
    the flags of the actor, turn state included. *)
Theorem cost_overrun (env : Env) (reply : string)
  (replies : list (option string)) (flags : Flags)
  (skipped notes : option string) (updated : option TurnState)
  (gs : GameState) (selfInfo : SelfInfo) (p : ParsedSuggestion)
  (r : IdentifyResult) :
  turnIsCurrent env = true ->
  gathered env = Some gs ->
  self gs = Some selfInfo ->
  llmConfigured env = true ->
  let entering := enteringTurnState notes updated in
  let turnState := workingTurnState notes updated (conditionsEffects selfInfo) in
  Js.truthy reply = true ->
  parseReply reply = Some p ->
  let description := suggestedDescription p in
  suggestsPassiveOnly selfInfo description = Some false ->
  identifySuggestionTypeAndCost (game env) description (actor env) gs
  = Some r ->
  prerequisitesMet (checkPrerequisites (actor env) gs turnState description r) ->
  let authoritativeCost := determineAuthoritativeCost r (cost p) in
  let numericCost := numericCostForValidation authoritativeCost in
  0 < actionsRemaining turnState ->
  actionsRemaining turnState < numericCost ->
  requestNextAISuggestion env (Some reply :: replies) flags skipped notes
    updated
  = Some (clearAITurnFlags flags,
          [ChatThinking (actionsRemaining entering)
             (default 0 (currentMAP entering));
           LLMCalled ForSuggestion skipped;
           NotifyError
             ("PF2e AI Combat Assistant Error: "
              +:+ costOverrunMessage authoritativeCost numericCost
                    (actionsRemaining turnState));
           ThinkingDeleted])
  /\ getTurnState (clearAITurnFlags flags) = None.
Proof.
  intros Hturn Hgathered Hself Hllm entering turnState Hreply Hparse
    description Hpassive Hidentify Hprereq authoritativeCost numericCost
    Hleft Hover.
  split; [| apply getTurnState_clear].
  pose proof (entering_positive _ _ _ Hleft) as Hentering.
  change (0 < actionsRemaining entering) in Hentering.
  simpl. unfold requestPass.
  rewrite Hturn, Hgathered, Hself, Hllm, Hreply. simpl.
  fold entering turnState.
  destruct (actionsRemaining entering <=? 0) eqn:E1; [lia |].
  destruct (actionsRemaining turnState =? 0) eqn:E2; [lia |].
  rewrite (processReply_finish env gs selfInfo turnState reply p r)
    by assumption.
  unfold finishSuggestion. fold description authoritativeCost numericCost.
  destruct (0 <? numericCost) eqn:E3; [| lia].
  destruct (actionsRemaining turnState <? numericCost) eqn:E4; [| lia].
  simpl. by rewrite clear_cached.
Qed.

End CostOverrun.

Lemma cost_overrun_witness :
  requestNextAISuggestion (Elite.env "Troll") [Some Elite.reply] Overrun.flags
    None (Some "") (Some Overrun.turnState)
  = Some (clearAITurnFlags Overrun.flags,
          [ChatThinking 1 0; LLMCalled ForSuggestion None;
           NotifyError
             ("PF2e AI Combat Assistant Error: Suggested action requires 2 "
              +:+ "actions (minimum 2), but only 1 remaining.");
           ThinkingDeleted]).
Proof.
  refine (proj1 (cost_overrun (Elite.env "Troll") Elite.reply [] Overrun.flags
                   None (Some "") (Some Overrun.turnState) _ _ Elite.parsed
                   Elite.resolved eq_refl eq_refl eq_refl eq_refl
                   _ _ _ _ _ _ _)).
  - vm_compute. reflexivity.
  - vm_compute. reflexivity.
  - vm_compute. reflexivity.
  - vm_compute. reflexivity.
  - right; left. vm_compute. reflexivity.
  - vm_compute. reflexivity.
  - vm_compute. reflexivity.
Defined.

(** The name of the actor is part of the pattern.  With the parentheses
    of "Troll (Elite)" the pattern asks for "Troll Elite:": the event of
    the actor is not found, the check fails and another suggestion is
    requested, before the cost is looked at. *)
Example name_with_parentheses_fails_the_check :
  checkPrerequisites (Elite.troll "Troll") (Elite.snapshot "Troll")
    Overrun.turnState "Grab, Goblin" Elite.resolved = CheckPassed
  /\ processReply (Elite.env "Troll (Elite)") (Elite.snapshot "Troll (Elite)")
       (mkSelfInfo [] [] [] [] [] [] [] [] []) Overrun.turnState Elite.reply
     = Retry "Grab (Failed Prereqs)" (Some Overrun.turnState).
Proof. split; vm_compute; reflexivity. Qed.

(** A name that is not a pattern makes [new RegExp] throw: the error of
    the engine is surfaced and the flags are cleared. *)
Example name_that_is_no_pattern_throws :
  requestNextAISuggestion (Elite.env "Troll (") [Some Elite.reply]
    Overrun.flags None (Some "") (Some Overrun.turnState)
  = Some (clearAITurnFlags Overrun.flags,
          [ChatThinking 1 0; LLMCalled ForSuggestion None;
           NotifyError
             ("PF2e AI Combat Assistant Error: Invalid regular expression: "
              +:+ "/^Troll (:.*->\s+(Success|CriticalSuccess).*\(plus Grab\)/i");
           ThinkingDeleted]).
Proof. vm_compute. reflexivity. Qed.

(** C1 does not hold as stated: the cost of the suggestion (2) exceeds
    the action that is left (1), the error is surfaced, and the turn state
    that was in the flags is gone afterwards. *)
Lemma cost_overrun_clears_turn_state :
  getTurnState Overrun.flags = Some Overrun.turnState
  /\ actionsRemaining Overrun.turnState = 1
  /\ numericCostForValidation
       (determineAuthoritativeCost Overrun.resolved (cost Overrun.parsed)) = 2
  /\ exists flags' events,
       requestNextAISuggestion (Scenario.env []) [Some Overrun.reply]
         Overrun.flags None (Some "") (Some Overrun.turnState)
       = Some (flags', events)
       /\ getTurnState flags' <> getTurnState Overrun.flags.
Proof.
  split; [reflexivity |]. split; [reflexivity |].
  split; [vm_compute; reflexivity |].
  eexists _, _. split; [vm_compute; reflexivity |].
  vm_compute. discriminate.
Qed.


(** ** The line-by-line fallback of the parser *)

Section ParserFallback.

Lemma scanLine_cost (st : LineScan) (line : string) :
  potentialCost (scanLine st line)
  = if jsval_eqb (potentialCost st) JNull then lineCost line
    else potentialCost st.
Proof.
  unfold scanLine, lineCost. simpl.
  destruct (group_truthy _); [reflexivity |].
  by destruct (jsval_eqb (potentialCost st) JNull) eqn:E;
    [apply jsval_eqb_eq in E |].
Qed.

(** No line with a valid cost: the scan ends without a cost. *)
Lemma scan_without_cost (lines : list string) :
  forall st,
    potentialCost st = JNull ->
    Forall (fun line => lineCost line = JNull) lines ->
    potentialCost (fold_left scanLine lines st) = JNull.
Proof.
  induction lines as [| line lines IH]; intros st Hst Hlines; [exact Hst |].
  inversion Hlines as [| ? ? Hline Hrest]; subst. simpl.
  apply IH; [| exact Hrest].
  rewrite scanLine_cost, Hst. exact Hline.
Qed.

Lemma lines_without_cost (lines : list string) :
  forallb (fun line => jsval_eqb (lineCost line) JNull) lines = true ->
  Forall (fun line => lineCost line = JNull) lines.
Proof.
  intros H. apply Forall_forall. intros line Hline.
  apply jsval_eqb_eq.
  by apply (proj1 (forallb_forall _ _) H), list_elem_of_In.
Qed.

(** C8. When the block phase does not succeed and the scan of the lines
    finds an action and a target but no line with a valid cost (no
    [COST:] line, or a value that is not ['R'], ['F'] or 1 to 3), the
    parser returns a suggestion, with the action and the target found and
    a cost of 1. *)
Theorem fallback_default_cost (responseString a t : string) :
  Js.truthy responseString = true ->
  let reply := normalizeReply responseString in
  parseBlocks reply = None ->
  potentialAction (scanLines reply) = Some a ->
  Js.truthy a = true ->
  potentialTarget (scanLines reply) = Some t ->
  Js.truthy t = true ->
  Forall (fun line => lineCost line = JNull) (Js.split reply Js.newline) ->
  exists p,
    parseLLMSuggestion responseString = Some p
    /\ cost p = JNum 1
    /\ description p = a
    /\ target p = Some t.
Proof.
  intros Hreply reply Hblocks Haction Ha Htarget Ht Hcost.
  unfold parseLLMSuggestion. rewrite Hreply. simpl. fold reply.
  rewrite Hblocks. unfold parseLines.
  rewrite Haction, Htarget, Ha, Ht. simpl.
  assert (Hnull : potentialCost (scanLines reply) = JNull)
    by (apply scan_without_cost; [reflexivity | exact Hcost]).
  rewrite Hnull. simpl. eexists. by repeat split.
Qed.

(** The example of the specification, and a reply whose cost is out of
    range. *)
Lemma fallback_default_cost_witness :
  (exists p,
     parseLLMSuggestion
       ("ACTION: Stride" +:+ Scenario.nl +:+ "TARGET: Self" +:+ Scenario.nl)
     = Some p
     /\ cost p = JNum 1 /\ description p = "Stride" /\ target p = Some "Self")
  /\ (exists p,
        parseLLMSuggestion
          ("ACTION: Stride" +:+ Scenario.nl +:+ "TARGET: Self" +:+ Scenario.nl
           +:+ "COST: 5 actions")
        = Some p
        /\ cost p = JNum 1 /\ description p = "Stride"
        /\ target p = Some "Self").
Proof.
  split.
  - apply (fallback_default_cost
             ("ACTION: Stride" +:+ Scenario.nl +:+ "TARGET: Self"
              +:+ Scenario.nl) "Stride" "Self");
      try (vm_compute; reflexivity).
    apply lines_without_cost. vm_compute. reflexivity.
  - apply (fallback_default_cost
             ("ACTION: Stride" +:+ Scenario.nl +:+ "TARGET: Self"
              +:+ Scenario.nl +:+ "COST: 5 actions") "Stride" "Self");
      try (vm_compute; reflexivity).
    apply lines_without_cost. vm_compute. reflexivity.
Defined.

End ParserFallback.

(** ** Prerequisites without a target *)

Section PrerequisiteWithoutTarget.

(** C10. When the resolved action is Rend, Grab, Trip or Shove and the
    description does not name a target after the action (no match of
    "name, target", or only white space after the comma), the prerequisite
    block decides nothing: no retry is requested and the call goes on to
    the arbitration of the cost and to the suggestion card. *)
Theorem prerequisite_skipped_without_target (env : Env) (gs : GameState)
  (selfInfo : SelfInfo) (turnState : TurnState) (reply : string)
  (p : ParsedSuggestion) (r : IdentifyResult) (name verb : string) :
  parseReply reply = Some p ->
  let description := suggestedDescription p in
  suggestsPassiveOnly selfInfo description = Some false ->
  identifySuggestionTypeAndCost (game env) description (actor env) gs
  = Some r ->
  resolvedActionName r = Some name ->
  Js.toLowerCase name = verb ->
  In verb ["rend"; "grab"; "trip"; "shove"] ->
  targetNameAfter verb description = None ->
  checkPrerequisites (actor env) gs turnState description r = CheckSkipped
  /\ processReply env gs selfInfo turnState reply
     = finishSuggestion turnState p description r.
Proof.
  intros Hparse description Hpassive Hidentify Hname Hlower Hverb Htarget.
  assert (Hskipped : checkPrerequisites (actor env) gs turnState description r
                     = CheckSkipped).
  { unfold checkPrerequisites. rewrite Hname. cbv zeta. rewrite Hlower.
    simpl in Hverb.
    destruct Hverb as [<- | [<- | [<- | [<- | []]]]];
      simpl; by rewrite Htarget. }
  split; [exact Hskipped |].
  apply processReply_finish; try assumption.
  fold description. rewrite Hskipped. right; right. reflexivity.
Qed.

End PrerequisiteWithoutTarget.

Lemma prerequisite_skipped_without_target_witness :
  processReply Grappler.env (Scenario.snapshot [])
    (mkSelfInfo [] [] [] [] [] [] [] [] []) acceptedTurnState Grappler.reply
  = Shown {| card_description := "@UUID[Actor.troll.Item.grab]{Grab}";
             data_action_cost := JNum 1;
             data_action_desc :=
               "@UUID[Actor.troll.Item.grab]{Grab} | TARGET: Goblin [ID: tok1]";
             card_actionsRemaining := 3;
             card_currentMAP := 0 |}
  /\ processReply Grappler.env (Scenario.snapshot [])
       (mkSelfInfo [] [] [] [] [] [] [] [] []) acceptedTurnState
       Grappler.replyWithTarget
     = Retry "Grab (Failed Prereqs)" (Some acceptedTurnState).
Proof.
  split; [| vm_compute; reflexivity].
  rewrite (proj2 (prerequisite_skipped_without_target Grappler.env
                    (Scenario.snapshot []) (mkSelfInfo [] [] [] [] [] [] [] [] [])
                    acceptedTurnState Grappler.reply Grappler.parsed
                    Grappler.resolved "Grab" "grab"
                    ltac:(vm_compute; reflexivity)
                    ltac:(vm_compute; reflexivity)
                    ltac:(vm_compute; reflexivity)
                    ltac:(vm_compute; reflexivity)
                    ltac:(vm_compute; reflexivity)
                    ltac:(simpl; tauto)
                    ltac:(vm_compute; reflexivity))).
  vm_compute. reflexivity.
Defined.

(** ** Overlap resolution *)

Section SortMembers.

Context {A : Type} (cmp : A -> A -> comparison).

Lemma insertSorted_elem (x y : A) (l : list A) :
  y ∈ insertSorted cmp x l <-> y = x \/ y ∈ l.
Proof.
  induction l as [| z l IH]; simpl.
  - rewrite list_elem_of_singleton. split; [auto |].
    intros [H | H]; [exact H | by apply elem_of_nil in H].
  - destruct (cmp x z); rewrite ?elem_of_cons; tauto.
Qed.

(** Sorting keeps the elements of the array. *)
Lemma jsSort_elem (y : A) (l : list A) : y ∈ jsSort cmp l <-> y ∈ l.
Proof.
  induction l as [| x l IH]; simpl; [reflexivity |].
  rewrite insertSorted_elem, IH, elem_of_cons. reflexivity.
Qed.

End SortMembers.

Section OverlapResolution.

Lemma span_covers (m : PotentialMatch) (i : nat) : In i (span m) <-> covers m i.
Proof. unfold span, covers. rewrite in_seq. lia. Qed.

Lemma overlaps_false (coveredIndices : gset nat) (m : PotentialMatch) (i : nat) :
  overlaps coveredIndices m = false -> covers m i -> i ∉ coveredIndices.
Proof.
  unfold overlaps. intros Hno Hcovers Hin.
  assert (Hyes : existsb (fun i => bool_decide (i ∈ coveredIndices)) (span m)
                 = true).
  { apply existsb_exists. exists i. split; [by apply span_covers |].
    by apply bool_decide_eq_true. }
  congruence.
Qed.

Lemma cover_elem (l : list nat) :
  forall (coveredIndices : gset nat) (k : nat),
    k ∈ foldl (fun covered i => {[i]} ∪ covered) coveredIndices l
    <-> k ∈ coveredIndices \/ In k l.
Proof.
  induction l as [| i l IH]; intros coveredIndices k; simpl.
  - tauto.
  - rewrite IH, elem_of_union, elem_of_singleton.
    split; [intros [[-> | ?] | ?] | intros [? | [-> | ?]]]; auto.
Qed.

Lemma walkOk_start : walkOk ([], ∅).
Proof.
  split.
  - intros k. simpl. split; [set_solver |].
    intros (m & Hm & _). by apply elem_of_nil in Hm.
  - intros i j a b _ Ha. simpl in Ha. by rewrite lookup_nil in Ha.
Qed.

Lemma confirmStep_ok (st : list PotentialMatch * gset nat)
  (m : PotentialMatch) :
  walkOk st -> walkOk (confirmStep st m).
Proof.
  destruct st as [confirmed coveredIndices]. intros [Hcovered Hdisjoint].
  unfold confirmStep.
  destruct (overlaps coveredIndices m) eqn:Hoverlaps; [by split |].
  simpl in *. split; simpl.
  - intros k. rewrite cover_elem, span_covers, Hcovered. split.
    + intros [(a & Ha & Hk) | Hk].
      * exists a. split; [apply elem_of_app; by left | exact Hk].
      * exists m. split; [apply elem_of_app; right; by apply list_elem_of_singleton
                         | exact Hk].
    + intros (a & Ha & Hk). apply elem_of_app in Ha as [Ha | Ha].
      * left. by exists a.
      * apply list_elem_of_singleton in Ha. subst. by right.
  - assert (Hnew : forall a, a ∈ confirmed -> disjointSpans a m).
    { intros a Ha k [Hka Hkm].
      eapply overlaps_false; [exact Hoverlaps | exact Hkm |].
      apply Hcovered. by exists a. }
    intros i j a b Hij Ha Hb.
    apply lookup_app_Some in Ha as [Ha | [Hi Ha]];
      apply lookup_app_Some in Hb as [Hb | [Hj Hb]].
    + by eapply Hdisjoint.
    + apply list_lookup_singleton_Some in Hb as [_ <-].
      apply Hnew. by eapply list_elem_of_lookup_2.
    + apply list_lookup_singleton_Some in Ha as [_ <-].
      intros k [Hkm Hkb]. eapply Hnew; [by eapply list_elem_of_lookup_2 |].
      split; eassumption.
    + apply list_lookup_singleton_Some in Ha as [Hi0 _].
      apply list_lookup_singleton_Some in Hb as [Hj0 _]. lia.
Qed.

Lemma walk_ok (ms : list PotentialMatch) :
  forall st, walkOk st -> walkOk (fold_left confirmStep ms st).
Proof.
  induction ms as [| m ms IH]; intros st Hst; simpl; [exact Hst |].
  apply IH. by apply confirmStep_ok.
Qed.

(** The greedy walk accepts pairwise disjoint spans, in whatever order
    the candidates come. *)
Lemma resolveOverlaps_disjoint (cleanedDescription : string)
  (potentialMatches : list PotentialMatch) :
  pairwiseDisjoint (resolveOverlaps cleanedDescription potentialMatches).
Proof. unfold resolveOverlaps. apply walk_ok, walkOk_start. Qed.

(** *** The scan of the candidates returns *)

Lemma length_chars (s : string) : List.length (Js.chars s) = String.length s.
Proof. induction s as [| c s IH]; simpl; [reflexivity | by rewrite IH]. Qed.

Lemma chars_lower_nonempty (s : string) :
  s <> "" -> Js.chars (Js.toLowerCase s) <> [].
Proof.
  intros Hs. unfold Js.toLowerCase, Js.str, Js.chars.
  rewrite list_ascii_of_string_of_list_ascii.
  destruct s; [contradiction | discriminate].
Qed.

Lemma index_from_bound (needle l : list ascii) :
  forall pos i,
    Js.index_from needle pos l = Some i ->
    (pos <= i)%nat /\ (needle <> [] -> (i < pos + List.length l)%nat).
Proof.
  induction l as [| c l IH]; intros pos i; simpl.
  - destruct needle; simpl; [| discriminate].
    intros [= <-]. split; [lia | congruence].
  - destruct (Js.is_prefix needle (c :: l)).
    + intros [= <-]. split; lia.
    + intros H. apply IH in H as [H1 H2]. split; [lia |].
      intros Hne. specialize (H2 Hne). lia.
Qed.

Lemma indexOf_bound (hay needle : string) (from i : nat) :
  Js.chars needle <> [] ->
  Js.indexOf hay needle from = Some i ->
  (from <= i < String.length hay)%nat.
Proof.
  intros Hne. unfold Js.indexOf. rewrite <- length_chars.
  set (h := Js.chars hay).
  intros H. apply index_from_bound in H as [H1 H2]. specialize (H2 Hne).
  rewrite length_skipn in H2.
  destruct (Nat.le_gt_cases from (List.length h)) as [Hle | Hgt]; lia.
Qed.

Lemma scanOccurrences_returns (descriptionLower : string) (item : MasterItem) :
  m_name item <> "" ->
  forall fuel searchIndex potentialMatches,
    (String.length descriptionLower + 1 < fuel + searchIndex)%nat ->
    (1 <= fuel)%nat ->
    exists found,
      scanOccurrences fuel descriptionLower item searchIndex potentialMatches
      = Some found.
Proof.
  intros Hname. induction fuel as [| fuel IH];
    intros searchIndex potentialMatches Hfuel Hone; [lia |].
  simpl.
  destruct (Js.indexOf descriptionLower (Js.toLowerCase (m_name item))
              searchIndex) as [start |] eqn:Hindex; [| by eexists].
  apply indexOf_bound in Hindex; [| by apply chars_lower_nonempty].
  apply IH; lia.
Qed.

Lemma findPotentialMatches_returns (cleanedDescription : string)
  (masterItemList : list MasterItem) :
  Forall (fun item => m_name item <> "") masterItemList ->
  forall potentialMatches,
    exists found,
      findPotentialMatches cleanedDescription masterItemList potentialMatches
      = Some found.
Proof.
  induction 1 as [| item rest Hname _ IH]; intros potentialMatches; simpl;
    [by eexists |].
  unfold scanItem.
  destruct (scanOccurrences_returns (Js.toLowerCase cleanedDescription) item
              Hname (String.length (Js.toLowerCase cleanedDescription) + 2) 0
              (primaryCandidate (primaryActionNameLower cleanedDescription)
                 item potentialMatches)) as [found Hfound]; [lia | lia |].
  rewrite Hfound. apply IH.
Qed.

Lemma indexOf_empty (hay : string) (from : nat) :
  Js.indexOf hay "" from = Some (Nat.min from (List.length (Js.chars hay))).
Proof. unfold Js.indexOf. simpl. by destruct (drop _ _). Qed.

(** An entry whose name is empty keeps the scan going for ever: whatever
    the fuel, the loop does not return. *)
Lemma scanOccurrences_empty_name (descriptionLower : string)
  (item : MasterItem) :
  m_name item = "" ->
  forall fuel searchIndex potentialMatches,
    scanOccurrences fuel descriptionLower item searchIndex potentialMatches
    = None.
Proof.
  intros Hname. induction fuel as [| fuel IH];
    intros searchIndex potentialMatches; [reflexivity |].
  simpl. rewrite Hname.
  change (Js.toLowerCase "") with "".
  rewrite indexOf_empty. apply IH.
Qed.

(** *** The walk is greedy *)

Lemma confirmStep_grows (st : list PotentialMatch * gset nat)
  (m x : PotentialMatch) :
  x ∈ st.1 -> x ∈ (confirmStep st m).1.
Proof.
  destruct st as [confirmed coveredIndices]. unfold confirmStep. simpl.
  destruct (overlaps coveredIndices m); simpl; [auto |].
  intros H. apply elem_of_app. by left.
Qed.

Lemma walk_grows (ms : list PotentialMatch) :
  forall st x, x ∈ st.1 -> x ∈ (fold_left confirmStep ms st).1.
Proof.
  induction ms as [| m ms IH]; intros st x Hx; simpl; [exact Hx |].
  by apply IH, confirmStep_grows.
Qed.

(** A candidate is turned down only for an index that a confirmed match
    already covers. *)
Lemma confirmStep_greedy (st : list PotentialMatch * gset nat)
  (m : PotentialMatch) :
  walkOk st ->
  m ∈ (confirmStep st m).1
  \/ exists c, c ∈ (confirmStep st m).1 /\ ~ disjointSpans c m.
Proof.
  destruct st as [confirmed coveredIndices]. intros [Hcovered _].
  unfold confirmStep. simpl in *.
  destruct (overlaps coveredIndices m) eqn:Hoverlaps; simpl.
  - right. unfold overlaps in Hoverlaps.
    apply existsb_exists in Hoverlaps as (i & Hi & Hin).
    apply bool_decide_eq_true in Hin. apply span_covers in Hi.
    apply Hcovered in Hin as (c & Hc & Hci).
    exists c. split; [exact Hc |]. intros Hdisjoint.
    by apply (Hdisjoint i).
  - left. apply elem_of_app. right. by apply list_elem_of_singleton.
Qed.

Lemma walk_greedy (ms : list PotentialMatch) :
  forall st,
    walkOk st ->
    forall m, m ∈ ms ->
      m ∈ (fold_left confirmStep ms st).1
      \/ exists c, c ∈ (fold_left confirmStep ms st).1 /\ ~ disjointSpans c m.
Proof.
  induction ms as [| m0 ms IH]; intros st Hst m Hm; simpl.
  - by apply elem_of_nil in Hm.
  - apply elem_of_cons in Hm as [-> | Hm].
    + destruct (confirmStep_greedy st m0 Hst) as [H | (c & Hc & Hcm)].
      * left. by apply walk_grows.
      * right. exists c. split; [by apply walk_grows | exact Hcm].
    + apply IH; [by apply confirmStep_ok | exact Hm].
Qed.

(** The candidate that the sort puts first is always confirmed. *)
Lemma walk_first (m : PotentialMatch) (ms : list PotentialMatch) :
  m ∈ (fold_left confirmStep (m :: ms) ([], ∅)).1.
Proof.
  simpl. apply walk_grows.
  assert (Hfree : overlaps ∅ m = false).
  { unfold overlaps. apply not_true_is_false. intros H.
    apply existsb_exists in H as (i & _ & Hi).
    apply bool_decide_eq_true in Hi. by apply not_elem_of_empty in Hi. }
  rewrite Hfree. simpl. by apply list_elem_of_singleton.
Qed.

(** C7. The matches confirmed by the resolution of the overlaps have
    pairwise disjoint spans, and they are a function of the description
    and the catalog, so the same input gives the same matches; for a
    catalog in which every entry has a name the resolution returns.  The
    walk is greedy in the order of the sort (a match at the start of the
    description first, then the longer name): the candidate that comes
    first is confirmed, and a candidate is turned down only when it shares
    an index with a confirmed match. *)
Theorem confirmed_matches_disjoint (cleanedDescription : string)
  (masterItemList : list MasterItem) :
  (forall confirmed,
      confirmedMatches cleanedDescription masterItemList = Some confirmed ->
      pairwiseDisjoint confirmed)
  /\ (Forall (fun item => m_name item <> "") masterItemList ->
      exists confirmed,
        confirmedMatches cleanedDescription masterItemList = Some confirmed)
  /\ (forall potentialMatches candidate,
         findPotentialMatches cleanedDescription masterItemList []
         = Some potentialMatches ->
         candidate ∈ potentialMatches ->
         let confirmed := resolveOverlaps cleanedDescription potentialMatches in
         candidate ∈ confirmed
         \/ exists c, c ∈ confirmed /\ ~ disjointSpans c candidate)
  /\ (forall potentialMatches first,
         findPotentialMatches cleanedDescription masterItemList []
         = Some potentialMatches ->
         head (jsSort (byPriority
                         (Re.test ResolveRe.rank_marker cleanedDescription))
                 potentialMatches) = Some first ->
         first ∈ resolveOverlaps cleanedDescription potentialMatches).
Proof.
  split; [| split; [| split]].
  - unfold confirmedMatches. intros confirmed H.
    destruct (findPotentialMatches _ _ _) as [found |]; [| discriminate].
    injection H as <-. apply resolveOverlaps_disjoint.
  - intros Hnames. unfold confirmedMatches.
    destruct (findPotentialMatches_returns cleanedDescription masterItemList
                Hnames []) as [found Hfound].
    rewrite Hfound. simpl. by eexists.
  - intros potentialMatches candidate _ Hcandidate. cbv zeta.
    unfold resolveOverlaps.
    apply walk_greedy; [apply walkOk_start |].
    by apply jsSort_elem.
  - intros potentialMatches first _ Hfirst. unfold resolveOverlaps.
    destruct (jsSort _ potentialMatches) as [| m ms]; [discriminate |].
    injection Hfirst as ->. apply walk_first.
Qed.

End OverlapResolution.

Lemma confirmed_matches_disjoint_witness :
  confirmedMatches (cleanDescription "Power Strike the goblin") Duel.catalog
  = Some [Duel.powerStrike]
  /\ (exists confirmed,
        confirmedMatches (cleanDescription "Power Strike the goblin")
          Duel.catalog = Some confirmed
        /\ pairwiseDisjoint confirmed)
  /\ Duel.powerStrike
     ∈ resolveOverlaps (cleanDescription "Power Strike the goblin")
         [Duel.powerStrike; Duel.strike].
Proof.
  destruct (confirmed_matches_disjoint
              (cleanDescription "Power Strike the goblin") Duel.catalog)
    as (Hdisjoint & Hreturns & _ & Hfirst).
  split; [vm_compute; reflexivity |]. split.
  - destruct Hreturns as [confirmed Hconfirmed].
    { repeat constructor; vm_compute; discriminate. }
    exists confirmed. split; [exact Hconfirmed |].
    apply Hdisjoint, Hconfirmed.
  - apply Hfirst; vm_compute; reflexivity.
Defined.

(** ** The first element of a sorted array *)

Section SortHead.

Context {A : Type} (cmp : A -> A -> comparison).

Hypothesis cmp_refl : forall a, mayPrecede cmp a a.
Hypothesis cmp_trans :
  forall a b c, mayPrecede cmp a b -> mayPrecede cmp b c -> mayPrecede cmp a c.
Hypothesis cmp_total : forall a b, cmp a b = Gt -> mayPrecede cmp b a.

Lemma insertSorted_head (x : A) (l : list A) :
  head (insertSorted cmp x l)
  = match l with
    | [] => Some x
    | y :: _ => match cmp x y with Gt => Some y | _ => Some x end
    end.
Proof. destruct l as [| y l]; simpl; [reflexivity |]. by destruct (cmp x y). Qed.

Lemma jsSort_nil (l : list A) : jsSort cmp l = [] -> l = [].
Proof.
  destruct l as [| x l]; [reflexivity |]. simpl.
  destruct (jsSort cmp l) as [| y l']; simpl; [discriminate |].
  by destruct (cmp x y).
Qed.

(** For a comparator that is a total preorder, the first element of the
    sorted array is an element that may precede every other. *)
Lemma jsSort_head (l : list A) :
  forall best,
    head (jsSort cmp l) = Some best ->
    In best l /\ forall s, In s l -> mayPrecede cmp best s.
Proof.
  induction l as [| x l IH]; intros best; simpl; [discriminate |].
  rewrite insertSorted_head.
  destruct (jsSort cmp l) as [| y l'] eqn:Hsorted.
  - apply jsSort_nil in Hsorted. subst l. intros [= <-].
    split; [by left |]. intros s [<- | []]. apply cmp_refl.
  - destruct (IH y eq_refl) as [Hy Hfirst].
    destruct (cmp x y) eqn:Hxy; intros [= <-].
    + split; [by left |]. intros s [<- | Hs]; [apply cmp_refl |].
      apply cmp_trans with y; [unfold mayPrecede; congruence | by apply Hfirst].
    + split; [by left |]. intros s [<- | Hs]; [apply cmp_refl |].
      apply cmp_trans with y; [unfold mayPrecede; congruence | by apply Hfirst].
    + split; [by right |]. intros s [<- | Hs]; [by apply cmp_total |].
      by apply Hfirst.
Qed.

End SortHead.

(** ** Decimal numbers and the texts of the snapshot *)

Section DecimalRoundTrip.

Lemma chars_str (l : list ascii) : Js.chars (Js.str l) = l.
Proof. apply list_ascii_of_string_of_list_ascii. Qed.

Lemma str_chars (s : string) : Js.str (Js.chars s) = s.
Proof. apply string_of_list_ascii_of_string. Qed.

Lemma chars_app (a b : string) : Js.chars (a +:+ b) = Js.chars a ++ Js.chars b.
Proof. induction a as [| c a IH]; [reflexivity |]. simpl. by rewrite IH. Qed.

Lemma append_empty (s : string) : s +:+ "" = s.
Proof.
  induction s as [| c s IH]; [reflexivity |].
  change (String c (s +:+ "") = String c s). by f_equal.
Qed.

Lemma digit_char (n : nat) :
  (n < 10)%nat ->
  Js.code (ascii_of_nat (48 + n)) = (48 + n)%nat.
Proof. intros H. unfold Js.code. apply nat_ascii_embedding. lia. Qed.

Lemma digit_is_digit (n : nat) :
  (n < 10)%nat -> Js.is_digit (ascii_of_nat (48 + n)) = true.
Proof.
  intros H. unfold Js.is_digit, Js.in_range. rewrite digit_char by done.
  apply andb_true_intro. split; apply Nat.leb_le; lia.
Qed.

Lemma digits_value_cons (a : Z) (c : ascii) (l : list ascii) :
  Js.digits_value a (c :: l)
  = if Js.is_digit c
    then Js.digits_value (10 * a + Z.of_nat (Js.code c - 48)) l
    else a.
Proof. reflexivity. Qed.

Lemma nat_digits_S (fuel n : nat) (acc : list ascii) :
  Js.nat_digits (S fuel) n acc
  = if Nat.ltb n 10 then ascii_of_nat (48 + Nat.modulo n 10) :: acc
    else Js.nat_digits fuel (Nat.div n 10)
           (ascii_of_nat (48 + Nat.modulo n 10) :: acc).
Proof. reflexivity. Qed.

Lemma digits_value_nat_digits (fuel : nat) :
  forall (n : nat) (acc : list ascii),
    (n < fuel)%nat ->
    Js.digits_value 0 (Js.nat_digits fuel n acc)
    = Js.digits_value (Z.of_nat n) acc.
Proof.
  induction fuel as [| fuel IH]; intros n acc Hn; [lia |].
  assert (Hmod : (n mod 10 < 10)%nat) by (apply Nat.mod_upper_bound; lia).
  assert (Hstep : forall a,
    Js.digits_value a (ascii_of_nat (48 + n mod 10) :: acc)
    = Js.digits_value (10 * a + Z.of_nat (n mod 10)) acc).
  { intros a. rewrite digits_value_cons, digit_is_digit, digit_char by done.
    do 2 f_equal. lia. }
  rewrite nat_digits_S. destruct (Nat.ltb n 10) eqn:E.
  - apply Nat.ltb_lt in E. rewrite Hstep. f_equal.
    rewrite Nat.mod_small by done. lia.
  - apply Nat.ltb_ge in E.
    assert (Hdiv : (n / 10 < fuel)%nat).
    { pose proof (Nat.div_lt n 10). lia. }
    rewrite IH by exact Hdiv. rewrite Hstep. f_equal.
    pose proof (Nat.div_mod_eq n 10). lia.
Qed.

(** The decimal form of a number: digits only, and at least one. *)
Lemma nat_digits_digits (fuel : nat) :
  forall (n : nat) (acc : list ascii),
    (n < fuel)%nat ->
    exists c ds, Js.nat_digits fuel n acc = (c :: ds) ++ acc
                 /\ Forall (fun d => Js.is_digit d = true) (c :: ds).
Proof.
  induction fuel as [| fuel IH]; intros n acc Hn; [lia |].
  assert (Hd : Js.is_digit (ascii_of_nat (48 + n mod 10)) = true).
  { apply digit_is_digit, Nat.mod_upper_bound. lia. }
  rewrite nat_digits_S. destruct (Nat.ltb n 10) eqn:E.
  - exists (ascii_of_nat (48 + n mod 10)), []. split; [reflexivity |].
    by constructor.
  - apply Nat.ltb_ge in E.
    destruct (IH (n / 10)%nat (ascii_of_nat (48 + n mod 10) :: acc))
      as (c & ds & Heq & Hall).
    { pose proof (Nat.div_lt n 10). lia. }
    exists c, (ds ++ [ascii_of_nat (48 + n mod 10)]). split.
    + rewrite Heq. simpl. by rewrite <- app_assoc.
    + rewrite app_comm_cons. apply Forall_app. split; [exact Hall |].
      by constructor.
Qed.

Lemma string_of_nat_digits (n : nat) :
  exists c ds, Js.chars (Js.string_of_nat n) = c :: ds
               /\ Forall (fun d => Js.is_digit d = true) (c :: ds)
               /\ Js.digits_value 0 (c :: ds) = Z.of_nat n.
Proof.
  unfold Js.string_of_nat.
  destruct (nat_digits_digits (S n) n [] ltac:(lia)) as (c & ds & Hd & Hall).
  pose proof (digits_value_nat_digits (S n) n [] ltac:(lia)) as Hv.
  rewrite Hd, app_nil_r in Hv. rewrite Hd, app_nil_r in *.
  exists c, ds. by rewrite chars_str.
Qed.

Lemma digit_not_space (c : ascii) :
  Js.is_digit c = true ->
  Js.is_space c = false /\ Nat.eqb (Js.code c) 45 = false
  /\ Nat.eqb (Js.code c) 43 = false.
Proof.
  unfold Js.is_digit, Js.is_space, Js.in_range.
  intros [H1 H2]%andb_true_iff.
  apply Nat.leb_le in H1. apply Nat.leb_le in H2.
  repeat split.
  - apply orb_false_iff. split.
    + apply andb_false_iff. right. apply Nat.leb_gt. lia.
    + apply Nat.eqb_neq. lia.
  - apply Nat.eqb_neq. lia.
  - apply Nat.eqb_neq. lia.
Qed.

(** [parseInt] of digits followed by something that is not a digit. *)
Lemma digits_value_app (ds rest : list ascii) :
  Forall (fun d => Js.is_digit d = true) ds ->
  match rest with c :: _ => Js.is_digit c = false | [] => True end ->
  forall a, Js.digits_value a (ds ++ rest) = Js.digits_value a ds.
Proof.
  intros Hall Hrest. induction Hall as [| d ds Hd Hall IH]; intros a.
  - simpl. destruct rest as [| c rest]; [reflexivity |].
    by rewrite digits_value_cons, Hrest.
  - rewrite <- app_comm_cons, !digits_value_cons, Hd. apply IH.
Qed.

End DecimalRoundTrip.

(** ** The base attack bonus *)

Section BaseBonus.

Lemma parseInt_signed (sg : ascii) (c : ascii) (ds : list ascii) (v : Z) :
  Js.is_digit c = true ->
  forall l, Js.chars l = c :: ds ->
  (sg = "+"%char /\ v = Js.digits_value 0 (c :: ds)
   \/ sg = "-"%char /\ v = - Js.digits_value 0 (c :: ds)) ->
  Js.parseInt (String sg l) = Some v.
Proof.
  intros Hc l Hl Hsign. unfold Js.parseInt.
  change (Js.chars (String sg l)) with (sg :: Js.chars l). rewrite Hl.
  destruct Hsign as [[-> ->] | [-> ->]].
  - change (Js.drop_space ("+"%char :: c :: ds)) with ("+"%char :: c :: ds).
    change (Nat.eqb (Js.code "+") 45) with false.
    change (Nat.eqb (Js.code "+") 43) with true. cbv iota.
    rewrite Hc. f_equal; lia.
  - change (Js.drop_space ("-"%char :: c :: ds)) with ("-"%char :: c :: ds).
    change (Nat.eqb (Js.code "-") 45) with true. cbv iota.
    rewrite Hc. f_equal; lia.
Qed.

(** The text of a signed bonus: a sign, then digits only. *)
Lemma signedText_shape (n : Z) :
  exists sg c ds,
    signedText n = String sg (Js.str (c :: ds))
    /\ Forall (fun d => Js.is_digit d = true) (c :: ds)
    /\ (sg = "+"%char /\ n = Js.digits_value 0 (c :: ds)
        \/ sg = "-"%char /\ n = - Js.digits_value 0 (c :: ds)).
Proof.
  unfold signedText, Js.string_of_Z. destruct (n <? 0) eqn:E.
  - apply Z.ltb_lt in E.
    destruct (string_of_nat_digits (Z.to_nat (- n))) as (c & ds & Hd & Hall & Hv).
    exists "-"%char, c, ds. split; [| split; [exact Hall |]].
    + cbn [append]. f_equal. by rewrite <- Hd, str_chars.
    + right. split; [reflexivity |]. rewrite Hv. lia.
  - apply Z.ltb_ge in E.
    destruct (string_of_nat_digits (Z.to_nat n)) as (c & ds & Hd & Hall & Hv).
    exists "+"%char, c, ds. split; [| split; [exact Hall |]].
    + cbn [append]. f_equal. by rewrite <- Hd, str_chars.
    + left. split; [reflexivity |]. rewrite Hv. lia.
Qed.

Lemma parseInt_signedText (n : Z) : Js.parseInt (signedText n) = Some n.
Proof.
  destruct (signedText_shape n) as (sg & c & ds & -> & Hall & Hsign).
  inversion Hall as [| ? ? Hc _]; subst.
  eapply parseInt_signed; [exact Hc | apply chars_str | exact Hsign].
Qed.

Lemma split_chars_head (sep : ascii) (a rest : list ascii) :
  Forall (fun c => Js.char_eqb c sep = false) a ->
  forall cur,
    head (Js.split_chars sep cur (a ++ match rest with
                                       | [] => []
                                       | _ :: _ => sep :: rest
                                       end))
    = Some (rev cur ++ a).
Proof.
  intros Hall. induction Hall as [| c a Hc Hall IH]; intros cur.
  - simpl. destruct rest as [| r rest]; simpl.
    + by rewrite app_nil_r.
    + unfold Js.char_eqb. rewrite Ascii.eqb_refl. simpl. by rewrite app_nil_r.
  - simpl. rewrite Hc, IH. simpl. by rewrite <- app_assoc.
Qed.

(** [s.split(sep)[0]] is what stands before the first separator. *)
Lemma split_first (sep : ascii) (s : string) (a rest : list ascii) :
  Forall (fun c => Js.char_eqb c sep = false) a ->
  Js.chars s = a ++ match rest with [] => [] | _ :: _ => sep :: rest end ->
  head (Js.split s sep) = Some (Js.str a).
Proof.
  intros Hall Hs. unfold Js.split. rewrite Hs.
  pose proof (split_chars_head sep a rest Hall []) as H.
  destruct (Js.split_chars sep [] _) as [| x xs]; [discriminate |].
  simpl in H. by injection H as ->.
Qed.

Lemma head_cons {A : Type} (x y : A) (l : list A) :
  head (x :: l) = Some y -> x = y.
Proof. by intros [= ->]. Qed.

Lemma chars_String (c : ascii) (s : string) :
  Js.chars (String c s) = c :: Js.chars s.
Proof. reflexivity. Qed.

Lemma drop_space_head (c : ascii) (l : list ascii) :
  Js.is_space c = false -> Js.drop_space (c :: l) = c :: l.
Proof. intros H. simpl. by rewrite H. Qed.

(** [trim] removes the one space at the end of a text that starts and
    ends with something else. *)
Lemma trim_between (first last : ascii) (middle : list ascii)
  (spaces : list ascii) :
  Js.is_space first = false ->
  Js.is_space last = false ->
  spaces = [] \/ spaces = [" "%char] ->
  Js.trim (Js.str (first :: middle ++ last :: spaces))
  = Js.str (first :: middle ++ [last]).
Proof.
  intros Hfirst Hlast Hspaces. unfold Js.trim. rewrite chars_str.
  rewrite drop_space_head by exact Hfirst.
  assert (Hrev : rev (first :: middle ++ last :: spaces)
                 = rev spaces ++ last :: rev (first :: middle)).
  { change (first :: middle ++ last :: spaces)
      with ((first :: middle) ++ last :: spaces).
    rewrite rev_app_distr. simpl rev at 1. by rewrite <- app_assoc. }
  rewrite Hrev.
  assert (Hdrop : Js.drop_space (rev spaces ++ last :: rev (first :: middle))
                  = last :: rev (first :: middle)).
  { destruct Hspaces as [-> | ->]; simpl rev; simpl app.
    - by apply drop_space_head.
    - change (Js.drop_space (" "%char :: ?l)) with (Js.drop_space l).
      by apply drop_space_head. }
  rewrite Hdrop. f_equal.
  change (rev (last :: rev (first :: middle)))
    with (rev (rev (first :: middle)) ++ [last]).
  by rewrite rev_involutive.
Qed.

Lemma digit_not_slash (c : ascii) :
  Js.is_digit c = true -> Js.char_eqb c "/" = false.
Proof.
  intros H. unfold Js.char_eqb. apply Ascii.eqb_neq. intros ->.
  vm_compute in H. discriminate.
Qed.

(** The base bonus of a strike is the first of the bonuses that the
    snapshot writes, with its sign. *)
Lemma parseBaseBonus_bonusesText (base : Z) (later : list Z) :
  parseBaseBonus (Some (bonusesText base later)) = base.
Proof.
  destruct (signedText_shape base) as (sg & c & ds & Htext & Hall & Hsign).
  assert (Hsg : Js.is_space sg = false /\ Js.char_eqb sg "/" = false).
  { destruct Hsign as [[-> _] | [-> _]]; split; reflexivity. }
  destruct Hsg as [Hspace Hslash].
  (* the last digit *)
  assert (Hlast : exists front d, c :: ds = front ++ [d]
                                  /\ Js.is_digit d = true).
  { destruct (exists_last (l := c :: ds) ltac:(discriminate))
      as (front & d & Heq).
    exists front, d. split; [exact Heq |].
    apply (proj1 (Forall_forall _ _) Hall). rewrite Heq.
    apply elem_of_app. right. by apply list_elem_of_singleton. }
  destruct Hlast as (front & d & Hdigits & Hd).
  destruct (digit_not_space d Hd) as [Hdspace _].
  set (spaces := match later with [] => [] | _ :: _ => [" "%char] end).
  set (rest := match later with
               | [] => []
               | _ :: _ =>
                   Js.chars (" " +:+ String.concat " / " (map signedText later))
               end).
  assert (Hchars :
    Js.chars (bonusesText base later)
    = (sg :: front ++ d :: spaces)
      ++ match rest with [] => [] | _ :: _ => "/"%char :: rest end).
  { unfold bonusesText. cbn [map]. unfold spaces, rest.
    destruct later as [| l later].
    - cbn [map String.concat].
      rewrite Htext, chars_String, chars_str, Hdigits.
      cbn [app]. by rewrite app_nil_r.
    - change (String.concat " / " (signedText base :: map signedText (l :: later)))
        with (signedText base
              +:+ (" / " +:+ String.concat " / " (map signedText (l :: later)))).
      rewrite Htext, !chars_app, chars_String, chars_str, Hdigits.
      set (texts := String.concat " / " (map signedText (l :: later))).
      change (Js.chars " / ") with [" "%char; "/"%char; " "%char].
      change (Js.chars (" " +:+ texts)) with (" "%char :: Js.chars texts).
      cbn [app]. f_equal. rewrite <- !app_assoc. reflexivity. }
  assert (Hno : Forall (fun x => Js.char_eqb x "/" = false)
                  (sg :: front ++ d :: spaces)).
  { constructor; [exact Hslash |].
    apply Forall_app. split.
    - eapply Forall_impl; [| apply digit_not_slash].
      apply Forall_forall. intros x Hx.
      apply (proj1 (Forall_forall _ _) Hall). rewrite Hdigits.
      apply elem_of_app. by left.
    - constructor; [by apply digit_not_slash |].
      unfold spaces. destruct later; by repeat constructor. }
  pose proof (split_first "/" _ _ rest Hno Hchars) as Hfirst.
  unfold parseBaseBonus.
  assert (Htruthy : Js.truthy (bonusesText base later) = true).
  { destruct (bonusesText base later) eqn:E; [| reflexivity].
    simpl in Hchars. discriminate. }
  rewrite Htruthy. cbn [negb].
  destruct (Js.split (bonusesText base later) "/") as [| firstBonus others];
    [discriminate |].
  apply head_cons in Hfirst. subst firstBonus.
  rewrite (trim_between sg d front spaces Hspace Hdspace)
    by (unfold spaces; destruct later; auto).
  rewrite <- Hdigits.
  change (Js.str (sg :: c :: ds)) with (String sg (Js.str (c :: ds))).
  rewrite <- Htext, parseInt_signedText. reflexivity.
Qed.

End BaseBonus.

(** ** The merged traits *)

Section MergedTraits.

Lemma keepFirst_In (l : list string) :
  forall seen t, In t (keepFirst seen l) <-> In t l /\ ~ In t seen.
Proof.
  induction l as [| v l IH]; intros seen t; simpl; [tauto |].
  destruct (existsb (String.eqb v) seen) eqn:E.
  - rewrite IH. split; [tauto |]. intros [[<- | H] Hseen]; [| tauto].
    exfalso. apply Hseen.
    apply existsb_exists in E as (x & Hx & Heq).
    apply String.eqb_eq in Heq. by subst.
  - assert (Hv : ~ In v seen).
    { intros H. apply not_true_iff_false in E. apply E.
      apply existsb_exists. exists v. split; [exact H | apply String.eqb_refl]. }
    simpl. rewrite IH. simpl. split.
    + intros [<- | [H1 H2]]; [tauto |]. split; [tauto |]. tauto.
    + intros [[<- | H] Hseen]; [tauto |].
      destruct (String.eqb_spec v t) as [-> | Hne]; [tauto |]. right. tauto.
Qed.

Lemma keepFirst_NoDup (l : list string) :
  forall seen, NoDup (keepFirst seen l).
Proof.
  induction l as [| v l IH]; intros seen; simpl; [constructor |].
  destruct (existsb (String.eqb v) seen); [apply IH |].
  apply NoDup_cons_2; [| apply IH].
  rewrite list_elem_of_In, keepFirst_In. simpl. tauto.
Qed.

Lemma traits_spread_strikeTrait (ts : option Traits) (t : string) :
  In t (traits_spread ts) <-> strikeTrait ts t.
Proof.
  destruct ts as [[s | l] |]; simpl; [| tauto | tauto].
  rewrite in_map_iff. split.
  - intros (c & <- & Hc). eauto.
  - intros (c & Hc & ->). eauto.
Qed.

Lemma flurry_traits_merged (cleanedDescription : string) (best : Descriptor) :
  mergedTraits (d_traits best) (traits (flurryResult cleanedDescription best)).
Proof.
  unfold mergedTraits. cbn [traits flurryResult].
  set (all := "attack" :: "flurry" :: traits_spread (d_traits best)).
  split; [| split].
  - eexists. reflexivity.
  - apply keepFirst_NoDup.
  - intros t. rewrite keepFirst_In. unfold all. simpl.
    rewrite traits_spread_strikeTrait. split; [| intros H; split; [| tauto]].
    + intros [[<- | [<- | H]] _]; auto.
    + destruct H as [-> | [-> | H]]; auto.
Qed.

End MergedTraits.

(** ** The estimate of the damage *)

Section DamageEstimate.

Lemma estimate_on_the_samples :
  forallb
    (fun n =>
       forallb
         (fun s =>
            agrees [Dice n s]
            && forallb (fun t => agrees [Dice n s; t]) laterTerms)
         sizes)
    counts
  = true.
Proof. vm_compute. reflexivity. Qed.

Lemma estimate_agrees (n s : Z) :
  In n counts -> In s sizes ->
  (estimateAverageDamage (Some (damageText [Dice n s]))
   == claimedAverage [Dice n s])%Q
  /\ forall t, In t laterTerms ->
       (estimateAverageDamage (Some (damageText [Dice n s; t]))
        == claimedAverage [Dice n s; t]
           + inject_Z (strayModifiers [Dice n s; t]))%Q.
Proof.
  intros Hn Hs. pose proof estimate_on_the_samples as H.
  rewrite forallb_forall in H. specialize (H n Hn).
  rewrite forallb_forall in H. specialize (H s Hs).
  apply andb_true_iff in H as [H1 H2]. split.
  - apply Qeq_bool_iff in H1. rewrite H1.
    unfold strayModifiers. simpl. ring.
  - intros t Ht. rewrite forallb_forall in H2.
    apply Qeq_bool_iff. exact (H2 t Ht).
Qed.

End DamageEstimate.

(** ** The named-action special case *)

Section FlurryOfBlows.

Lemma mayPrecede_noBetter (a b : Descriptor) :
  mayPrecede byBonusThenDamage a b <-> noBetterThan b a.
Proof.
  unfold mayPrecede, byBonusThenDamage, noBetterThan, sign.
  destruct (parseBaseBonus (d_bonuses a) =? parseBaseBonus (d_bonuses b))
    eqn:E; simpl.
  - apply Z.eqb_eq in E. rewrite <- Qle_alt. split.
    + intros H. right. split; [lia | exact H].
    + intros [H | [_ H]]; [lia | exact H].
  - apply Z.eqb_neq in E. rewrite Z.compare_gt_iff. split.
    + intros H. left. lia.
    + intros [H | [H _]]; lia.
Qed.

Lemma byBonusThenDamage_refl (a : Descriptor) :
  mayPrecede byBonusThenDamage a a.
Proof. apply mayPrecede_noBetter. right. split; [reflexivity | apply Qle_refl]. Qed.

Lemma byBonusThenDamage_trans (a b c : Descriptor) :
  mayPrecede byBonusThenDamage a b ->
  mayPrecede byBonusThenDamage b c ->
  mayPrecede byBonusThenDamage a c.
Proof.
  rewrite !mayPrecede_noBetter. unfold noBetterThan.
  intros [H1 | [H1 Q1]] [H2 | [H2 Q2]]; try (left; lia).
  right. split; [lia | by apply Qle_trans with (estimateAverageDamage (d_damage b))].
Qed.

Lemma byBonusThenDamage_total (a b : Descriptor) :
  byBonusThenDamage a b = Gt -> mayPrecede byBonusThenDamage b a.
Proof.
  intros H. apply mayPrecede_noBetter.
  unfold byBonusThenDamage, noBetterThan, sign in *.
  destruct (parseBaseBonus (d_bonuses a) =? parseBaseBonus (d_bonuses b))
    eqn:E; simpl in H.
  - apply Z.eqb_eq in E. right. split; [exact E |].
    apply Qlt_le_weak. by apply Qgt_alt.
  - apply Z.compare_gt_iff in H. left. lia.
Qed.

Lemma keepFirst_keeps (l : list string) :
  forall seen t, In t l -> ~ In t seen -> In t (keepFirst seen l).
Proof.
  induction l as [| v l IH]; intros seen t Hin Hseen; [contradiction |].
  simpl. destruct (existsb (String.eqb v) seen) eqn:E.
  - destruct Hin as [<- | Hin]; [| by apply IH].
    apply existsb_exists in E as (x & Hx & Heq).
    apply String.eqb_eq in Heq. by subst.
  - destruct (String.eqb_spec v t) as [-> | Hne]; [by left |].
    destruct Hin as [-> | Hin]; [contradiction |].
    right. apply IH; [exact Hin |]. intros [-> | H]; contradiction.
Qed.

Lemma flurry_description_not_empty (cleanedDescription : string) :
  primaryActionNameLower cleanedDescription = "flurry of blows" ->
  Js.truthy cleanedDescription = true.
Proof.
  destruct cleanedDescription; [| reflexivity].
  vm_compute. discriminate.
Qed.

(** The special case of the resolver for Flurry of Blows.  When the
    leading action name of the cleaned description is "Flurry of Blows" and
    the snapshot lists a strike whose traits include "unarmed" or "monk",
    the resolver returns at once the result built for one of those strikes:
    none of them has a higher base attack bonus, and none with the same
    bonus has a higher damage estimate.  The result is a strike suggestion
    for it, costs one action, is not a combo, and its traits are attack,
    flurry and what the strike brings, each once: the entries of an array
    of traits, the single characters of a joined string.  The base bonus is
    the first of the bonuses that the snapshot writes.  On the sampled
    expressions the damage estimate is the sum of dice * (die + 1) / 2 and
    of the flat modifier, and on top of it the count of a later dice term
    without its last digit. *)
Theorem flurry_of_blows (game : Game) (description : string) (actor : Actor)
  (gameState : GameState) :
  let cleanedDescription := cleanDescription description in
  primaryActionNameLower cleanedDescription = "flurry of blows" ->
  (exists s, In s (safeGetList gameState strikes) /\ eligibleForFlurry s) ->
  (exists best,
     identifySuggestionTypeAndCost game description actor gameState
     = Some (flurryResult cleanedDescription best)
     /\ In best (safeGetList gameState strikes)
     /\ eligibleForFlurry best
     /\ (forall s, In s (safeGetList gameState strikes) ->
                   eligibleForFlurry s -> noBetterThan s best)
     /\ isStrikeSuggestion (flurryResult cleanedDescription best) = true
     /\ strikeNameForButton (flurryResult cleanedDescription best)
        = Js.or_else (d_label best) (d_name best)
     /\ actualActionCost (flurryResult cleanedDescription best) = JNum 1
     /\ mergedTraits (d_traits best)
          (traits (flurryResult cleanedDescription best))
     /\ isCombo (flurryResult cleanedDescription best) = false)
  /\ (forall base later,
        parseBaseBonus (Some (bonusesText base later)) = base)
  /\ (forall n s,
        In n counts -> In s sizes ->
        (estimateAverageDamage (Some (damageText [Dice n s]))
         == claimedAverage [Dice n s])%Q
        /\ forall t, In t laterTerms ->
             (estimateAverageDamage (Some (damageText [Dice n s; t]))
              == claimedAverage [Dice n s; t]
                 + inject_Z (strayModifiers [Dice n s; t]))%Q).
Proof.
  intros cleanedDescription Hname Heligible.
  split; [| split; [apply parseBaseBonus_bonusesText | apply estimate_agrees]].
  assert (Hfilter : forall s,
    In s (eligibleStrikes gameState)
    <-> In s (safeGetList gameState strikes) /\ eligibleForFlurry s).
  { intros s. unfold eligibleStrikes, eligibleForFlurry.
    rewrite <- !list_elem_of_In, list_elem_of_filter.
    rewrite orb_True, !Is_true_true. tauto. }
  destruct (head (jsSort byBonusThenDamage (eligibleStrikes gameState)))
    as [best |] eqn:Hbest.
  - destruct (jsSort_head byBonusThenDamage byBonusThenDamage_refl
                byBonusThenDamage_trans byBonusThenDamage_total _ _ Hbest)
      as [Hin Hfirst].
    apply Hfilter in Hin as [Hin Hok].
    exists best. split; [| split; [exact Hin | split; [exact Hok | split]]].
    + unfold identifySuggestionTypeAndCost. fold cleanedDescription.
      rewrite (flurry_description_not_empty _ Hname). cbn [negb].
      unfold isFlurry. rewrite Hname, String.eqb_refl.
      unfold bestEligibleStrike. by rewrite Hbest.
    + intros s Hs Hsok. apply mayPrecede_noBetter. apply Hfirst.
      apply Hfilter. by split.
    + split; [reflexivity |]. split; [reflexivity |].
      split; [reflexivity |].
      split; [apply flurry_traits_merged | reflexivity].
  - destruct Heligible as (s & Hs & Hsok).
    destruct (jsSort byBonusThenDamage (eligibleStrikes gameState)) eqn:Hsorted;
      [| discriminate].
    apply jsSort_nil in Hsorted.
    assert (Hin : In s (eligibleStrikes gameState)) by (apply Hfilter; by split).
    rewrite Hsorted in Hin. destruct Hin.
Qed.

End FlurryOfBlows.

Lemma flurry_of_blows_witness :
  bestEligibleStrike Monk.snapshot = Some Monk.tigerClaw
  /\ parseBaseBonus (d_bonuses Monk.kick) = 11
  /\ exists best,
       identifySuggestionTypeAndCost Monk.game "Flurry of Blows, Goblin"
         Monk.monk Monk.snapshot
       = Some (flurryResult (cleanDescription "Flurry of Blows, Goblin") best)
       /\ eligibleForFlurry best
       /\ noBetterThan Monk.kick best
       /\ noBetterThan Monk.fist best
       /\ noBetterThan Monk.tigerClaw best
       /\ mergedTraits (d_traits best)
            (traits (flurryResult (cleanDescription "Flurry of Blows, Goblin")
                       best)).
Proof.
  split; [vm_compute; reflexivity |].
  destruct (flurry_of_blows Monk.game "Flurry of Blows, Goblin" Monk.monk
              Monk.snapshot)
    as ((best & Hresult & Hin & Hok & Hbest & _ & _ & _ & Htraits & _)
        & Hbonus & _).
  { vm_compute. reflexivity. }
  { exists Monk.kick. split; [simpl; tauto | left; vm_compute; reflexivity]. }
  split; [exact (Hbonus 11 [6; 1]) |].
  exists best. split; [exact Hresult |]. split; [exact Hok |].
  split; [| split; [| split; [| exact Htraits]]]; apply Hbest;
    (simpl; tauto) || (left; vm_compute; reflexivity)
    || (right; vm_compute; reflexivity).
Defined.

(** C9 fails on the code.  Of two unarmed attacks with the same bonus,
    the one that deals 1d6+12d4 has the lower average by the formula of the
    claim (33.5 against the 34 of 2d6+27), and it is the one that the
    resolver returns: the pattern for the flat modifiers, meant to leave
    the dice alone, reads the "+1" of "+12d4" as a modifier, and the code
    estimates that damage at 34.5. *)
Lemma flurry_counts_a_stray_modifier :
  let heavy := Monk.unarmed "Tiger Claw" [Dice 1 6; Dice 12 4] in
  let steady := Monk.unarmed "Fist" [Dice 2 6; Modifier 27] in
  d_damage heavy = Some "1d6+12d4"
  /\ d_damage steady = Some "2d6+27"
  /\ parseBaseBonus (d_bonuses heavy) = parseBaseBonus (d_bonuses steady)
  /\ (claimedAverage [Dice 1 6; Dice 12 4]
      < claimedAverage [Dice 2 6; Modifier 27])%Q
  /\ (estimateAverageDamage (d_damage heavy) == 69 # 2)%Q
  /\ (estimateAverageDamage (d_damage steady) == 34)%Q
  /\ identifySuggestionTypeAndCost Monk.game "Flurry of Blows, Goblin"
       Monk.monk (Monk.snapshotOf [steady; heavy])
     = Some (flurryResult (cleanDescription "Flurry of Blows, Goblin") heavy).
Proof.
  repeat split; vm_compute; reflexivity.
Qed.

(** The traits of the result when the strike carries its traits in one
    string: the string is spread into its characters. *)
Example flurry_traits_of_joined_string :
  traits (flurryResult "Flurry of Blows" Monk.fist)
  = ["attack"; "flurry"; "a"; "g"; "i"; "l"; "e"; ","; " "; "f"; "n"; "s";
     "o"; "t"; "h"; "u"; "r"; "m"; "d"].
Proof. vm_compute. reflexivity. Qed.

(* ===================================================================== *)
(** * Further properties of the code *)
(* ===================================================================== *)

(** ** What a request does to the flags *)

Section RequestAndFlags.

Lemma clear_turn_state (flags : Flags) (v : FlagValue) :
  clearAITurnFlags (<[FLAGS.TURN_STATE := v]> flags) = clearAITurnFlags flags.
Proof. unfold clearAITurnFlags. by rewrite delete_insert_eq. Qed.

Lemma requestPass_flags (env : Env) (reply : option string) (flags : Flags)
  (skipped notes : option string) (updated : option TurnState) :
  match requestPass env reply flags skipped notes updated with
  | Over flags' _ =>
      flags' = clearAITurnFlags flags
      \/ exists cached, flags' = <[FLAGS.CACHED_STRIKES := FStrikes cached]> flags
  | Again flags' _ _ _ _ =>
      exists cached, flags' = <[FLAGS.CACHED_STRIKES := FStrikes cached]> flags
  | Stuck => True
  end.
Proof.
  unfold requestPass, surfaceError.
  repeat case_match; simplify_eq; rewrite ?clear_cached; eauto.
Qed.

(** What a request leaves in the flags. *)
Lemma request_flags (env : Env) (replies : list (option string)) :
  forall (flags flags' : Flags) (skipped notes : option string)
         (updated : option TurnState) (events : list Event),
    requestNextAISuggestion env replies flags skipped notes updated
    = Some (flags', events) ->
    flags' = clearAITurnFlags flags
    \/ exists cached, flags' = <[FLAGS.CACHED_STRIKES := FStrikes cached]> flags.
Proof.
  induction replies as [| reply replies IH];
    intros flags flags' skipped notes updated events; simpl.
  - pose proof (requestPass_flags env None flags skipped notes updated) as H.
    destruct (requestPass env None flags skipped notes updated);
      intros [= <- <-] || discriminate; [exact H | right; exact H].
  - pose proof (requestPass_flags env reply flags skipped notes updated) as H.
    destruct (requestPass env reply flags skipped notes updated)
      as [f e | f e sk n again |]; [| | discriminate].
    + intros [= <- <-]. exact H.
    + destruct H as [cached ->].
      destruct (requestNextAISuggestion env replies _ (Some sk) n again)
        as [[f2 later] |] eqn:Hrec; [| discriminate].
      intros [= <- <-]. apply IH in Hrec as [-> | [cached' ->]].
      * left. apply clear_cached.
      * right. exists cached'. apply insert_insert_eq.
Qed.

Lemma requestPass_outcome (env : Env) (reply : option string) (flags : Flags)
  (skipped notes : option string) (updated : option TurnState) :
  match requestPass env reply flags skipped notes updated with
  | Over flags' events =>
      (flags' = clearAITurnFlags flags
       /\ forall card, ~ In (ChatSuggestion card) events)
      \/ (exists cached,
            flags' = <[FLAGS.CACHED_STRIKES := FStrikes cached]> flags)
         /\ (forall message, ~ In (NotifyError message) events)
         /\ (forall actions, ~ In (ChatTurnComplete actions) events)
         /\ (forall stunned slowed,
               ~ In (ChatZeroActionStart stunned slowed) events)
  | Again flags' events _ _ _ =>
      (exists cached,
         flags' = <[FLAGS.CACHED_STRIKES := FStrikes cached]> flags)
      /\ forall event, In event events ->
           (exists a m, event = ChatThinking a m)
           \/ exists purpose s, event = LLMCalled purpose s
  | Stuck => True
  end.
Proof.
  unfold requestPass, surfaceError.
  repeat case_match; simplify_eq; rewrite ?clear_cached;
    try (left; split; [reflexivity |]; intros card Hin;
         repeat (apply in_app_or in Hin as [Hin | Hin] || destruct Hin as [Hin | Hin]);
         try discriminate; try contradiction);
    try (right; split; [eauto |]; repeat split; intros; intros Hin;
         repeat (destruct Hin as [Hin | Hin]; [discriminate |]); destruct Hin);
    try (split; [eauto |]; intros event Hin;
         repeat (destruct Hin as [<- | Hin]; [eauto |]); destruct Hin).
  all: exact I.
Qed.

Lemma plain_events (events : list Event) :
  (forall event, In event events ->
     (exists a m, event = ChatThinking a m)
     \/ exists purpose s, event = LLMCalled purpose s) ->
  (forall card, ~ In (ChatSuggestion card) events)
  /\ (forall message, ~ In (NotifyError message) events)
  /\ (forall actions, ~ In (ChatTurnComplete actions) events)
  /\ (forall stunned slowed, ~ In (ChatZeroActionStart stunned slowed) events).
Proof.
  intros H.
  repeat split; intros; intros Hin;
    apply H in Hin as [(? & ? & ?) | (? & ? & ?)]; discriminate.
Qed.

Lemma not_in_around (event : Event) (before later : list Event) :
  event <> ThinkingDeleted ->
  ~ In event before -> ~ In event later ->
  ~ In event (before ++ later ++ [ThinkingDeleted]).
Proof.
  intros Hne Hb Hl Hin.
  apply in_app_or in Hin as [Hin | Hin]; [tauto |].
  apply in_app_or in Hin as [Hin | [Hin | []]]; [tauto | congruence].
Qed.

(** A request for a suggestion ends in one of two ways.  Either the three
    flags of the turn are cleared and no suggestion card was posted; or the
    flags are as they were apart from the cached strikes, and then no error
    was notified and no end of turn was posted.  So every error that is
    surfaced, and every end of turn, clears the state of the turn, and a
    card is only posted with the state kept. *)
Theorem request_clears_or_caches (env : Env)
  (replies : list (option string)) :
  forall (flags flags' : Flags) (skipped notes : option string)
         (updated : option TurnState) (events : list Event),
    requestNextAISuggestion env replies flags skipped notes updated
    = Some (flags', events) ->
    (flags' = clearAITurnFlags flags
     /\ forall card, ~ In (ChatSuggestion card) events)
    \/ (exists cached,
          flags' = <[FLAGS.CACHED_STRIKES := FStrikes cached]> flags)
       /\ (forall message, ~ In (NotifyError message) events)
       /\ (forall actions, ~ In (ChatTurnComplete actions) events)
       /\ (forall stunned slowed,
             ~ In (ChatZeroActionStart stunned slowed) events).
Proof.
  induction replies as [| reply replies IH];
    intros flags flags' skipped notes updated events; simpl.
  - pose proof (requestPass_outcome env None flags skipped notes updated) as H.
    destruct (requestPass env None flags skipped notes updated);
      intros [= <- <-] || discriminate; [exact H |].
    destruct H as [Hflags Hevents]. right. split; [exact Hflags |].
    apply plain_events in Hevents. tauto.
  - pose proof (requestPass_outcome env reply flags skipped notes updated) as H.
    destruct (requestPass env reply flags skipped notes updated)
      as [f e | f e sk n again |]; [| | discriminate].
    + intros [= <- <-]. exact H.
    + destruct H as [[cached ->] Hevents].
      apply plain_events in Hevents as (Hcard & Herror & Hover & Hzero).
      destruct (requestNextAISuggestion env replies _ (Some sk) n again)
        as [[f2 later] |] eqn:Hrec; [| discriminate].
      intros [= <- <-].
      apply IH in Hrec as [[-> Hlater] | ([cached' ->] & H1 & H2 & H3)].
      * left. split; [apply clear_cached |].
        intros card. apply not_in_around; [discriminate | apply Hcard | apply Hlater].
      * right. split; [exists cached'; apply insert_insert_eq |].
        repeat split; intros; apply not_in_around;
          solve [discriminate | auto].
Qed.

End RequestAndFlags.


(** ** Numbers read back *)

Section NumbersReadBack.


End NumbersReadBack.

(** ** The cost that a card carries *)

Section CardCost.




End CardCost.
(** ** The confirm and skip handlers *)

Section ConfirmAndSkip.

Lemma update_state (flags : Flags) (ts : TurnState)
  (actionTraits : list string) :
  getTurnState flags = Some ts ->
  exists m, getTurnState (_updateMAPBasedOnTrait flags actionTraits)
            = Some (setCurrentMAP ts m).
Proof.
  intros Hts. unfold _updateMAPBasedOnTrait. rewrite Hts.
  assert (Hsame : getTurnState flags = Some (setCurrentMAP ts (currentMAP ts)))
    by (by destruct ts).
  destruct (negb (hasTrait actionTraits "attack")); [eauto |].
  destruct (negb _); [| eauto].
  eexists. apply getTurnState_insert.
Qed.

Lemma confirmedFlags_state (flags : Flags) (ts : TurnState) (cost : Z)
  (actionDescription : string) (identifiedTraits : list string) :
  exists m,
    getTurnState (confirmedFlags flags ts cost actionDescription identifiedTraits)
    = Some (setCurrentMAP (confirmedTurnState ts cost actionDescription) m).
Proof. unfold confirmedFlags. apply update_state, getTurnState_insert. Qed.

Lemma confirmedTurnState_fields (ts : TurnState) (cost : Z)
  (actionDescription : string) :
  let ts' := confirmedTurnState ts cost actionDescription in
  actionsRemaining ts' = Z.max 0 (actionsRemaining ts - cost)
  /\ actionsTakenDescriptions ts'
     = actionsTakenDescriptions ts
       ++ [(splitActionDescription actionDescription).1]
  /\ successfulStrikesThisRound ts' = successfulStrikesThisRound ts.
Proof.
  unfold confirmedTurnState.
  by destruct (splitActionDescription actionDescription).
Qed.

(** A Confirm whose cost is not a number, is negative or exceeds the
    actions that remain only notifies the user: the flags stay exactly as
    they were and no further suggestion is requested. *)
Theorem confirm_cost_error (env : Env) (replies : list (option string))
  (flags : Flags) (ts : TurnState) (actionCost : jsval)
  (actionDescription notes : string) :
  turnIsCurrent env = true ->
  getTurnState flags = Some ts ->
  (forall cost, parseInt_val actionCost = Some cost ->
                cost < 0 \/ actionsRemaining ts < cost) ->
  exists message,
    _onConfirmActionClick env replies flags actionCost actionDescription notes
    = Some (flags, [NotifyError message]).
Proof.
  intros Hturn Hts Hcost. unfold _onConfirmActionClick.
  rewrite Hturn, Hts. cbn [negb].
  destruct (parseInt_val actionCost) as [cost |]; [| eauto].
  destruct (Hcost cost eq_refl) as [H | H].
  - apply Z.ltb_lt in H. rewrite H. cbn [orb]. eauto.
  - apply Z.ltb_lt in H. rewrite H, orb_true_r. eauto.
Qed.

(** A Confirm that passes the cost check leaves either no turn state (the
    turn is over or the next request failed) or the old one with the cost
    deducted, the confirmed description appended and the recorded strikes
    kept. *)
Theorem confirm_deducts (env : Env) (replies : list (option string))
  (flags flags' : Flags) (ts ts' : TurnState) (actionCost : jsval) (cost : Z)
  (actionDescription notes : string) (events : list Event) :
  turnIsCurrent env = true ->
  getTurnState flags = Some ts ->
  parseInt_val actionCost = Some cost ->
  0 <= cost <= actionsRemaining ts ->
  _onConfirmActionClick env replies flags actionCost actionDescription notes
  = Some (flags', events) ->
  getTurnState flags' = Some ts' ->
  actionsRemaining ts' = actionsRemaining ts - cost
  /\ actionsTakenDescriptions ts'
     = actionsTakenDescriptions ts
       ++ [(splitActionDescription actionDescription).1]
  /\ successfulStrikesThisRound ts' = successfulStrikesThisRound ts.
Proof.
  intros Hturn Hts Hparse Hcost. unfold _onConfirmActionClick.
  rewrite Hturn, Hts, Hparse. cbn [negb].
  destruct (cost <? 0) eqn:E1; [lia |].
  destruct (actionsRemaining ts <? cost) eqn:E2; [lia |]. cbn [orb].
  destruct (identifySuggestionTypeAndCost _ _ _ _) as [r |]; [| discriminate].
  intros Hrequest Hts'.
  apply request_flags in Hrequest as [-> | [cached ->]].
  - by rewrite getTurnState_clear in Hts'.
  - rewrite getTurnState_insert_other in Hts' by discriminate.
    destruct (confirmedFlags_state flags ts cost actionDescription (traits r))
      as [m Hm].
    rewrite Hm in Hts'. injection Hts' as <-.
    destruct (confirmedTurnState_fields ts cost actionDescription)
      as (H1 & H2 & H3).
    cbn [actionsRemaining actionsTakenDescriptions successfulStrikesThisRound
         setCurrentMAP].
    rewrite H1, H2, H3. repeat split. lia.
Qed.

(** Confirming an action that uses up the remaining actions ends the turn:
    the three flags are cleared, the summary is posted with the confirmed
    description last, and no further suggestion is asked of the language
    model, whatever replies it would have given. *)
Theorem confirming_last_action_ends_turn (env : Env)
  (replies : list (option string)) (flags : Flags) (ts : TurnState)
  (actionCost : jsval) (actionDescription notes : string)
  (identifyResult : IdentifyResult) :
  turnIsCurrent env = true ->
  getTurnState flags = Some ts ->
  0 <= actionsRemaining ts ->
  parseInt_val actionCost = Some (actionsRemaining ts) ->
  identifySuggestionTypeAndCost (game env) actionDescription (actor env)
    emptyGameState = Some identifyResult ->
  exists summary,
    _onConfirmActionClick env replies flags actionCost actionDescription notes
    = Some (clearAITurnFlags flags,
            summary
            ++ [ChatTurnComplete
                  (actionsTakenDescriptions ts
                   ++ [(splitActionDescription actionDescription).1])])
    /\ forall event, In event summary -> event = LLMCalled ForSummary None.
Proof.
  intros Hturn Hts Hleft Hparse Hidentify. unfold _onConfirmActionClick.
  rewrite Hturn, Hts, Hparse. cbn [negb].
  destruct (actionsRemaining ts <? 0) eqn:E1; [lia |].
  rewrite Z.ltb_irrefl, Hidentify. cbn [orb].
  set (new := confirmedTurnState ts (actionsRemaining ts) actionDescription).
  set (flags1 := confirmedFlags _ _ _ _ _).
  destruct (confirmedTurnState_fields ts (actionsRemaining ts)
              actionDescription) as (H1 & H2 & _).
  fold new in H1, H2.
  assert (Hclear : clearAITurnFlags flags1 = clearAITurnFlags flags).
  { unfold flags1, confirmedFlags, _updateMAPBasedOnTrait.
    repeat case_match; by rewrite ?clear_turn_state. }
  assert (Hentering : forall n,
    actionsRemaining (enteringTurnState n (Some new)) = 0
    /\ actionsTakenDescriptions (enteringTurnState n (Some new))
       = actionsTakenDescriptions new).
  { intros n. unfold enteringTurnState, notesOf.
    repeat case_match;
      cbn [actionsRemaining actionsTakenDescriptions setManualNotes
           setCurrentMAP setConditionsAtStart];
      split; try reflexivity; rewrite H1; lia. }
  assert (Hpass : forall reply,
    exists summary,
      requestPass env reply flags1 None (Some notes) (Some new)
      = Over (clearAITurnFlags flags)
          (summary ++ [ChatTurnComplete
                         (actionsTakenDescriptions ts
                          ++ [(splitActionDescription actionDescription).1])])
      /\ forall event, In event summary -> event = LLMCalled ForSummary None).
  { intros reply. unfold requestPass. rewrite Hturn. cbn [negb].
    destruct (Hentering (Some notes)) as [-> ->].
    change (0 <=? 0) with true. cbv beta iota.
    rewrite Hclear, H2. eexists. split; [reflexivity |].
    intros event. repeat case_match; cbn [In]; intros Hevent;
      repeat (destruct Hevent as [Hevent | Hevent]; [by subst |]);
      destruct Hevent. }
  destruct replies as [| reply replies]; cbn [requestNextAISuggestion].
  - destruct (Hpass None) as (summary & -> & Hsummary). eauto.
  - destruct (Hpass reply) as (summary & -> & Hsummary). eauto.
Qed.

(** A Skip charges nothing: when a turn state is left afterwards, it has
    the actions, the penalty, the descriptions and the recorded strikes it
    had before, and the notes of the skip. *)
Theorem skip_keeps_turn (env : Env) (replies : list (option string))
  (flags flags' : Flags) (ts ts' : TurnState)
  (skippedActionDescription notes : string) (events : list Event) :
  getTurnState flags = Some ts ->
  _onSkipActionClick env replies flags skippedActionDescription notes
  = Some (flags', events) ->
  getTurnState flags' = Some ts' ->
  ts' = setManualNotes ts (Some notes).
Proof.
  intros Hts. unfold _onSkipActionClick. rewrite Hts.
  destruct (negb (turnIsCurrent env));
    [intros [= <- <-]; by rewrite getTurnState_clear |].
  destruct (negb (isProcessing flags));
    [intros [= <- <-]; by rewrite getTurnState_clear |].
  intros [-> | [cached ->]]%request_flags.
  - by rewrite getTurnState_clear.
  - rewrite getTurnState_insert_other by discriminate.
    rewrite getTurnState_insert. by intros [= <-].
Qed.

End ConfirmAndSkip.

(** ** The flags that a turn leaves alone *)

Section Frame.

Lemma sameElsewhere_refl (flags : Flags) : sameElsewhere flags flags.
Proof. by intros key _. Qed.

Lemma sameElsewhere_trans (a b c : Flags) :
  sameElsewhere a b -> sameElsewhere b c -> sameElsewhere a c.
Proof. intros H1 H2 key Hkey. by rewrite H2, H1. Qed.

Lemma sameElsewhere_insert (flags : Flags) (key : string) (v : FlagValue) :
  turnFlag key -> sameElsewhere flags (<[key := v]> flags).
Proof.
  intros Hkey other Hother. apply lookup_insert_ne. by intros ->.
Qed.

Lemma sameElsewhere_delete (flags : Flags) (key : string) :
  turnFlag key -> sameElsewhere flags (delete key flags).
Proof.
  intros Hkey other Hother. apply lookup_delete_ne. by intros ->.
Qed.

Lemma sameElsewhere_clear (flags : Flags) :
  sameElsewhere flags (clearAITurnFlags flags).
Proof.
  unfold clearAITurnFlags.
  eapply sameElsewhere_trans; [| apply sameElsewhere_delete; unfold turnFlag; auto].
  eapply sameElsewhere_trans; [| apply sameElsewhere_delete; unfold turnFlag; auto].
  apply sameElsewhere_delete. unfold turnFlag. auto.
Qed.

Lemma sameElsewhere_request (env : Env) (replies : list (option string))
  (flags flags' : Flags) (skipped notes : option string)
  (updated : option TurnState) (events : list Event) :
  requestNextAISuggestion env replies flags skipped notes updated
  = Some (flags', events) ->
  sameElsewhere flags flags'.
Proof.
  intros [-> | [cached ->]]%request_flags.
  - apply sameElsewhere_clear.
  - apply sameElsewhere_insert. unfold turnFlag. auto.
Qed.

Lemma sameElsewhere_update (flags : Flags) (actionTraits : list string) :
  sameElsewhere flags (_updateMAPBasedOnTrait flags actionTraits).
Proof.
  unfold _updateMAPBasedOnTrait.
  repeat case_match; try apply sameElsewhere_refl.
  apply sameElsewhere_insert. unfold turnFlag. auto.
Qed.

Lemma sameElsewhere_handle (env : Env) (replies : list (option string))
  (input : Input) (flags flags' : Flags) (events : list Event) :
  handle env replies input flags = Some (flags', events) ->
  sameElsewhere flags flags'.
Proof.
  assert (Hts : turnFlag FLAGS.TURN_STATE) by (unfold turnFlag; auto).
  assert (Hip : turnFlag FLAGS.IS_PROCESSING) by (unfold turnFlag; auto).
  assert (Hcs : turnFlag FLAGS.CACHED_STRIKES) by (unfold turnFlag; auto).
  destruct input; cbn [handle]; intros H.
  - unfold _onAcceptControlClick in H.
    destruct (negb (turnIsCurrent env));
      [injection H as <- <-; apply sameElsewhere_refl |].
    apply sameElsewhere_request in H.
    eapply sameElsewhere_trans; [| exact H].
    eapply sameElsewhere_trans; [| by apply sameElsewhere_delete].
    eapply sameElsewhere_trans; [| by apply sameElsewhere_insert].
    by apply sameElsewhere_insert.
  - unfold _onConfirmActionClick in H.
    destruct (negb (turnIsCurrent env));
      [injection H as <- <-; apply sameElsewhere_clear |].
    destruct (getTurnState flags) as [ts |];
      [| injection H as <- <-; apply sameElsewhere_clear].
    destruct (parseInt_val actionCost) as [c |];
      [| injection H as <- <-; apply sameElsewhere_refl].
    destruct ((c <? 0) || (actionsRemaining ts <? c));
      [injection H as <- <-; apply sameElsewhere_refl |].
    destruct (identifySuggestionTypeAndCost _ _ _ _); [| discriminate].
    apply sameElsewhere_request in H.
    eapply sameElsewhere_trans; [| exact H]. unfold confirmedFlags.
    eapply sameElsewhere_trans; [| apply sameElsewhere_update].
    by apply sameElsewhere_insert.
  - unfold _onSkipActionClick in H.
    destruct (negb (turnIsCurrent env));
      [injection H as <- <-; apply sameElsewhere_clear |].
    destruct (getTurnState flags) as [ts |];
      [| injection H as <- <-; apply sameElsewhere_clear].
    destruct (negb (isProcessing flags));
      [injection H as <- <-; apply sameElsewhere_clear |].
    apply sameElsewhere_request in H.
    eapply sameElsewhere_trans; [| exact H].
    by apply sameElsewhere_insert.
  - injection H as <- <-. unfold _onManualMAPAdjust.
    repeat case_match; try apply sameElsewhere_refl.
    by apply sameElsewhere_insert.
  - injection H as <- <-. unfold recordSuccessfulStrike.
    repeat case_match; try apply sameElsewhere_refl.
    by apply sameElsewhere_insert.
  - unfold _onRetryTurnClick in H.
    destruct (negb (turnIsCurrent env));
      [injection H as <- <-; apply sameElsewhere_refl |].
    by apply sameElsewhere_request in H.
  - injection H as <- <-. apply sameElsewhere_clear.
Qed.

(** Whatever happens during a session (control accepted, actions
    confirmed or skipped, penalties adjusted, strikes recorded, turns
    retried or ended), the flags of the actor change only under
    [turnState], [isProcessing] and [cachedStrikes]: every other flag keeps
    its value. *)
Theorem session_keeps_other_flags
  (session : list (Env * list (option string) * Input)) :
  forall flags flags' : Flags,
    run session flags = Some flags' -> sameElsewhere flags flags'.
Proof.
  induction session as [| [[env replies] input] rest IH];
    intros flags flags'; simpl.
  - intros [= <-]. apply sameElsewhere_refl.
  - destruct (handle env replies input flags) as [[flags1 events] |] eqn:H;
      [| discriminate].
    intros Hrest. eapply sameElsewhere_trans.
    + eapply sameElsewhere_handle, H.
    + by apply IH.
Qed.

End Frame.

(** ** What the resolver answers *)

Section Resolved.

Lemma withAttack_attack (l : list string) : In "attack" (withAttack l).
Proof.
  unfold withAttack. destruct (existsb (String.eqb "attack") l) eqn:E.
  - apply existsb_exists in E as (x & Hx & Heq).
    apply String.eqb_eq in Heq. by subst.
  - apply in_or_app. right. by left.
Qed.

(** The ways in which [identifySuggestionTypeAndCost] builds its answer. *)
Lemma identify_cases (game : Game) (description : string) (actor : Actor)
  (gameState : GameState) (r : IdentifyResult) :
  identifySuggestionTypeAndCost game description actor gameState = Some r ->
  let cleaned := cleanDescription description in
  r = initialResult cleaned
  \/ (exists best, r = flurryResult cleaned best)
  \/ exists linked combo,
       (exists info item,
          r = withLinkAndCombo
                (populateFromItem game cleaned (initialResult cleaned) info item)
                linked combo)
       \/ r = withLinkAndCombo (withCostSource (initialResult cleaned) "LLM")
                linked combo
       \/ r = withLinkAndCombo
                (withTraits (withCostSource (initialResult cleaned) "LLM")
                   (withAttack []))
                linked combo.
Proof.
  intros H cleaned. unfold identifySuggestionTypeAndCost in H.
  fold cleaned in H.
  destruct (negb (Js.truthy cleaned)); [left; congruence |].
  destruct (if isFlurry cleaned then bestEligibleStrike gameState else None)
    as [best |]; [right; left; exists best; congruence |].
  destruct (confirmedMatches cleaned _) as [confirmed |]; [| discriminate].
  injection H as <-. right; right. unfold resultFromMatches.
  eexists _, _.
  destruct (primaryActionInfo _) as [info |].
  - destruct (fullPrimaryItem game actor info) as [item |].
    + left. eexists _, _. reflexivity.
    + right; left. reflexivity.
  - destruct (_ || _); [right; right | right; left]; reflexivity.
Qed.

(** A suggestion resolved to a strike always costs one action and carries
    the [attack] trait, so that confirming it advances the penalty; it is
    not at the same time a spell, a generic action or a consumable; and
    unless it is a combination, its card costs one action whatever cost the
    language model wrote. *)
Theorem resolved_strike (game : Game) (description : string) (actor : Actor)
  (gameState : GameState) (r : IdentifyResult) :
  identifySuggestionTypeAndCost game description actor gameState = Some r ->
  isStrikeSuggestion r = true ->
  actualActionCost r = JNum 1
  /\ In "attack" (traits r)
  /\ isSpellSuggestion r = false
  /\ isGenericActionSuggestion r = false
  /\ isConsumableSuggestion r = false
  /\ (isCombo r = false ->
      forall llmCost, determineAuthoritativeCost r llmCost = JNum 1).
Proof.
  intros H. apply identify_cases in H.
  destruct H as [-> | [[best ->] | (linked & combo & H)]].
  - discriminate.
  - intros _. split; [reflexivity |].
    split; [apply flurry_traits_merged; by left |].
    repeat split.
  - destruct H as [(info & item & ->) | [-> | ->]]; [| discriminate ..].
    unfold populateFromItem, primaryItemCost.
    cbn [isStrikeSuggestion withLinkAndCombo].
    destruct (itemType info); try discriminate.
    intros _. split; [reflexivity |].
    split; [apply withAttack_attack |].
    split; [reflexivity |]. split; [reflexivity |]. split; [reflexivity |].
    cbn [isCombo withLinkAndCombo]. by intros ->.
Qed.

Lemma identify_cost_source (game : Game) (description : string)
  (actor : Actor) (gameState : GameState) (r : IdentifyResult) :
  identifySuggestionTypeAndCost game description actor gameState = Some r ->
  costSource r = "LLM" <-> actualActionCost r = JNull.
Proof.
  intros H. apply identify_cases in H.
  destruct H as [-> | [[best ->] | (linked & combo & H)]].
  - by split.
  - by split.
  - destruct H as [(info & item & ->) | [-> | ->]]; [| by split ..].
    unfold populateFromItem.
    cbn [costSource actualActionCost withLinkAndCombo].
    destruct (primaryItemCost info item) as [| n | s] eqn:E;
      cbn [jsval_eqb].
    + by split.
    + destruct (ItemType_eqb (itemType info) TConsumable); by split.
    + destruct (ItemType_eqb (itemType info) TConsumable); by split.
Qed.

(** The cost source of a resolution is ["LLM"] exactly when no cost was
    read from the catalog.  Hence a number read from the catalog is the
    cost of the card of every suggestion that is not a combination,
    whatever cost the language model wrote. *)
Theorem resolved_cost_source (game : Game) (description : string)
  (actor : Actor) (gameState : GameState) (r : IdentifyResult) :
  identifySuggestionTypeAndCost game description actor gameState = Some r ->
  (costSource r = "LLM" <-> actualActionCost r = JNull)
  /\ forall n llmCost,
       isCombo r = false ->
       actualActionCost r = JNum n ->
       determineAuthoritativeCost r llmCost = JNum n.
Proof.
  intros H. pose proof (identify_cost_source _ _ _ _ _ H) as Hsource.
  split; [exact Hsource |].
  intros n llmCost Hcombo Hcost. unfold determineAuthoritativeCost.
  rewrite Hcombo, Hcost. cbn [is_range_string isSpecificCost andb].
  destruct (String.eqb_spec (costSource r) "LLM") as [Hllm | Hne];
    [| reflexivity].
  apply Hsource in Hllm. congruence.
Qed.

End Resolved.

(** ** What the parser answers *)

Section Parsed.

Lemma readCost_shape (costString : string) :
  readCost costString = JNull \/ concreteCost (readCost costString).
Proof.
  unfold readCost, concreteCost.
  destruct (String.eqb_spec (Js.toUpperCase costString) "R") as [-> | HR];
    [right; left; reflexivity |].
  destruct (String.eqb_spec (Js.toUpperCase costString) "F") as [-> | HF];
    [right; right; left; reflexivity |].
  simpl. destruct (Js.parseInt _) as [n |]; [| by left].
  destruct ((1 <=? n) && (n <=? 3)) eqn:E; [| by left].
  apply andb_true_iff in E as [H1 H2].
  apply Z.leb_le in H1. apply Z.leb_le in H2.
  right; right; right. exists n. split; [reflexivity | lia].
Qed.

Lemma lineCost_shape (line : string) :
  lineCost line = JNull \/ concreteCost (lineCost line).
Proof.
  unfold lineCost. destruct (group_truthy _); [apply readCost_shape | by left].
Qed.

Lemma scan_first_cost (lines : list string) :
  forall st,
    potentialCost (fold_left scanLine lines st)
    = if jsval_eqb (potentialCost st) JNull then firstLineCost lines
      else potentialCost st.
Proof.
  induction lines as [| line lines IH]; intros st; simpl.
  - destruct (jsval_eqb (potentialCost st) JNull) eqn:E; [| reflexivity].
    by apply jsval_eqb_eq in E.
  - rewrite IH, scanLine_cost.
    destruct (jsval_eqb (potentialCost st) JNull) eqn:E; [| by rewrite E].
    by destruct (jsval_eqb (lineCost line) JNull).
Qed.

Lemma firstLineCost_shape (lines : list string) :
  firstLineCost lines = JNull \/ concreteCost (firstLineCost lines).
Proof.
  induction lines as [| line lines IH]; [by left |]. simpl.
  destruct (jsval_eqb (lineCost line) JNull) eqn:E; [exact IH |].
  destruct (lineCost_shape line) as [H | H]; [| by right].
  rewrite H in E. discriminate.
Qed.

Lemma parseLines_cost (responseString : string) (p : ParsedSuggestion) :
  parseLines responseString = Some p ->
  cost p = if jsval_eqb (firstLineCost (Js.split responseString Js.newline))
                JNull
           then JNum 1
           else firstLineCost (Js.split responseString Js.newline).
Proof.
  unfold parseLines.
  destruct (potentialAction _) as [a |]; [| discriminate].
  destruct (potentialTarget _) as [t |]; [| discriminate].
  destruct (Js.truthy a && Js.truthy t); [| discriminate].
  intros [= <-]. simpl. unfold scanLines. by rewrite scan_first_cost.
Qed.

Lemma parseLLMSuggestion_cost (responseString : string)
  (p : ParsedSuggestion) :
  parseLLMSuggestion responseString = Some p -> concreteCost (cost p).
Proof.
  unfold parseLLMSuggestion.
  destruct (negb (Js.truthy responseString)); [discriminate |].
  destruct (parseBlocks _) as [q |] eqn:Hblocks.
  - intros [= ->]. unfold parseBlocks in Hblocks.
    destruct (group_truthy _) as [a |]; [| discriminate].
    destruct (group_truthy _) as [t |]; [| discriminate].
    destruct (group_truthy _) as [c |]; [| discriminate].
    destruct (_ && _) eqn:E; [| discriminate].
    injection Hblocks as <-. simpl.
    apply andb_true_iff in E as [_ E].
    destruct (readCost_shape c) as [H | H]; [| exact H].
    rewrite H in E. discriminate.
  - intros H. rewrite (parseLines_cost _ _ H).
    destruct (firstLineCost_shape
                (Js.split (normalizeReply responseString) Js.newline))
      as [-> | Hc].
    + right; right. exists 1. split; [reflexivity | lia].
    + destruct (jsval_eqb _ JNull) eqn:E; [| exact Hc].
      right; right. exists 1. split; [reflexivity | lia].
Qed.

(** Whatever the language model answers, a reply that the cycle accepts
    has a description that is not empty and a cost that is one of 1, 2, 3,
    ['R'] and ['F']. *)
Theorem parsed_reply_valid (llmResponseContent : string)
  (p : ParsedSuggestion) :
  parseReply llmResponseContent = Some p ->
  description p <> "" /\ concreteCost (cost p).
Proof.
  unfold parseReply.
  destruct (parseLLMSuggestion llmResponseContent) as [q |] eqn:Hparse.
  - destruct (Js.truthy (description q)) eqn:Hd.
    + intros [= ->]. split; [| eapply parseLLMSuggestion_cost, Hparse].
      intros Hempty. rewrite Hempty in Hd. discriminate.
    + destruct (_ && _) eqn:E; [| discriminate].
      intros [= <-]. simpl. split.
      * apply andb_true_iff in E as [E _]. apply andb_true_iff in E as [E _].
        apply andb_true_iff in E as [_ E].
        intros Hempty. rewrite Hempty in E. discriminate.
      * right; right. exists 1. split; [reflexivity | lia].
  - destruct (_ && _) eqn:E; [| discriminate].
    intros [= <-]. simpl. split.
    + apply andb_true_iff in E as [E _]. apply andb_true_iff in E as [E _].
      apply andb_true_iff in E as [_ E].
      intros Hempty. rewrite Hempty in E. discriminate.
    + right; right. exists 1. split; [reflexivity | lia].
Qed.

(** When the labelled blocks cannot be read, the first line with a valid
    cost decides: the suggestion carries that cost, the later cost lines
    are ignored, and without any valid cost line the cost is 1. *)
Theorem fallback_first_cost (responseString : string) (p : ParsedSuggestion) :
  Js.truthy responseString = true ->
  parseBlocks (normalizeReply responseString) = None ->
  parseLLMSuggestion responseString = Some p ->
  let first :=
    firstLineCost (Js.split (normalizeReply responseString) Js.newline) in
  cost p = if jsval_eqb first JNull then JNum 1 else first.
Proof.
  intros Hreply Hblocks. unfold parseLLMSuggestion.
  rewrite Hreply, Hblocks. simpl. apply parseLines_cost.
Qed.

End Parsed.

(** ** The retry policy of the call to the language model *)

Section CallLLM.

Lemma string_of_Z_chars (z : Z) :
  Forall (fun c => Js.is_digit c = true \/ c = "-"%char)
    (Js.chars (Js.string_of_Z z)).
Proof.
  unfold Js.string_of_Z. destruct (z <? 0).
  - destruct (string_of_nat_digits (Z.to_nat (- z))) as (c & ds & Hd & Hall & _).
    rewrite chars_app, Hd. apply Forall_cons; split; [by right |].
    eapply Forall_impl; [exact Hall | by left].
  - destruct (string_of_nat_digits (Z.to_nat z)) as (c & ds & Hd & Hall & _).
    rewrite Hd. eapply Forall_impl; [exact Hall | by left].
Qed.

Lemma index_skip (a : ascii) (needle skipped l : list ascii) :
  Forall (fun c => Js.char_eqb a c = false) skipped ->
  forall pos,
    Js.index_from (a :: needle) pos (skipped ++ l)
    = Js.index_from (a :: needle) (pos + length skipped) l.
Proof.
  induction 1 as [| c skipped Hc _ IH]; intros pos.
  - simpl. by rewrite Nat.add_0_r.
  - cbn [app Js.index_from Js.is_prefix length]. rewrite Hc. cbn [andb].
    rewrite IH. f_equal. lia.
Qed.

Lemma letter_not_in_number (a : ascii) (z : Z) :
  Js.is_digit a = false -> a <> "-"%char ->
  Forall (fun c => Js.char_eqb a c = false) (Js.chars (Js.string_of_Z z)).
Proof.
  intros Ha Hdash. eapply Forall_impl; [apply string_of_Z_chars |].
  intros c Hc. unfold Js.char_eqb. apply Ascii.eqb_neq.
  intros ->. destruct Hc as [Hc | Hc]; congruence.
Qed.

(** The errors that [callLLM] makes for a status are not taken for a
    timeout or a network error by its [catch] block. *)
Lemma api_error_not_transient (status : Z) (rest : string) :
  rest = ")" \/ rest = "). Check console (F12) for details." ->
  transient (newError ("LLM API Error (" +:+ Js.string_of_Z status +:+ rest))
  = false.
Proof.
  intros Hrest. unfold transient, newError. cbn [error_name error_message].
  change ("Error" =? "AbortError")%string with false. cbn [orb].
  assert (Hno : forall a needle,
             Js.is_digit a = false -> a <> "-"%char ->
             Forall (fun c => Js.char_eqb a c = false)
               (Js.chars "LLM API Error (") ->
             (forall pos, Js.index_from (a :: needle) pos (Js.chars rest) = None) ->
             Js.includes
               ("LLM API Error (" +:+ Js.string_of_Z status +:+ rest)
               (Js.str (a :: needle)) = false).
  { intros a needle Ha Hdash Hpre Hpost.
    unfold Js.includes, Js.indexOf. rewrite chars_str.
    rewrite Nat.min_0_l. rewrite drop_0.
    rewrite !chars_app, index_skip by exact Hpre.
    rewrite index_skip by (by apply letter_not_in_number).
    by rewrite Hpost. }
  apply orb_false_intro.
  - apply (Hno "F"%char (Js.chars "ailed to fetch"));
      [reflexivity | discriminate | by vm_compute; repeat constructor |].
    intros pos. destruct Hrest as [-> | ->]; reflexivity.
  - apply (Hno "N"%char (Js.chars "etworkError"));
      [reflexivity | discriminate | by vm_compute; repeat constructor |].
    intros pos. destruct Hrest as [-> | ->]; reflexivity.
Qed.

Lemma tryFetch_cases (attempt : nat) (fetched : Fetched) :
  match tryFetch attempt fetched with
  | Done content =>
      exists status messageContent,
        fetched = Responded status (Message messageContent)
        /\ response_ok status = true
        /\ content = answered messageContent
  | Retried _ => retryable fetched = true /\ (attempt < 2)%nat
  | Failed _ => retryable fetched = false \/ (2 <= attempt)%nat
  end.
Proof.
  assert (Hcaught : forall error,
            match caught attempt error with
            | Done _ => False
            | Retried _ => transient error = true /\ (attempt < 2)%nat
            | Failed _ => transient error = false \/ (2 <= attempt)%nat
            end).
  { intros error. unfold caught, transient, MAX_RETRIES.
    change (3 - 1)%nat with 2%nat.
    destruct (Nat.ltb_spec attempt 2);
      repeat (case_match; simplify_eq; cbn [negb orb andb] in * );
      eauto with lia. }
  unfold tryFetch, retryable, answered, MAX_RETRIES.
  change (3 - 1)%nat with 2%nat.
  destruct fetched as [error | status body].
  { pose proof (Hcaught error) as Hc.
    destruct (caught attempt error); [contradiction | exact Hc | exact Hc]. }
  destruct (response_ok status) eqn:Hok; cbn [negb].
  - destruct body as [error | [content |]].
    + pose proof (Hcaught error) as Hc.
      destruct (caught attempt error); [contradiction | exact Hc | exact Hc].
    + destruct (Js.truthy content) eqn:Htruthy; cbn [negb];
        exists status, (Some content); cbn; rewrite Htruthy; auto.
    + exists status, None. auto.
  - destruct ((400 <=? status) && (status <? 500)) eqn:Hclient; cbn [negb].
    + pose proof (Hcaught (newError ("LLM API Error (" +:+ Js.string_of_Z status
                       +:+ "). Check console (F12) for details."))) as Hc.
      rewrite api_error_not_transient in Hc by auto.
      destruct (caught attempt _);
        [contradiction | by destruct Hc | by left].
    + destruct (Nat.ltb_spec attempt 2); [by split |].
      pose proof (Hcaught (newError ("LLM API Error ("
                     +:+ Js.string_of_Z status +:+ ")"))) as Hc.
      destruct (caught attempt _); [contradiction | lia | by right].
Qed.

(** The retry policy of [callLLM], once it is configured.  It sends at
    most three requests, waits one second before the second and two
    before the third (the third delay of the table is never used), and
    goes on only after a timeout, a network error or a status that is
    neither a success nor a client error: a client error is not retried.
    It returns the trimmed content of the first response that is a
    success, without notifying; otherwise it notifies the user once, with
    the number of attempts, and throws. *)
Theorem callLLM_retries (fetch : nat -> Fetched)
  (prompt apiKey endpoint model : string) :
  Js.truthy prompt = true -> Js.truthy apiKey = true ->
  Js.truthy endpoint = true -> Js.truthy model = true ->
  let '(result, events) := callLLM fetch prompt apiKey endpoint model in
  exists n : nat,
    (1 <= n <= 3)%nat
    /\ sent events = seq 0 n
    /\ waited events = take (n - 1) [1000; 2000]
    /\ (forall k, (k < n - 1)%nat -> retryable (fetch k) = true)
    /\ match result with
       | Returned content =>
           notified events = []
           /\ exists status messageContent,
                fetch (n - 1)%nat = Responded status (Message messageContent)
                /\ response_ok status = true
                /\ content = answered messageContent
       | Threw _ =>
           notified events = [communicationError (n - 1)]
           /\ (retryable (fetch (n - 1)%nat) = false \/ n = 3%nat)
       end.
Proof.
  intros Hp Ha He Hm. unfold callLLM. rewrite Hp, Ha, He, Hm. cbn [negb orb].
  unfold MAX_RETRIES. cbn [attempts].
  pose proof (tryFetch_cases 0 (fetch 0%nat)) as H0.
  pose proof (tryFetch_cases 1 (fetch 1%nat)) as H1.
  pose proof (tryFetch_cases 2 (fetch 2%nat)) as H2.
  assert (Hlt1 : forall k, (k < 1)%nat -> k = 0%nat) by lia.
  assert (Hlt2 : forall k, (k < 2)%nat -> k = 0%nat \/ k = 1%nat) by lia.
  destruct (tryFetch 0 (fetch 0%nat)).
  { exists 1%nat. repeat split; try reflexivity; try lia. exact H0. }
  2: { exists 1%nat. repeat split; try reflexivity; try lia.
       destruct H0; [by left | lia]. }
  destruct H0 as [R0 _].
  destruct (tryFetch 1 (fetch 1%nat)).
  { exists 2%nat. repeat split; try reflexivity; try lia; [| exact H1].
    intros k ->%Hlt1. exact R0. }
  2: { exists 2%nat. repeat split; try reflexivity; try lia.
       - intros k ->%Hlt1. exact R0.
       - destruct H1; [by left | lia]. }
  destruct H1 as [R1 _].
  destruct (tryFetch 2 (fetch 2%nat)).
  - exists 3%nat. repeat split; try reflexivity; try lia; [| exact H2].
    intros k [-> | ->]%Hlt2; assumption.
  - lia.
  - exists 3%nat. repeat split; try reflexivity; try lia.
    intros k [-> | ->]%Hlt2; assumption.
Qed.

End CallLLM.

(** ** Cooldowns *)

Section Cooldown.

Lemma truthy_ne (s : string) : s <> "" -> Js.truthy s = true.
Proof.
  intros H. unfold Js.truthy. by destruct (String.eqb_spec s "").
Qed.

Lemma limitedUse_per (ability : Ability) (slug per : string) :
  limitedUse ability slug per -> limitedPer ability = Some per.
Proof.
  intros (_ & _ & Hper & max & Hf & Hmax). unfold limitedPer.
  rewrite Hf. cbn [frequency_per frequency_max].
  rewrite truthy_ne by done. cbn [negb].
  by destruct (Z.ltb_spec 0 max); [| lia].
Qed.

Lemma existsb_snoc {A : Type} (f : A -> bool) (l : list A) (x : A) :
  existsb f (l ++ [x]) = existsb f l || f x.
Proof. rewrite existsb_app. cbn. by rewrite orb_false_r. Qed.

Lemma split_at_dash (p1 p2 s1 s2 : list ascii) :
  ~ In "-"%char p1 -> ~ In "-"%char p2 ->
  p1 ++ "-"%char :: s1 = p2 ++ "-"%char :: s2 ->
  p1 = p2 /\ s1 = s2.
Proof.
  revert p2. induction p1 as [| a p1 IH]; intros [| b p2] H1 H2 Heq;
    cbn in *; simplify_eq.
  - done.
  - tauto.
  - tauto.
  - destruct (IH p2) as [-> ->]; tauto.
Qed.

Lemma chars_inj (a b : string) : Js.chars a = Js.chars b -> a = b.
Proof. intros H. by rewrite <- (str_chars a), <- (str_chars b), H. Qed.

Lemma cooldownSlug_inj (slug1 per1 slug2 per2 : string) :
  noDash per1 -> noDash per2 ->
  cooldownSlug slug1 per1 = cooldownSlug slug2 per2 ->
  slug1 = slug2 /\ per1 = per2.
Proof.
  unfold noDash, cooldownSlug. intros H1 H2 Heq.
  apply (f_equal Js.chars) in Heq. rewrite !chars_app in Heq.
  apply app_inv_head in Heq.
  apply (f_equal (@rev ascii)) in Heq.
  rewrite !rev_app_distr in Heq.
  change (Js.chars "-") with ["-"%char] in Heq. cbn [rev app] in Heq.
  rewrite <- !app_assoc in Heq. cbn [app] in Heq.
  apply split_at_dash in Heq as [Hp Hs];
    [| by rewrite <- in_rev | by rewrite <- in_rev].
  apply (f_equal (@rev ascii)) in Hp, Hs. rewrite !rev_involutive in Hp, Hs.
  split; by apply chars_inj.
Qed.

(** Using a limited ability puts it on cooldown, for the length of its
    period: with a slug and a limit of uses per round, turn, minute, hour,
    day or combat, the effect that [applyCooldownEffect] creates is the one
    that [isAbilityOnCooldown] looks for, and it lasts 1, 1, 10, 600, 14400
    and 14400 rounds. *)
Theorem cooldown_after_use (effects : list EffectItem) (ability : Ability)
  (slug per : string) :
  limitedUse ability slug per ->
  In per knownPeriods ->
  exists effect,
    applyCooldownEffect effects ability true = effects ++ [effect]
    /\ effect_rounds effect = roundsOf per
    /\ isAbilityOnCooldown (applyCooldownEffect effects ability true) ability
       = true.
Proof.
  intros Hl Hper. pose proof (limitedUse_per _ _ _ Hl) as Hlim.
  destruct Hl as (Hslug & Hne & _).
  unfold applyCooldownEffect, isAbilityOnCooldown.
  rewrite Hslug, truthy_ne, Hlim by done. cbn [negb].
  assert (Hd : durationInRounds per = Some (roundsOf per) /\ 0 < roundsOf per).
  { cbn in Hper. destruct Hper as [<- | [<- | [<- | [<- | [<- | [<- | []]]]]]];
      by vm_compute. }
  destruct Hd as [-> Hpos].
  destruct (Z.leb_spec (roundsOf per) 0); [lia |].
  eexists. split; [reflexivity |]. split; [reflexivity |].
  rewrite existsb_snoc. cbn [effect_slug]. rewrite String.eqb_refl.
  apply orb_true_r.
Qed.

(** A period that [applyCooldownEffect] does not know leaves no cooldown:
    the ability is as available after its use as before. *)
Theorem cooldown_unknown_period (effects : list EffectItem)
  (ability : Ability) (slug per : string) (created : bool) :
  limitedUse ability slug per ->
  ~ In per knownPeriods ->
  applyCooldownEffect effects ability created = effects.
Proof.
  intros Hl Hper. pose proof (limitedUse_per _ _ _ Hl) as Hlim.
  destruct Hl as (Hslug & Hne & _).
  unfold applyCooldownEffect.
  rewrite Hslug, truthy_ne, Hlim by done. cbn [negb].
  assert (Hd : durationInRounds per = None).
  { unfold durationInRounds, knownPeriods in *. cbn [In] in Hper.
    repeat match goal with
           | |- context [String.eqb per ?s] =>
               destruct (String.eqb_spec per s) as [-> | _];
               [exfalso; tauto |]; cbn [orb]
           end.
    reflexivity. }
  by rewrite Hd.
Qed.

(** The cooldown of one ability is not taken for the cooldown of another:
    using an ability changes whether another limited ability is on
    cooldown only if both have the same slug and the same period.  The
    period of the other ability is one without a dash. *)
Theorem cooldown_of_another (effects : list EffectItem)
  (used other : Ability) (slug per slug' per' : string) (created : bool) :
  limitedUse used slug per ->
  limitedUse other slug' per' ->
  noDash per' ->
  (slug, per) <> (slug', per') ->
  isAbilityOnCooldown (applyCooldownEffect effects used created) other
  = isAbilityOnCooldown effects other.
Proof.
  intros Hu Ho Hdash Hne.
  pose proof (limitedUse_per _ _ _ Hu) as Hlim.
  pose proof (limitedUse_per _ _ _ Ho) as Hlim'.
  destruct Hu as (Hslug & Hs & _). destruct Ho as (Hslug' & Hs' & _).
  unfold applyCooldownEffect, isAbilityOnCooldown.
  rewrite Hslug, Hslug', !truthy_ne, Hlim, Hlim' by done. cbn [negb].
  destruct (durationInRounds per) as [rounds |] eqn:Hd; [| reflexivity].
  destruct (rounds <=? 0); [reflexivity |].
  destruct created; [| reflexivity].
  rewrite existsb_snoc. cbn [effect_slug].
  destruct (String.eqb_spec (cooldownSlug slug per) (cooldownSlug slug' per'))
    as [Heq | _]; [| apply orb_false_r].
  exfalso. apply cooldownSlug_inj in Heq as [-> ->]; [done | | exact Hdash].
  unfold durationInRounds in Hd. unfold noDash.
  repeat match type of Hd with
         | context [String.eqb per ?s] =>
             destruct (String.eqb_spec per s) as [-> | _];
             [vm_compute; intuition discriminate |]; cbn [orb] in Hd
         end.
  discriminate.
Qed.

End Cooldown.

(** ** Descriptions left out of the prompt *)

Section ExcludedDescriptions.

Lemma found_here (needle l : list ascii) (pos : nat) :
  Js.is_prefix needle l = true -> Js.index_from needle pos l = Some pos.
Proof. intros H. destruct l; cbn [Js.index_from]; by rewrite H. Qed.

Lemma found_later (needle l : list ascii) (c : ascii) (pos : nat) :
  Js.index_from needle (S pos) l <> None ->
  Js.index_from needle pos (c :: l) <> None.
Proof.
  intros H. cbn [Js.index_from].
  by destruct (Js.is_prefix needle (c :: l)).
Qed.

Lemma found_anywhere (needle l : list ascii) (pos pos' : nat) :
  Js.index_from needle pos l <> None -> Js.index_from needle pos' l <> None.
Proof.
  revert pos pos'. induction l as [| c l IH]; intros pos pos'.
  - cbn [Js.index_from]. by destruct (Js.is_prefix needle []).
  - cbn [Js.index_from]. destruct (Js.is_prefix needle (c :: l)); [done |].
    apply IH.
Qed.

(** A string that includes a word includes the word without its first
    letter. *)
Lemma found_tail (a : ascii) (needle l : list ascii) (pos : nat) :
  Js.index_from (a :: needle) pos l <> None ->
  Js.index_from needle pos l <> None.
Proof.
  revert pos. induction l as [| c l IH]; intros pos.
  - cbn. done.
  - cbn [Js.index_from].
    destruct (Js.is_prefix (a :: needle) (c :: l)) eqn:Hp.
    + intros _. cbn [Js.is_prefix] in Hp.
      apply andb_true_iff in Hp as [_ Hp].
      destruct (Js.is_prefix needle (c :: l)); [done |].
      by rewrite (found_here _ _ _ Hp).
    + intros H. destruct (Js.is_prefix needle (c :: l)); [done |].
      by apply IH.
Qed.

Lemma includes_tail (hay : string) (a : ascii) (needle : string) :
  Js.includes hay (String a needle) = true -> Js.includes hay needle = true.
Proof.
  unfold Js.includes, Js.indexOf. rewrite !Nat.min_0_l, !drop_0.
  change (Js.chars (String a needle)) with (a :: Js.chars needle).
  intros H.
  pose proof (found_tail a (Js.chars needle) (Js.chars hay) 0) as Ht.
  destruct (Js.index_from (a :: Js.chars needle) 0 (Js.chars hay));
    [| discriminate].
  by destruct (Js.index_from (Js.chars needle) 0 (Js.chars hay));
    [| exfalso; apply Ht].
Qed.

Lemma count_from (lowerDesc : string) (keywords : list string) (n : Z) :
  fold_left
    (fun count keyword =>
       count + (if Js.includes lowerDesc keyword then 1 else 0))
    keywords n
  = n + keywordCount lowerDesc keywords.
Proof.
  unfold keywordCount. revert n.
  induction keywords as [| k keywords IH]; intros n; cbn [fold_left]; [lia |].
  rewrite IH, (IH (0 + _)). lia.
Qed.

Lemma keywordCount_cons (lowerDesc keyword : string) (keywords : list string) :
  keywordCount lowerDesc (keyword :: keywords)
  = (if Js.includes lowerDesc keyword then 1 else 0)
    + keywordCount lowerDesc keywords.
Proof. unfold keywordCount at 1. cbn [fold_left]. by rewrite count_from. Qed.

Lemma keywordCount_app (lowerDesc : string) (l1 l2 : list string) :
  keywordCount lowerDesc (l1 ++ l2)
  = keywordCount lowerDesc l1 + keywordCount lowerDesc l2.
Proof.
  unfold keywordCount at 1. rewrite fold_left_app.
  by rewrite count_from.
Qed.

Lemma keywordCount_nonneg (lowerDesc : string) (keywords : list string) :
  0 <= keywordCount lowerDesc keywords.
Proof.
  induction keywords as [| k keywords IH]; [done |].
  rewrite keywordCount_cons. destruct (Js.includes lowerDesc k); lia.
Qed.

Lemma two_keywords (lowerDesc k1 k2 : string) (l1 l2 l3 : list string) :
  Js.includes lowerDesc k1 = true -> Js.includes lowerDesc k2 = true ->
  2 <= keywordCount lowerDesc (l1 ++ k1 :: l2 ++ k2 :: l3).
Proof.
  intros H1 H2.
  rewrite keywordCount_app, keywordCount_cons, keywordCount_app,
    keywordCount_cons, H1, H2.
  pose proof (keywordCount_nonneg lowerDesc l1).
  pose proof (keywordCount_nonneg lowerDesc l2).
  pose proof (keywordCount_nonneg lowerDesc l3). lia.
Qed.

(** Which descriptions of consumables reach the prompt, with the
    thresholds of the code (1200 and 400 characters).  A description of
    at most 400 characters is kept and one of more than 1200 is left out.
    In between, a description that mentions damage is always kept (the
    word is twice in the list of combat keywords), and so is one that
    mentions a reaction (which is also an action). *)
Theorem descriptions_kept (fullDescription abilityName : string) :
  let excluded :=
    shouldExcludeDescription (Some fullDescription) abilityName 1200 400 in
  ((String.length fullDescription <= 400)%nat -> excluded = false)
  /\ ((1200 < String.length fullDescription)%nat -> excluded = true)
  /\ ((String.length fullDescription <= 1200)%nat ->
      Js.includes (Js.toLowerCase fullDescription) "damage" = true
      \/ Js.includes (Js.toLowerCase fullDescription) "reaction" = true ->
      excluded = false).
Proof.
  cbv zeta. unfold shouldExcludeDescription, Js.jslength.
  destruct (Js.truthy fullDescription) eqn:Ht; cbn [negb].
  2: { unfold Js.truthy in Ht. apply negb_false_iff, String.eqb_eq in Ht.
       subst. repeat split; try reflexivity. cbn. lia. }
  repeat split.
  - intros H.
    destruct (Z.ltb_spec 1200 (Z.of_nat (String.length fullDescription)));
      [lia |].
    by destruct (Z.ltb_spec 400 (Z.of_nat (String.length fullDescription)));
      [lia |].
  - intros H.
    by destruct (Z.ltb_spec 1200 (Z.of_nat (String.length fullDescription)));
      [| lia].
  - intros H Hword.
    destruct (Z.ltb_spec 1200 (Z.of_nat (String.length fullDescription)));
      [lia |].
    destruct (Z.ltb_spec 400 (Z.of_nat (String.length fullDescription)));
      [| reflexivity].
    apply andb_false_intro2, Z.leb_gt.
    set (lowerDesc := Js.toLowerCase fullDescription) in *.
    destruct Hword as [Hdamage | Hreaction].
    + pose proof (two_keywords lowerDesc "damage" "damage"
        ["make a strike"; "cast a spell"; "reaction"; "trigger"; "frequency";
         "stance"; "condition"; "save dc"; "hit points"; "heal"; "round";
         "minute"; "action"; "area"; "range"; "feet"; "stride"; "step";
         "attack"]
        ["flat check"; "circumstance bonus"; "status bonus"; "item bonus";
         "penalty"]
        ["restore"] Hdamage Hdamage) as Htwo.
      change (_ ++ _) with combatKeywords in Htwo. lia.
    + pose proof (two_keywords lowerDesc "reaction" "action"
        ["make a strike"; "cast a spell"]
        ["trigger"; "frequency"; "stance"; "condition"; "save dc";
         "hit points"; "heal"; "round"; "minute"]
        ["area"; "range"; "feet"; "stride"; "step"; "attack"; "damage";
         "flat check"; "circumstance bonus"; "status bonus"; "item bonus";
         "penalty"; "damage"; "restore"]
        Hreaction
        (includes_tail lowerDesc "e" "action"
           (includes_tail lowerDesc "r" "eaction" Hreaction))) as Htwo.
      change (_ ++ _) with combatKeywords in Htwo. lia.
Qed.

End ExcludedDescriptions.

(** ** The button of a condition reminder *)

Section ConditionReminder.

Lemma conditionOf_cons (slug : string) (c : ConditionItem)
  (conditions : list ConditionItem) :
  conditionOf slug (c :: conditions)
  = if String.eqb (condition_slug c) slug
    then Some (default 0 (condition_value c))
    else conditionOf slug conditions.
Proof.
  unfold conditionOf. cbn [List.find].
  by destruct (String.eqb (condition_slug c) slug).
Qed.

Lemma conditionOf_absent (slug : string) (conditions : list ConditionItem) :
  ~ In slug (map condition_slug conditions) ->
  conditionOf slug conditions = None.
Proof.
  induction conditions as [| c conditions IH]; [done |].
  cbn [map In]. intros H. rewrite conditionOf_cons.
  destruct (String.eqb_spec (condition_slug c) slug); [tauto |].
  apply IH. tauto.
Qed.

Lemma find_In (slug : string) (conditions : list ConditionItem)
  (condition : ConditionItem) :
  List.find (fun c => String.eqb (condition_slug c) slug) conditions
  = Some condition ->
  In condition conditions /\ condition_slug condition = slug.
Proof.
  intros H. apply find_some in H as [Hin Heq].
  by apply String.eqb_eq in Heq.
Qed.

Lemma filter_other_id (id : string) (conditions : list ConditionItem) :
  ~ In id (map condition_id conditions) ->
  List.filter (fun c => negb (String.eqb (condition_id c) id)) conditions
  = conditions.
Proof.
  induction conditions as [| c conditions IH]; [done |].
  cbn [map In List.filter]. intros H.
  destruct (String.eqb_spec (condition_id c) id); [tauto |].
  cbn [negb]. f_equal. apply IH. tauto.
Qed.

Lemma map_other_id (id : string) (v : Z) (conditions : list ConditionItem) :
  ~ In id (map condition_id conditions) ->
  map (fun c => if String.eqb (condition_id c) id
                then mkConditionItem (condition_id c) (condition_slug c)
                       (Some v)
                else c) conditions
  = conditions.
Proof.
  induction conditions as [| c conditions IH]; [done |].
  cbn [map In]. intros H.
  destruct (String.eqb_spec (condition_id c) id); [tauto |].
  f_equal. apply IH. tauto.
Qed.

Lemma removed_by_id (slug : string) (conditions : list ConditionItem)
  (condition : ConditionItem) :
  wellFormedConditions conditions ->
  List.find (fun c => String.eqb (condition_slug c) slug) conditions
  = Some condition ->
  let after :=
    List.filter (fun c => negb (String.eqb (condition_id c)
                                  (condition_id condition))) conditions in
  wellFormedConditions after
  /\ conditionOf slug after = None
  /\ forall other, other <> slug ->
       conditionOf other after = conditionOf other conditions.
Proof.
  cbv zeta. unfold wellFormedConditions.
  induction conditions as [| c conditions IH]; [discriminate |].
  cbn [map List.find List.filter]. intros [Hid Hslug].
  apply NoDup_cons in Hid as [Hid1 Hid2].
  apply NoDup_cons in Hslug as [Hslug1 Hslug2].
  rewrite list_elem_of_In in Hid1, Hslug1.
  destruct (String.eqb_spec (condition_slug c) slug) as [Hc | Hc].
  - intros [= <-]. rewrite String.eqb_refl. cbn [negb].
    rewrite filter_other_id by done. subst slug.
    repeat split; try done.
    + by apply conditionOf_absent.
    + intros other Hother. rewrite conditionOf_cons.
      by destruct (String.eqb_spec (condition_slug c) other).
  - intros Hfind. pose proof (find_In _ _ _ Hfind) as [Hin _].
    destruct (String.eqb_spec (condition_id c) (condition_id condition))
      as [Heq | Hne].
    { exfalso. apply Hid1. rewrite Heq. by apply in_map. }
    cbn [negb map]. destruct (IH (conj Hid2 Hslug2) Hfind) as ((I1 & I2) & I3 & I4).
    repeat split.
    + apply NoDup_cons. split; [| done]. rewrite list_elem_of_In.
      intros (x & Hx & Hxin)%in_map_iff. apply filter_In in Hxin as [Hxin _].
      apply Hid1. rewrite <- Hx. by apply in_map.
    + apply NoDup_cons. split; [| done]. rewrite list_elem_of_In.
      intros (x & Hx & Hxin)%in_map_iff. apply filter_In in Hxin as [Hxin _].
      apply Hslug1. rewrite <- Hx. by apply in_map.
    + rewrite conditionOf_cons.
      by destruct (String.eqb_spec (condition_slug c) slug).
    + intros other Hother. rewrite !conditionOf_cons.
      destruct (String.eqb (condition_slug c) other); [done |]. by apply I4.
Qed.

Lemma reduced_by_id (slug : string) (v : Z) (conditions : list ConditionItem)
  (condition : ConditionItem) :
  wellFormedConditions conditions ->
  List.find (fun c => String.eqb (condition_slug c) slug) conditions
  = Some condition ->
  let after :=
    map (fun c => if String.eqb (condition_id c) (condition_id condition)
                  then mkConditionItem (condition_id c) (condition_slug c)
                         (Some v)
                  else c) conditions in
  wellFormedConditions after
  /\ conditionOf slug after = Some v
  /\ forall other, other <> slug ->
       conditionOf other after = conditionOf other conditions.
Proof.
  cbv zeta. unfold wellFormedConditions.
  induction conditions as [| c conditions IH]; [discriminate |].
  cbn [map List.find]. intros [Hid Hslug].
  apply NoDup_cons in Hid as [Hid1 Hid2].
  apply NoDup_cons in Hslug as [Hslug1 Hslug2].
  rewrite list_elem_of_In in Hid1, Hslug1.
  destruct (String.eqb_spec (condition_slug c) slug) as [Hc | Hc].
  - intros [= <-]. rewrite String.eqb_refl.
    rewrite map_other_id by done. subst slug.
    repeat split; try (apply NoDup_cons; split; [by rewrite list_elem_of_In | done]).
    + rewrite conditionOf_cons. cbn. by rewrite String.eqb_refl.
    + intros other Hother. rewrite !conditionOf_cons. cbn.
      by destruct (String.eqb_spec (condition_slug c) other).
  - intros Hfind. pose proof (find_In _ _ _ Hfind) as [Hin _].
    destruct (String.eqb_spec (condition_id c) (condition_id condition))
      as [Heq | Hne].
    { exfalso. apply Hid1. rewrite Heq. by apply in_map. }
    destruct (IH (conj Hid2 Hslug2) Hfind) as ((I1 & I2) & I3 & I4).
    assert (Hids : forall l : list ConditionItem,
              map condition_id
                (map (fun c0 => if String.eqb (condition_id c0)
                                     (condition_id condition)
                                then mkConditionItem (condition_id c0)
                                       (condition_slug c0) (Some v)
                                else c0) l)
              = map condition_id l
              /\ map condition_slug
                   (map (fun c0 => if String.eqb (condition_id c0)
                                        (condition_id condition)
                                   then mkConditionItem (condition_id c0)
                                          (condition_slug c0) (Some v)
                                   else c0) l)
                 = map condition_slug l).
    { intros l. rewrite !map_map. split; apply map_ext; intros x;
        by destruct (String.eqb (condition_id x) (condition_id condition)). }
    destruct (Hids conditions) as [E1 E2].
    repeat split.
    + apply NoDup_cons. split; [| done]. by rewrite E1, list_elem_of_In.
    + apply NoDup_cons. split; [| done]. by rewrite E2, list_elem_of_In.
    + rewrite conditionOf_cons.
      by destruct (String.eqb_spec (condition_slug c) slug).
    + intros other Hother. rewrite !conditionOf_cons.
      destruct (String.eqb (condition_slug c) other); [done |]. by apply I4.
Qed.

(** One condition, changed as the reminder says. *)
Lemma change_applied (label slug : string) (valueAtStart : Z)
  (conditions : list ConditionItem) :
  wellFormedConditions conditions ->
  atStart slug valueAtStart conditions ->
  let change :=
    if 0 <? valueAtStart then if valueAtStart <=? 3 then -1 else 3 else 0 in
  let after := fst (applyConditionChange label slug change conditions) in
  wellFormedConditions after
  /\ conditionOf slug after
     = (if 0 <? valueAtStart then announced valueAtStart else None)
  /\ forall other, other <> slug ->
       conditionOf other after = conditionOf other conditions.
Proof.
  cbv zeta. intros Hwf [[Hpos Hvalue] | [-> Hvalue]].
  2: { cbn. by rewrite Hvalue. }
  destruct (Z.ltb_spec 0 valueAtStart); [| lia].
  unfold applyConditionChange, announced. unfold conditionOf in Hvalue.
  destruct (List.find _ conditions) as [condition |] eqn:Hfind;
    [| discriminate].
  injection Hvalue as Hvalue. rewrite Hvalue.
  destruct (Z.leb_spec valueAtStart 3).
  - cbn [Z.eqb orb fst]. by apply removed_by_id.
  - change (3 =? 0) with false. change (3 =? -1) with false. cbn [orb].
    destruct (Z.leb_spec valueAtStart 3); [lia |]. cbn [fst].
    by apply reduced_by_id.
Qed.

(** The button of a condition reminder does what the reminder says.  When
    the actor still has the stunned and slowed values read at the start of
    the turn, a click by the GM removes each of the two that is at most 3
    and reduces each greater one by 3, so that no condition is left with a
    value below 1; the other conditions of the actor are as they were. *)
Theorem reminder_applied (stunnedVal slowedVal : Z) (endTurn : bool)
  (button : ReminderButton) (actorName : string)
  (conditions : list ConditionItem) (isCurrent : bool) :
  conditionReminder stunnedVal slowedVal endTurn = Some button ->
  wellFormedConditions conditions ->
  atStart "stunned" stunnedVal conditions ->
  atStart "slowed" slowedVal conditions ->
  exists click,
    _onApplyConditionReductionClick button (Some (actorName, conditions))
      true isCurrent = Some click
    /\ conditionOf "stunned" (conditionsAfter click)
       = (if 0 <? stunnedVal then announced stunnedVal else None)
    /\ conditionOf "slowed" (conditionsAfter click)
       = (if 0 <? slowedVal then announced slowedVal else None)
    /\ (forall slug v, conditionOf slug (conditionsAfter click) = Some v ->
          slug = "stunned" \/ slug = "slowed" -> 1 <= v)
    /\ (forall other, other <> "stunned" -> other <> "slowed" ->
          conditionOf other (conditionsAfter click)
          = conditionOf other conditions)
    /\ nextTurnCalled click = endTurn && isCurrent.
Proof.
  intros Hbutton Hwf Hstunned Hslowed.
  assert (Hdata :
    data_stunned_change button
    = (if 0 <? stunnedVal then if stunnedVal <=? 3 then -1 else 3 else 0)
    /\ data_slowed_change button
       = (if 0 <? slowedVal then if slowedVal <=? 3 then -1 else 3 else 0)
    /\ data_end_turn button = endTurn).
  { unfold conditionReminder in Hbutton.
    destruct (0 <? stunnedVal), (stunnedVal <=? 3),
      (0 <? slowedVal), (slowedVal <=? 3);
      cbn in Hbutton;
      repeat match type of Hbutton with
             | context [0 <? Z.of_nat ?n] =>
                 let b := eval vm_compute in (0 <? Z.of_nat n) in
                 change (0 <? Z.of_nat n) with b in Hbutton
             end;
      cbv iota in Hbutton; simplify_eq; repeat split; reflexivity. }
  destruct Hdata as (Hs & Hw & He).
  unfold _onApplyConditionReductionClick. cbn [negb]. rewrite Hs, Hw, He.
  pose proof (change_applied "Stunned" "stunned" stunnedVal conditions Hwf
                Hstunned) as H1. cbv zeta in H1.
  destruct (applyConditionChange "Stunned" "stunned" _ conditions)
    as [conditions1 lines1]. cbn [fst] in H1.
  destruct H1 as (Hwf1 & Hs1 & Ho1).
  assert (Hslowed1 : atStart "slowed" slowedVal conditions1).
  { unfold atStart. by rewrite Ho1. }
  pose proof (change_applied "Slowed" "slowed" slowedVal conditions1 Hwf1
                Hslowed1) as H2. cbv zeta in H2.
  destruct (applyConditionChange "Slowed" "slowed" _ conditions1)
    as [conditions2 lines2]. cbn [fst] in H2.
  destruct H2 as (Hwf2 & Hs2 & Ho2).
  eexists. split; [reflexivity |]. cbn [conditionsAfter nextTurnCalled].
  assert (Hstunned2 : conditionOf "stunned" conditions2
            = (if 0 <? stunnedVal then announced stunnedVal else None)).
  { by rewrite Ho2. }
  repeat split; try done.
  - intros slug v Hv [-> | ->].
    + rewrite Hstunned2 in Hv. unfold announced in Hv.
      destruct (0 <? stunnedVal); [| discriminate].
      destruct (Z.leb_spec stunnedVal 3); [discriminate |].
      injection Hv as <-. lia.
    + rewrite Hs2 in Hv. unfold announced in Hv.
      destruct (0 <? slowedVal); [| discriminate].
      destruct (Z.leb_spec slowedVal 3); [discriminate |].
      injection Hv as <-. lia.
  - intros other H1 H2. by rewrite Ho2, Ho1.
Qed.

End ConditionReminder.

(** ** The radio buttons of the penalty *)

Section PenaltyRadios.


End PenaltyRadios.

(** ** Spells that can be cast *)

Section SpellsAvailable.

Lemma someRank_spec (found : Z -> bool) (count : nat) :
  forall rank,
    someRank found rank count = true
    <-> exists k, rank <= k < rank + Z.of_nat count /\ found k = true.
Proof.
  induction count as [| count IH]; intros rank; cbn [someRank].
  - split; [discriminate | intros (k & Hk & _); lia].
  - destruct (found rank) eqn:Hf.
    + split; [| done]. intros _. exists rank. split; [lia | done].
    + rewrite IH. split; intros (k & Hk & Hfound).
      * exists k. split; [lia | done].
      * exists k. split; [| done].
        destruct (Z.eq_dec k rank) as [-> | Hne]; [congruence | lia].
Qed.

Lemma slotted_available (maxSpellRank : Z) (actor : Caster)
  (spell : SpellItem) (entry : SpellcastingEntry) :
  slottedSpell actor spell entry ->
  isSpellAvailable maxSpellRank spell actor
  = let turns := Z.to_nat (maxSpellRank - spell_rank spell + 1) in
    if isSpontaneous entry || isFlexible entry
    then someRank (slotLeft entry) (spell_rank spell) turns
    else if isPrepared entry
    then someRank (preparedLeft entry spell) (spell_rank spell) turns
    else false.
Proof.
  intros (Hc & Hf & id & Hloc & Hid & Hentry). unfold isSpellAvailable.
  rewrite Hloc, Hc, Hf, Hentry.
  unfold Js.truthy. destruct (String.eqb_spec id ""); [done |].
  reflexivity.
Qed.

(** A spell of a spontaneous or flexible entry can be cast exactly when a
    slot of its rank or of a higher rank, up to the highest rank, is left:
    the spell can be heightened.  So a slot that serves a spell serves
    every spell of a lower rank of the same entry. *)
Theorem spontaneous_spell_available (maxSpellRank : Z) (actor : Caster)
  (spell : SpellItem) (entry : SpellcastingEntry) :
  slottedSpell actor spell entry ->
  isSpontaneous entry || isFlexible entry = true ->
  (isSpellAvailable maxSpellRank spell actor = true
   <-> exists rank slotData value,
         spell_rank spell <= rank <= maxSpellRank
         /\ slots entry rank = Some slotData
         /\ slot_value slotData = Some value
         /\ default 0 (slot_expended slotData) < value)
  /\ forall lower,
       slottedSpell actor lower entry ->
       spell_rank lower <= spell_rank spell ->
       isSpellAvailable maxSpellRank spell actor = true ->
       isSpellAvailable maxSpellRank lower actor = true.
Proof.
  intros Hspell Hkind.
  assert (Hiff : forall s, slottedSpell actor s entry ->
            isSpellAvailable maxSpellRank s actor = true
            <-> exists rank, spell_rank s <= rank <= maxSpellRank
                             /\ slotLeft entry rank = true).
  { intros s Hs. rewrite (slotted_available _ _ _ _ Hs). cbv zeta.
    rewrite Hkind, someRank_spec.
    split; intros (k & Hk & Hfound); exists k; (split; [lia | done]). }
  split.
  - rewrite (Hiff _ Hspell). unfold slotLeft.
    split.
    + intros (rank & Hrank & Hleft).
      destruct (slots entry rank) as [slotData |] eqn:Hslot; [| discriminate].
      destruct (slot_value slotData) as [value |] eqn:Hv; [| discriminate].
      exists rank, slotData, value. apply Z.ltb_lt in Hleft.
      repeat split; try done; lia.
    + intros (rank & slotData & value & Hrank & Hslot & Hv & Hlt).
      exists rank. split; [lia |]. rewrite Hslot, Hv. by apply Z.ltb_lt.
  - intros lower Hlower Hle. rewrite (Hiff _ Hspell), (Hiff _ Hlower).
    intros (rank & Hrank & Hleft). exists rank. split; [lia | done].
Qed.

(** A spell of a prepared entry can be cast exactly when it is prepared,
    and not expended, in a slot of its rank or of a higher rank. *)
Theorem prepared_spell_available (maxSpellRank : Z) (actor : Caster)
  (spell : SpellItem) (entry : SpellcastingEntry) :
  slottedSpell actor spell entry ->
  isSpontaneous entry = false -> isFlexible entry = false ->
  isPrepared entry = true ->
  isSpellAvailable maxSpellRank spell actor = true
  <-> exists rank slotData prepared,
        spell_rank spell <= rank <= maxSpellRank
        /\ slots entry rank = Some slotData
        /\ slot_prepared slotData = Some prepared
        /\ In (Some (mkPreparedSpell (Some (spell_id spell)) false)) prepared.
Proof.
  intros Hspell Hs Hf Hp. rewrite (slotted_available _ _ _ _ Hspell).
  cbv zeta. rewrite Hs, Hf, Hp. cbn [orb]. rewrite someRank_spec.
  unfold preparedLeft. split.
  - intros (rank & Hrank & Hfound).
    destruct (slots entry rank) as [slotData |] eqn:Hslot; [| discriminate].
    destruct (slot_prepared slotData) as [prepared |] eqn:Hprep;
      [| discriminate].
    apply existsb_exists in Hfound as ([[[id |] expended] |] & Hin & Htest);
      try discriminate.
    cbn in Htest. apply andb_true_iff in Htest as [Hid Hexp].
    apply String.eqb_eq in Hid. apply negb_true_iff in Hexp. subst.
    exists rank, slotData, prepared. repeat split; try done; lia.
  - intros (rank & slotData & prepared & Hrank & Hslot & Hprep & Hin).
    exists rank. split; [lia |]. rewrite Hslot, Hprep.
    apply existsb_exists. eexists. split; [exact Hin |].
    cbn. by rewrite String.eqb_refl.
Qed.

End SpellsAvailable.

(** ** The properties on the sample data *)

Lemma request_clears_or_caches_witness :
  exists flags' events,
    requestNextAISuggestion (Scenario.env []) [Some Scenario.clawReply]
      acceptedFlags None None None
    = Some (flags', events)
    /\ ((flags' = clearAITurnFlags acceptedFlags
         /\ forall card, ~ In (ChatSuggestion card) events)
        \/ (exists cached,
              flags' = <[FLAGS.CACHED_STRIKES := FStrikes cached]> acceptedFlags)
           /\ (forall message, ~ In (NotifyError message) events)
           /\ (forall actions, ~ In (ChatTurnComplete actions) events)
           /\ (forall stunned slowed,
                 ~ In (ChatZeroActionStart stunned slowed) events)).
Proof.
  eexists _, _. split; [vm_compute; reflexivity |].
  eapply (request_clears_or_caches (Scenario.env []) [Some Scenario.clawReply]
            acceptedFlags _ None None None).
  vm_compute. reflexivity.
Defined.


Lemma confirm_cost_error_witness :
  exists message,
    _onConfirmActionClick (Scenario.env []) [Some Scenario.clawReply]
      acceptedFlags (JStr "R") "Shield Block" ""
    = Some (acceptedFlags, [NotifyError message]).
Proof.
  apply (confirm_cost_error (Scenario.env []) [Some Scenario.clawReply]
           acceptedFlags acceptedTurnState (JStr "R") "Shield Block" "");
    [reflexivity | reflexivity |].
  intros cost H. vm_compute in H. discriminate.
Defined.

Lemma confirm_deducts_witness :
  exists flags' events ts',
    _onConfirmActionClick (Scenario.env []) [Some Scenario.clawReply]
      acceptedFlags (JNum 1) Scenario.clawButton ""
    = Some (flags', events)
    /\ getTurnState flags' = Some ts'
    /\ actionsRemaining ts' = 3 - 1
    /\ actionsTakenDescriptions ts'
       = [] ++ [(splitActionDescription Scenario.clawButton).1]
    /\ successfulStrikesThisRound ts' = [].
Proof.
  eexists _, _, _. split; [vm_compute; reflexivity |].
  split; [vm_compute; reflexivity |].
  eapply (confirm_deducts (Scenario.env []) [Some Scenario.clawReply]
            acceptedFlags _ acceptedTurnState _ (JNum 1) 1
            Scenario.clawButton "");
    [reflexivity | reflexivity | vm_compute; reflexivity
    | vm_compute; split; discriminate | vm_compute; reflexivity
    | vm_compute; reflexivity].
Defined.

Lemma confirming_last_action_ends_turn_witness :
  exists summary,
    _onConfirmActionClick (Scenario.env []) [Some Scenario.clawReply]
      Overrun.flags (JNum 1) Scenario.clawButton ""
    = Some (clearAITurnFlags Overrun.flags,
            summary
            ++ [ChatTurnComplete
                  (actionsTakenDescriptions Overrun.turnState
                   ++ [(splitActionDescription Scenario.clawButton).1])])
    /\ forall event, In event summary -> event = LLMCalled ForSummary None.
Proof.
  eapply (confirming_last_action_ends_turn (Scenario.env [])
            [Some Scenario.clawReply] Overrun.flags Overrun.turnState (JNum 1)
            Scenario.clawButton "");
    [reflexivity | reflexivity | vm_compute; discriminate
    | vm_compute; reflexivity | vm_compute; reflexivity].
Defined.

Lemma skip_keeps_turn_witness :
  exists flags' events ts',
    _onSkipActionClick (Scenario.env []) [Some Scenario.clawReply]
      acceptedFlags "Stride" "stay close"
    = Some (flags', events)
    /\ getTurnState flags' = Some ts'
    /\ ts' = setManualNotes acceptedTurnState (Some "stay close").
Proof.
  eexists _, _, _. split; [vm_compute; reflexivity |].
  split; [vm_compute; reflexivity |].
  eapply (skip_keeps_turn (Scenario.env []) [Some Scenario.clawReply]
            acceptedFlags _ acceptedTurnState _ "Stride" "stay close");
    [reflexivity | vm_compute; reflexivity | vm_compute; reflexivity].
Defined.

Lemma session_keeps_other_flags_witness :
  exists flags',
    run Scenario.session (<["permanentNotes" := FBool true]> ∅) = Some flags'
    /\ flags' !! "permanentNotes" = Some (FBool true).
Proof.
  destruct (run Scenario.session (<["permanentNotes" := FBool true]> ∅))
    as [flags' |] eqn:Hrun; [| vm_compute in Hrun; discriminate].
  exists flags'. split; [reflexivity |].
  rewrite (session_keeps_other_flags Scenario.session _ flags' Hrun
             "permanentNotes").
  - reflexivity.
  - intros [H | [H | H]]; discriminate.
Defined.

Lemma resolved_strike_witness :
  exists r,
    identifySuggestionTypeAndCost Scenario.game "Claw, Goblin" Scenario.troll
      (Scenario.snapshot [])
    = Some r
    /\ actualActionCost r = JNum 1
    /\ In "attack" (traits r)
    /\ determineAuthoritativeCost r (JNum 3) = JNum 1.
Proof.
  eexists. split; [vm_compute; reflexivity |].
  destruct (resolved_strike Scenario.game "Claw, Goblin" Scenario.troll
              (Scenario.snapshot []) _ ltac:(vm_compute; reflexivity)
              ltac:(vm_compute; reflexivity))
    as (Hcost & Hattack & _ & _ & _ & Hcard).
  split; [exact Hcost |]. split; [exact Hattack |].
  apply Hcard. vm_compute. reflexivity.
Defined.

Lemma resolved_cost_source_witness :
  exists r,
    identifySuggestionTypeAndCost Elite.game "Grab, Goblin"
      (Elite.troll "Troll") (Elite.snapshot "Troll")
    = Some r
    /\ costSource r <> "LLM"
    /\ determineAuthoritativeCost r (JNum 1) = JNum 2.
Proof.
  eexists. split; [vm_compute; reflexivity |].
  destruct (resolved_cost_source Elite.game "Grab, Goblin"
              (Elite.troll "Troll") (Elite.snapshot "Troll") _
              ltac:(vm_compute; reflexivity))
    as [Hsource Hcost].
  split.
  - intros Hllm. apply Hsource in Hllm. vm_compute in Hllm. discriminate.
  - apply Hcost; vm_compute; reflexivity.
Defined.

Lemma parsed_reply_valid_witness :
  exists p,
    parseReply Scenario.clawReply = Some p
    /\ description p <> "" /\ concreteCost (cost p).
Proof.
  eexists. split; [vm_compute; reflexivity |].
  apply (parsed_reply_valid Scenario.clawReply). vm_compute. reflexivity.
Defined.

Lemma fallback_first_cost_witness :
  exists p,
    parseLLMSuggestion
      ("ACTION: Stride" +:+ Scenario.nl +:+ "TARGET: Self" +:+ Scenario.nl
       +:+ "COST: 5 actions" +:+ Scenario.nl +:+ "COST: 2" +:+ Scenario.nl
       +:+ "COST: 3")
    = Some p
    /\ cost p = JNum 2.
Proof.
  eexists. split; [vm_compute; reflexivity |].
  rewrite (fallback_first_cost
             ("ACTION: Stride" +:+ Scenario.nl +:+ "TARGET: Self"
              +:+ Scenario.nl +:+ "COST: 5 actions" +:+ Scenario.nl
              +:+ "COST: 2" +:+ Scenario.nl +:+ "COST: 3") _
             ltac:(vm_compute; reflexivity) ltac:(vm_compute; reflexivity)
             ltac:(vm_compute; reflexivity)).
  vm_compute. reflexivity.
Defined.

Lemma callLLM_retries_witness :
  callLLM flakyNetwork "prompt" "key" "https://llm.example/v1" "gpt-4o"
  = (Returned (Some "ACTION: Strike | COST: 1"),
     [Sent 0; Waited 1000; Sent 1; Waited 2000; Sent 2])
  /\ callLLM refusingNetwork "prompt" "key" "https://llm.example/v1" "gpt-4o"
     = (Threw (newError "LLM API Error (401). Check console (F12) for details."),
        [Sent 0; Notified (communicationError 0)])
  /\ let '(result, events) :=
       callLLM flakyNetwork "prompt" "key" "https://llm.example/v1" "gpt-4o" in
     exists n : nat,
       (1 <= n <= 3)%nat
       /\ sent events = seq 0 n
       /\ waited events = take (n - 1) [1000; 2000]
       /\ (forall k, (k < n - 1)%nat -> retryable (flakyNetwork k) = true)
       /\ match result with
          | Returned content =>
              notified events = []
              /\ exists status messageContent,
                   flakyNetwork (n - 1)%nat
                   = Responded status (Message messageContent)
                   /\ response_ok status = true
                   /\ content = answered messageContent
          | Threw _ =>
              notified events = [communicationError (n - 1)]
              /\ (retryable (flakyNetwork (n - 1)%nat) = false \/ n = 3%nat)
          end.
Proof.
  split; [vm_compute; reflexivity |].
  split; [vm_compute; reflexivity |].
  apply (callLLM_retries flakyNetwork "prompt" "key" "https://llm.example/v1"
           "gpt-4o"); reflexivity.
Defined.

Lemma cooldown_after_use_witness :
  limitedUse breathWeapon "breath-weapon" "minute"
  /\ isAbilityOnCooldown [] breathWeapon = false
  /\ exists effect,
       applyCooldownEffect [] breathWeapon true = [] ++ [effect]
       /\ effect_rounds effect = roundsOf "minute"
       /\ isAbilityOnCooldown (applyCooldownEffect [] breathWeapon true)
            breathWeapon = true.
Proof.
  assert (H : limitedUse breathWeapon "breath-weapon" "minute").
  { repeat split; try discriminate. exists 1. split; [reflexivity | lia]. }
  split; [exact H |]. split; [reflexivity |].
  apply (cooldown_after_use [] breathWeapon "breath-weapon" "minute" H).
  cbn. tauto.
Defined.

Lemma cooldown_unknown_period_witness :
  limitedUse secondWind "second-wind" "PT10M"
  /\ applyCooldownEffect [] secondWind true = []
  /\ isAbilityOnCooldown (applyCooldownEffect [] secondWind true) secondWind
     = false.
Proof.
  assert (H : limitedUse secondWind "second-wind" "PT10M").
  { repeat split; try discriminate. exists 1. split; [reflexivity | lia]. }
  split; [exact H |].
  assert (E : applyCooldownEffect [] secondWind true = []).
  { apply (cooldown_unknown_period [] secondWind "second-wind" "PT10M" true H).
    cbn. intuition discriminate. }
  split; [exact E |]. rewrite E. reflexivity.
Defined.

Lemma cooldown_of_another_witness :
  isAbilityOnCooldown (applyCooldownEffect [] breathWeapon true) roar
  = isAbilityOnCooldown [] roar.
Proof.
  apply (cooldown_of_another [] breathWeapon roar "breath-weapon" "minute"
           "roar" "round" true).
  - repeat split; try discriminate. exists 1. split; [reflexivity | lia].
  - repeat split; try discriminate. exists 1. split; [reflexivity | lia].
  - unfold noDash. cbn. intuition discriminate.
  - discriminate.
Defined.

Lemma descriptions_kept_witness :
  shouldExcludeDescription (Some flaskDescription) "Flask" 1200 400 = false
  /\ shouldExcludeDescription (Some trinketDescription) "Trinket" 1200 400
     = true.
Proof.
  split; [| vm_compute; reflexivity].
  apply (descriptions_kept flaskDescription "Flask").
  - apply Nat.leb_le. vm_compute. reflexivity.
  - left. vm_compute. reflexivity.
Defined.

Lemma reminder_applied_witness :
  conditionReminder 5 2 false = Some dazedButton
  /\ exists click,
       _onApplyConditionReductionClick dazedButton (Some ("Ogre", dazed))
         true true = Some click
       /\ conditionOf "stunned" (conditionsAfter click) = Some 2
       /\ conditionOf "slowed" (conditionsAfter click) = None
       /\ conditionOf "frightened" (conditionsAfter click) = Some 1.
Proof.
  split; [reflexivity |].
  destruct (reminder_applied 5 2 false dazedButton "Ogre" dazed true)
    as (click & Hclick & Hstunned & Hslowed & _ & Hother & _).
  - reflexivity.
  - split; cbn; repeat constructor; rewrite ?list_elem_of_In; cbn;
      intuition discriminate.
  - left. split; [lia | reflexivity].
  - left. split; [lia | reflexivity].
  - exists click. split; [exact Hclick |].
    split; [exact Hstunned |]. split; [exact Hslowed |].
    rewrite Hother by discriminate. reflexivity.
Defined.


Lemma spontaneous_spell_available_witness :
  slotLeft sorcery 1 = false
  /\ isSpellAvailable 10 magicMissile caster = true.
Proof.
  split; [reflexivity |].
  assert (H : slottedSpell caster magicMissile sorcery).
  { repeat split. exists "sorcery". repeat split. discriminate. }
  destruct (spontaneous_spell_available 10 caster magicMissile sorcery H
              eq_refl) as [[_ Hleft] _].
  apply Hleft. exists 3, (mkSlotData (Some 2) (Some 1) None), 2.
  repeat split; cbn; lia.
Defined.

Lemma prepared_spell_available_witness :
  preparedLeft wizardry fireball 3 = false
  /\ isSpellAvailable 10 fireball caster = true.
Proof.
  split; [reflexivity |].
  assert (H : slottedSpell caster fireball wizardry).
  { repeat split. exists "wizardry". repeat split. discriminate. }
  destruct (prepared_spell_available 10 caster fireball wizardry H
              eq_refl eq_refl eq_refl) as [_ Hleft].
  apply Hleft.
  exists 4, (mkSlotData (Some 1) None
               (Some [None; Some (mkPreparedSpell (Some "fireball") false)])),
    [None; Some (mkPreparedSpell (Some "fireball") false)].
  repeat split; cbn; try lia. tauto.
Defined.
